(** * OpenASVG: a shallow embedding of [openasvg.js]

    The engine of [src/js/openasvg.js] is embedded function by function.
    JavaScript numbers are IEEE-754 binary64 values, so they are modelled
    by Rocq's primitive [float]; JavaScript objects held by [this] become
    records; mutation, the DOM, the event stream and exceptions are
    threaded through a small state-and-completion monad.  Built-ins of
    the JavaScript host that the engine merely calls (number parsing and
    printing, CSS selector matching, transcendental functions, path
    geometry) are the fields of the [Host] class.

    The embedding comes first, then the notions in which the properties
    are stated and a small host for worked examples, then the properties
    themselves, proved for every host, and last the examples. *)

From Stdlib Require Import Floats ZArith NArith Ascii String.
From stdpp Require Import base option gmap strings list.

Set Warnings "-inexact-float,-register-all".

(** ** JavaScript numbers *)

Module Num.
Local Open Scope float_scope.

(** The double nearest to an integer. *)
Definition of_Z (z : Z) : float :=
  SF2Prim (binary_normalize prec emax z 0 false).

(** [Math.floor]: NaN, the infinities, both zeros and every double whose
    exponent is non-negative are integers already. *)
Definition Math_floor (x : float) : float :=
  match Prim2SF x with
  | S754_finite s m e =>
      if (0 <=? e)%Z then x
      else
        let q := Z.shiftr (Z.pos m) (- e) in
        let exact := (Z.shiftl q (- e) =? Z.pos m)%Z in
        if s then (if exact then - of_Z q else - of_Z (q + 1))
        else of_Z q
  | _ => x
  end.

(** The [%] operator (Number::remainder): the result takes the sign of
    the dividend and is always exact. *)
Definition rem (n d : float) : float :=
  match Prim2SF n, Prim2SF d with
  | S754_nan, _ | _, S754_nan => nan
  | S754_infinity _, _ => nan
  | _, S754_zero _ => nan
  | _, S754_infinity _ => n
  | S754_zero _, _ => n
  | S754_finite sn mn en, S754_finite _ md ed =>
      let e := Z.min en ed in
      let a := Z.shiftl (Z.pos mn) (en - e) in
      let b := Z.shiftl (Z.pos md) (ed - e) in
      SF2Prim (binary_normalize prec emax (cond_Zopp sn (Z.rem a b)) e sn)
  end.

(** [Math.max] and [Math.min] of two arguments: NaN is contagious and
    [+0] is larger than [-0]. *)
Definition Math_max (a b : float) : float :=
  if is_nan a || is_nan b then nan
  else if a <? b then b
  else if b <? a then a
  else if get_sign a then b else a.

Definition Math_min (a b : float) : float :=
  if is_nan a || is_nan b then nan
  else if a <? b then a
  else if b <? a then b
  else if get_sign a then a else b.

Definition Math_abs (x : float) : float := abs x.

(** [Math.round]: to the nearest integer, a tie going up. *)
Definition Math_round (x : float) : float :=
  match Prim2SF x with
  | S754_finite s m e =>
      if (0 <=? e)%Z then x
      else
        let q := Z.shiftr (Z.pos m) (- e) in
        let r := (Z.pos m - Z.shiftl q (- e))%Z in
        let half := Z.shiftl 1 (- e - 1) in
        if s then
          (if (half <? r)%Z then - of_Z (q + 1) else - of_Z q)
        else
          (if (half <=? r)%Z then of_Z (q + 1) else of_Z q)
  | _ => x
  end.

Definition Math_PI : float := 3.141592653589793.

(** ToBoolean on a number: [0], [-0] and NaN are falsy. *)
Definition truthy (x : float) : bool := negb (is_nan x || is_zero x).

(** [a || b] when [a] is a number. *)
Definition or_else (a b : float) : float := if truthy a then a else b.
End Num.

(** ** JavaScript strings

    A [string] is read as a sequence of code units below 256. *)

Module Text.
Local Open Scope char_scope.

Definition code (c : ascii) : N := N_of_ascii c.

Definition is_digit (c : ascii) : bool :=
  (48 <=? code c)%N && (code c <=? 57)%N.

(** The class [[\d.]]. *)
Definition is_digit_or_dot (c : ascii) : bool :=
  is_digit c || (code c =? 46)%N.

(** The class [\s], as far as it lies below 256. *)
Definition is_space (c : ascii) : bool :=
  let n := code c in
  ((9 <=? n)%N && (n <=? 13)%N) || (n =? 32)%N || (n =? 160)%N.

Definition is_hex (c : ascii) : bool :=
  let n := code c in
  is_digit c || ((65 <=? n)%N && (n <=? 70)%N)
             || ((97 <=? n)%N && (n <=? 102)%N).

Definition hex_value (c : ascii) : Z :=
  let n := code c in
  if is_digit c then Z.of_N n - 48
  else if (n <=? 70)%N then Z.of_N n - 55
  else Z.of_N n - 87.

Definition lower (c : ascii) : ascii :=
  let n := code c in
  if ((65 <=? n)%N && (n <=? 90)%N)
     || ((192 <=? n)%N && (n <=? 222)%N && negb (n =? 215)%N)
  then ascii_of_N (n + 32) else c.

Local Open Scope string_scope.

Fixpoint toLowerCase (s : string) : string :=
  match s with
  | "" => ""
  | String c r => String (lower c) (toLowerCase r)
  end.

(** The longest prefix whose characters satisfy [p], and what follows. *)
Fixpoint span (p : ascii -> bool) (s : string) : string * string :=
  match s with
  | "" => ("", "")
  | String c r =>
      if p c then let '(a, b) := span p r in (String c a, b)
      else ("", s)
  end.

Fixpoint strip_prefix (p s : string) : option string :=
  match p, s with
  | "", _ => Some s
  | String a p', String b s' =>
      if Ascii.eqb a b then strip_prefix p' s' else None
  | String _ _, "" => None
  end.

Definition startsWith (s p : string) : bool :=
  match strip_prefix p s with Some _ => true | None => false end.

Fixpoint forallb (p : ascii -> bool) (s : string) : bool :=
  match s with
  | "" => true
  | String c r => p c && forallb p r
  end.

(** One capture of [[\d.]+]: greedy, and nothing after it in the
    patterns below can start with a digit or a dot. *)
Definition digits_group (s : string) : option (string * string) :=
  let '(g, r) := span is_digit_or_dot s in
  if String.eqb g "" then None else Some (g, r).

Definition int_group (s : string) : option (string * string) :=
  let '(g, r) := span is_digit s in
  if String.eqb g "" then None else Some (g, r).

Definition skip_spaces (s : string) : string := snd (span is_space s).

(** [s.split(/\s+/)]: cut at every maximal run of white space; a run at
    either end leaves an empty piece there. *)
Fixpoint split_spaces_from (piece : string) (in_run : bool) (s : string)
  : list string :=
  match s with
  | "" => [piece]
  | String c r =>
      if is_space c then
        if in_run then split_spaces_from "" true r
        else piece :: split_spaces_from "" true r
      else split_spaces_from (piece ++ String c "") false r
  end.

Definition split_spaces (s : string) : list string :=
  split_spaces_from "" false s.

Fixpoint join (sep : string) (l : list string) : string :=
  match l with
  | [] => ""
  | [x] => x
  | x :: r => x ++ sep ++ join sep r
  end.

(** A nullable string is truthy when it is neither [null] nor empty. *)
Definition truthy (s : option string) : option string :=
  match s with
  | Some x => if String.eqb x "" then None else Some x
  | None => None
  end.

(** ToString of a nullable string. *)
Definition of_nullable (s : option string) : string := default "null" s.
End Text.

(** ** Documents

    A parsed XML element.  The source document handed to [parseElement]
    is such a tree; the live [svgContent] is a clone of one of its
    subtrees, kept in the table of live documents and addressed by
    [NodeRef]s, so that references held across a rebuild keep pointing
    into the document they were taken from. *)

Module Dom.
Inductive Element : Type :=
| Node (tag : string) (attrs : list (string * string)) (kids : list Element).

Definition tagName (e : Element) : string :=
  match e with Node t _ _ => t end.
Definition attributes (e : Element) : list (string * string) :=
  match e with Node _ a _ => a end.
Definition children (e : Element) : list Element :=
  match e with Node _ _ k => k end.

Fixpoint assoc (name : string) (l : list (string * string)) : option string :=
  match l with
  | [] => None
  | (k, v) :: r => if String.eqb k name then Some v else assoc name r
  end.

Fixpoint assoc_set (name value : string) (l : list (string * string))
  : list (string * string) :=
  match l with
  | [] => [(name, value)]
  | (k, v) :: r =>
      if String.eqb k name then (k, value) :: r
      else (k, v) :: assoc_set name value r
  end.

(** [el.getAttribute(name)]: [null] when the attribute is missing. *)
Definition getAttribute (e : Element) (name : string) : option string :=
  assoc name (attributes e).

Definition withAttribute (name value : string) (e : Element) : Element :=
  match e with Node t a k => Node t (assoc_set name value a) k end.

Fixpoint subtree (p : list nat) (e : Element) : option Element :=
  match p with
  | [] => Some e
  | i :: p' =>
      match children e !! i with
      | Some c => subtree p' c
      | None => None
      end
  end.

Fixpoint update_at (p : list nat) (f : Element -> Element) (e : Element)
  : Element :=
  match p with
  | [] => f e
  | i :: p' =>
      match e with
      | Node t a k => Node t a (alter (update_at p' f) i k)
      end
  end.

(** A live element: the document it belongs to and its place there. *)
Record NodeRef := { document : nat; path : list nat }.
End Dom.
Export Dom.

(** ** Exceptions and completions *)

Inductive Exception :=
| TypeError (message : string)
| DOMException (name : string).

Inductive Completion (A : Type) :=
| Normal (value : A)
| Throw (e : Exception).
Arguments Normal {A} value.
Arguments Throw {A} e.

(** ** The host

    What the JavaScript environment supplies and the engine only calls. *)

Class Host := {
  (** the global [parseFloat] and the one-argument [parseInt], on strings *)
  parseFloat : string -> float;
  parseInt : string -> float;
  (** Number::toString and StringToNumber *)
  Number_toString : float -> string;
  String_toNumber : string -> float;
  Math_sin : float -> float;
  Math_pow : float -> float -> float;
  Math_atan2 : float -> float -> float;
  (** [root.querySelectorAll(selector)] as the places of the matches below
      [root], in document order; an invalid selector is a SyntaxError *)
  select : Element -> string -> Completion (list (list nat));
  (** whether [setAttribute] accepts the attribute name *)
  valid_name : string -> bool;
  (** [getTotalLength] and [getPointAtLength] of a detached [path] element
      whose [d] attribute holds the given data *)
  getTotalLength : string -> Completion float;
  getPointAtLength : string -> float -> Completion (float * float);
  (** values produced by [evaluateExpression], which runs the expression
      as host code and falls back to the expression text *)
  ExprValue : Type;
  evaluateExpression : gmap string ExprValue -> string -> ExprValue
}.

(** ** Animation nodes *)

Module LeafType.
Inductive t :=
  animate | animate_transform | animate_path | animate_color | morph.
End LeafType.

Inductive GroupType := sequence | parallel | animate_set.

(** The [repeat] property: a number on [animate] nodes, the raw attribute
    text on [animate-transform] nodes, absent elsewhere. *)
Inductive Repeat :=
| RepeatNumber (n : float)
| RepeatString (s : string)
| RepeatUndefined.

(** The object literal built by the leaf parsers.  A property that a
    parser does not set is [None] (or [RepeatUndefined], or [false] for
    the flags, which are only ever tested for truth). *)
Record Leaf := {
  type : LeafType.t;
  target : option string;
  attribute : option string;
  transformType : option string;
  path_ : option string;
  from : option string;
  to : option string;
  by_ : option string;
  start : float;
  duration : float;
  easing : string;
  repeat : Repeat;
  reverse : bool;
  fill : option string;
  additive : option string;
  rotate : option string;
  anchor : option string;
  colorSpace : option string;
  preserveCorners : bool;
  id : option string
}.

Record GroupProps := {
  group_type : GroupType;
  group_target : option string;
  group_repeat : option string;
  group_id : option string;
  group_duration : float
}.

Inductive Animation :=
| ALeaf (leaf : Leaf)
| AGroup (props : GroupProps) (animations : list Animation).

(** [anim.duration] *)
Definition anim_duration (a : Animation) : float :=
  match a with
  | ALeaf l => duration l
  | AGroup g _ => group_duration g
  end.

Definition with_target (t : option string) (l : Leaf) : Leaf :=
  {| type := type l; target := t; attribute := attribute l;
     transformType := transformType l; path_ := path_ l; from := from l;
     to := to l; by_ := by_ l; start := start l; duration := duration l;
     easing := easing l; repeat := repeat l; reverse := reverse l;
     fill := fill l; additive := additive l; rotate := rotate l;
     anchor := anchor l; colorSpace := colorSpace l;
     preserveCorners := preserveCorners l; id := id l |}.

(** [anim.target = target] *)
Definition set_target (t : option string) (a : Animation) : Animation :=
  match a with
  | ALeaf l => ALeaf (with_target t l)
  | AGroup g l =>
      AGroup {| group_type := group_type g; group_target := t;
                group_repeat := group_repeat g; group_id := group_id g;
                group_duration := group_duration g |} l
  end.

(** ** The fields of an engine instance *)

(** [this.options] *)
Module Options.
Record t := {
  autoplay : bool;
  loop : bool;
  fps : float;
  width : float;
  height : float;
  duration : float
}.

Definition set_loop (v : bool) (o : t) : t :=
  {| autoplay := autoplay o; loop := v; fps := fps o; width := width o;
     height := height o; duration := duration o |}.
End Options.

(** [this.state] *)
Module State.
Record t := {
  playing : bool;
  currentTime : float;
  duration : float;
  playbackRate : float;
  currentState : option string
}.

Definition set_playing (v : bool) (s : t) : t :=
  {| playing := v; currentTime := currentTime s; duration := duration s;
     playbackRate := playbackRate s; currentState := currentState s |}.
Definition set_currentTime (v : float) (s : t) : t :=
  {| playing := playing s; currentTime := v; duration := duration s;
     playbackRate := playbackRate s; currentState := currentState s |}.
Definition set_duration (v : float) (s : t) : t :=
  {| playing := playing s; currentTime := currentTime s; duration := v;
     playbackRate := playbackRate s; currentState := currentState s |}.
Definition set_playbackRate (v : float) (s : t) : t :=
  {| playing := playing s; currentTime := currentTime s;
     duration := duration s; playbackRate := v;
     currentState := currentState s |}.
Definition set_currentState (v : option string) (s : t) : t :=
  {| playing := playing s; currentTime := currentTime s;
     duration := duration s; playbackRate := playbackRate s;
     currentState := v |}.
End State.

(** An entry of [this.triggers] *)
Module Trigger.
Record t := {
  event : option string;
  target : option string;
  state : option string
}.
End Trigger.

(** What [emit] dispatches: the event type and its [detail]. *)
Inductive Detail :=
| NoDetail
| ErrorDetail (error : Exception)
| TimeDetail (time : float)
| StateDetail (state : string).

Record Event := { event_type : string; detail : Detail }.

(** A listener installed by [setupTriggers]: the element, the event type
    and the state that the callback passes to [setState]. *)
Record Listener := {
  listener_target : NodeRef;
  listener_event : option string;
  listener_state : option string
}.

Section Engine.
Context `{host : Host}.
Local Open Scope float_scope.

(** ** Parsing the timeline *)

(** [el.getAttribute(name) || fallback] *)
Definition attribute_or (el : Element) (name fallback : string) : string :=
  default fallback (Text.truthy (getAttribute el name)).

(** [el.getAttribute(name) === 'true'] *)
Definition attribute_is (el : Element) (name value : string) : bool :=
  match getAttribute el name with
  | Some s => String.eqb s value
  | None => false
  end.

(** The pattern [/^([\d.]+)(ms|s|m)?$/]: the number and the unit. *)
Definition match_time (s : string) : option (string * option string) :=
  match Text.digits_group s with
  | None => None
  | Some (num, rest) =>
      if String.eqb rest "" then Some (num, None)
      else if String.eqb rest "ms" || String.eqb rest "s" || String.eqb rest "m"
      then Some (num, Some rest)
      else None
  end.

Definition parseTime (timeStr : string) : float :=
  if String.eqb timeStr "" then 0
  else
    match match_time timeStr with
    | None => 0
    | Some (num, unit) =>
        let value := parseFloat num in
        let unit := default "s"%string unit in
        if String.eqb unit "ms" then value / 1000
        else if String.eqb unit "s" then value
        else if String.eqb unit "m" then value * 60
        else value
    end.

Definition parseAnimate (el : Element) (parentStart : float) : Leaf :=
  let repeat := attribute_or el "repeat" "1" in
  {| type := LeafType.animate;
     target := getAttribute el "target";
     attribute := getAttribute el "attribute";
     transformType := None;
     path_ := None;
     from := getAttribute el "from";
     to := getAttribute el "to";
     by_ := getAttribute el "by";
     start := parentStart + parseTime (attribute_or el "start" "0s");
     duration := parseTime (attribute_or el "duration" "0s");
     easing := attribute_or el "easing" "linear";
     repeat :=
       RepeatNumber (if String.eqb repeat "infinite" then infinity
                     else parseInt repeat);
     reverse := attribute_is el "reverse" "true";
     fill := Some (attribute_or el "fill" "none");
     additive := None;
     rotate := None;
     anchor := None;
     colorSpace := None;
     preserveCorners := false;
     id := getAttribute el "id" |}.

Definition parseAnimateTransform (el : Element) (parentStart : float) : Leaf :=
  {| type := LeafType.animate_transform;
     target := getAttribute el "target";
     attribute := None;
     transformType := getAttribute el "type";
     path_ := None;
     from := getAttribute el "from";
     to := getAttribute el "to";
     by_ := None;
     start := parentStart + parseTime (attribute_or el "start" "0s");
     duration := parseTime (attribute_or el "duration" "0s");
     easing := attribute_or el "easing" "linear";
     repeat := RepeatString (attribute_or el "repeat" "1");
     reverse := attribute_is el "reverse" "true";
     fill := None;
     additive := Some (attribute_or el "additive" "replace");
     rotate := None;
     anchor := None;
     colorSpace := None;
     preserveCorners := false;
     id := getAttribute el "id" |}.

Definition parseAnimatePath (el : Element) (parentStart : float) : Leaf :=
  {| type := LeafType.animate_path;
     target := getAttribute el "target";
     attribute := None;
     transformType := None;
     path_ := getAttribute el "path";
     from := None;
     to := None;
     by_ := None;
     start := parentStart + parseTime (attribute_or el "start" "0s");
     duration := parseTime (attribute_or el "duration" "0s");
     easing := attribute_or el "easing" "linear";
     repeat := RepeatUndefined;
     reverse := false;
     fill := None;
     additive := None;
     rotate := Some (attribute_or el "rotate" "none");
     anchor := Some (attribute_or el "anchor" "center");
     colorSpace := None;
     preserveCorners := false;
     id := getAttribute el "id" |}.

Definition parseAnimateColor (el : Element) (parentStart : float) : Leaf :=
  {| type := LeafType.animate_color;
     target := getAttribute el "target";
     attribute := getAttribute el "attribute";
     transformType := None;
     path_ := None;
     from := getAttribute el "from";
     to := getAttribute el "to";
     by_ := None;
     start := parentStart + parseTime (attribute_or el "start" "0s");
     duration := parseTime (attribute_or el "duration" "0s");
     easing := attribute_or el "easing" "linear";
     repeat := RepeatUndefined;
     reverse := false;
     fill := None;
     additive := None;
     rotate := None;
     anchor := None;
     colorSpace := Some (attribute_or el "color-space" "srgb");
     preserveCorners := false;
     id := getAttribute el "id" |}.

Definition parseMorph (el : Element) (parentStart : float) : Leaf :=
  {| type := LeafType.morph;
     target := getAttribute el "target";
     attribute := None;
     transformType := None;
     path_ := None;
     from := None;
     to := getAttribute el "to";
     by_ := None;
     start := parentStart + parseTime (attribute_or el "start" "0s");
     duration := parseTime (attribute_or el "duration" "0s");
     easing := attribute_or el "easing" "linear";
     repeat := RepeatUndefined;
     reverse := false;
     fill := None;
     additive := None;
     rotate := None;
     anchor := None;
     colorSpace := None;
     preserveCorners := attribute_is el "preserve-corners" "true";
     id := getAttribute el "id" |}.

(** The loops over [el.children] of the three group parsers, for a given
    parser of the children. *)
Section Children.
Variable parse : Element -> float -> option Animation.

Fixpoint sequence_loop (kids : list Element) (currentStart : float)
  : list Animation * float :=
  match kids with
  | [] => ([], currentStart)
  | child :: rest =>
      match parse child currentStart with
      | Some anim =>
          let '(animations, final) :=
            sequence_loop rest (currentStart + anim_duration anim) in
          (anim :: animations, final)
      | None => sequence_loop rest currentStart
      end
  end.

Fixpoint parallel_loop (parentStart : float) (target : option (option string))
    (kids : list Element) (maxDuration : float) : list Animation * float :=
  match kids with
  | [] => ([], maxDuration)
  | child :: rest =>
      match parse child parentStart with
      | Some anim =>
          let anim :=
            match target with
            | Some t => set_target t anim
            | None => anim
            end in
          let '(animations, final) :=
            parallel_loop parentStart target rest
              (Num.Math_max maxDuration (anim_duration anim)) in
          (anim :: animations, final)
      | None => parallel_loop parentStart target rest maxDuration
      end
  end.

Definition sequence_of (el : Element) (parentStart : float) : Animation :=
  let '(animations, currentStart) :=
    sequence_loop (children el) parentStart in
  AGroup {| group_type := sequence;
            group_target := None;
            group_repeat := Some (attribute_or el "repeat" "1");
            group_id := getAttribute el "id";
            group_duration := currentStart - parentStart |}
         animations.

Definition parallel_of (el : Element) (parentStart : float) : Animation :=
  let '(animations, maxDuration) :=
    parallel_loop parentStart None (children el) 0 in
  AGroup {| group_type := parallel;
            group_target := None;
            group_repeat := None;
            group_id := getAttribute el "id";
            group_duration := maxDuration |}
         animations.

Definition animate_set_of (el : Element) (parentStart : float) : Animation :=
  let target := getAttribute el "target" in
  let '(animations, maxDuration) :=
    parallel_loop parentStart (Some target) (children el) 0 in
  AGroup {| group_type := animate_set;
            group_target := target;
            group_repeat := None;
            group_id := getAttribute el "id";
            group_duration := maxDuration |}
         animations.
End Children.

Fixpoint parseAnimation (el : Element) (parentStart : float) {struct el}
  : option Animation :=
  match el with
  | Node tag attrs kids =>
      let el := Node tag attrs kids in
      let type := Text.toLowerCase tag in
      if String.eqb type "animate" then
        Some (ALeaf (parseAnimate el parentStart))
      else if String.eqb type "animate-transform" then
        Some (ALeaf (parseAnimateTransform el parentStart))
      else if String.eqb type "animate-path" then
        Some (ALeaf (parseAnimatePath el parentStart))
      else if String.eqb type "animate-color" then
        Some (ALeaf (parseAnimateColor el parentStart))
      else if String.eqb type "morph" then
        Some (ALeaf (parseMorph el parentStart))
      else if String.eqb type "sequence" then
        Some (sequence_of parseAnimation el parentStart)
      else if String.eqb type "parallel" then
        Some (parallel_of parseAnimation el parentStart)
      else if String.eqb type "animate-set" then
        Some (animate_set_of parseAnimation el parentStart)
      else None
  end.

Definition parseSequence : Element -> float -> Animation :=
  sequence_of parseAnimation.
Definition parseParallel : Element -> float -> Animation :=
  parallel_of parseAnimation.
Definition parseAnimateSet : Element -> float -> Animation :=
  animate_set_of parseAnimation.

Fixpoint parseTimeline_loop (kids : list Element) : list Animation :=
  match kids with
  | [] => []
  | child :: rest =>
      match parseAnimation child 0 with
      | Some anim => anim :: parseTimeline_loop rest
      | None => parseTimeline_loop rest
      end
  end.

Definition parseTimeline (timelineEl : Element) : list Animation :=
  parseTimeline_loop (children timelineEl).

(** ** Durations *)

(** [(anim.repeat === Infinity || anim.repeat === 'infinite') ? 1
     : parseInt(anim.repeat) || 1] *)
Definition iterations_of (anim : Leaf) : float :=
  match repeat anim with
  | RepeatNumber n =>
      if n =? infinity then 1
      else Num.or_else (parseInt (Number_toString n)) 1
  | RepeatString s =>
      if String.eqb s "infinite" then 1 else Num.or_else (parseInt s) 1
  | RepeatUndefined => Num.or_else (parseInt "undefined") 1
  end.

(** The [forEach] of [calcAnimDuration] over the children of a group:
    [seqDuration] and the captured [maxEnd] are threaded through. *)
Section GroupDuration.
Variable calc : Animation -> float -> float * float.
Variable kind : GroupType.

Fixpoint group_loop (kids : list Animation) (seqDuration maxEnd : float)
  : float * float :=
  match kids with
  | [] => (seqDuration, maxEnd)
  | child :: rest =>
      let '(childDur, maxEnd) := calc child maxEnd in
      group_loop rest
        (match kind with
         | sequence => seqDuration + childDur
         | _ => Num.Math_max seqDuration childDur
         end)
        maxEnd
  end.
End GroupDuration.

(** [calcAnimDuration(anim)]: the value returned, and [maxEnd] after the
    call. *)
Fixpoint calcAnimDuration (anim : Animation) (maxEnd : float) {struct anim}
  : float * float :=
  match anim with
  | AGroup g kids => group_loop calcAnimDuration (group_type g) kids 0 maxEnd
  | ALeaf l =>
      let iterations := iterations_of l in
      let animDuration := duration l * iterations in
      (animDuration, Num.Math_max maxEnd (start l + animDuration))
  end.

Fixpoint timeline_maxEnd (timeline : list Animation) (maxEnd : float) : float :=
  match timeline with
  | [] => maxEnd
  | anim :: rest => timeline_maxEnd rest (snd (calcAnimDuration anim maxEnd))
  end.

(** ** Progress *)

(** ToNumber of [anim.repeat] *)
Definition repeat_number (r : Repeat) : float :=
  match r with
  | RepeatNumber n => n
  | RepeatString s => String_toNumber s
  | RepeatUndefined => nan
  end.

Definition calculateProgress (anim : Leaf) (time : float) : float :=
  let relativeTime := time - start anim in
  if relativeTime <? 0 then (-1)
  else
    let iterations := Num.Math_floor (relativeTime / duration anim) in
    if repeat_number (repeat anim) <=? iterations then 2
    else
      let progress := Num.rem relativeTime (duration anim) / duration anim in
      if reverse anim && (Num.rem iterations 2 =? 1) then 1 - progress
      else progress.

(** ** Easing *)

(** The body of the [for] loop of [cubicBezier], [fuel] being the number
    of iterations that [i < 4] still allows. *)
Fixpoint newton (fuel : nat) (ax bx cx t x : float) : float :=
  match fuel with
  | O => x
  | S fuel' =>
      let currentX := ((ax * x + bx) * x + cx) * x - t in
      if Num.Math_abs currentX <? 0.001 then x
      else
        let currentSlope := (3 * ax * x + 2 * bx) * x + cx in
        if Num.Math_abs currentSlope <? 0.00001 then x
        else newton fuel' ax bx cx t (x - currentX / currentSlope)
  end.

Definition cubicBezier (x1 y1 x2 y2 t : float) : float :=
  let cx := 3 * x1 in
  let bx := 3 * (x2 - x1) - cx in
  let ax := 1 - cx - bx in
  let cy := 3 * y1 in
  let b_y := 3 * (y2 - y1) - cy in
  let ay := 1 - cy - b_y in
  let sampleCurveY := fun t => ((ay * t + b_y) * t + cy) * t in
  let x := newton 4 ax bx cx t t in
  sampleCurveY x.

Definition bounce (t : float) : float :=
  let n1 := 7.5625 in
  let d1 := 2.75 in
  if t <? 1 / d1 then n1 * t * t
  else if t <? 2 / d1 then
    let t := t - 1.5 / d1 in n1 * t * t + 0.75
  else if t <? 2.5 / d1 then
    let t := t - 2.25 / d1 in n1 * t * t + 0.9375
  else
    let t := t - 2.625 / d1 in n1 * t * t + 0.984375.

Definition elastic (t : float) : float :=
  let c4 := (2 * Num.Math_PI) / 3 in
  if t =? 0 then 0
  else if t =? 1 then 1
  else Math_pow 2 (-10 * t) * Math_sin ((t * 10 - 0.75) * c4) + 1.

(** What [easings[easing](t)] can evaluate to. *)
Inductive JsValue :=
| JNumber (x : float)
| JString (s : string)
| JBoolean (b : bool)
| JUndefined
| JNumberObject (x : float)   (* [Object(t)] for a number [t] *)
| JEasings.                   (* the [easings] object itself *)

Definition ToNumber (v : JsValue) : float :=
  match v with
  | JNumber x => x
  | JString s => String_toNumber s
  | JBoolean b => if b then 1 else 0
  | JUndefined => nan
  | JNumberObject x => x
  | JEasings => String_toNumber "[object Object]"
  end.

(** The own properties of the object literal [easings]. *)
Definition own_easing (name : string) : option (float -> float) :=
  if String.eqb name "linear" then Some (fun t => t)
  else if String.eqb name "ease" then Some (cubicBezier 0.25 0.1 0.25 1)
  else if String.eqb name "ease-in" then Some (cubicBezier 0.42 0 1 1)
  else if String.eqb name "ease-out" then Some (cubicBezier 0 0 0.58 1)
  else if String.eqb name "ease-in-out" then Some (cubicBezier 0.42 0 0.58 1)
  else if String.eqb name "bounce" then Some bounce
  else if String.eqb name "elastic" then Some elastic
  else None.

(** [easings] is an ordinary object, so [easings[easing]] also finds what
    it inherits from [Object.prototype]: its methods, and through the
    [__proto__] accessor the prototype object itself.  The result of
    calling the property with [this = easings] and the argument [t]. *)
Definition inherited_easing (name : string) (t : float)
  : option (Completion JsValue) :=
  if String.eqb name "constructor" then Some (Normal (JNumberObject t))
  else if String.eqb name "hasOwnProperty"
          || String.eqb name "propertyIsEnumerable" then
    Some (Normal (JBoolean (bool_decide
                              (is_Some (own_easing (Number_toString t))))))
  else if String.eqb name "isPrototypeOf" then Some (Normal (JBoolean false))
  else if String.eqb name "toString" || String.eqb name "toLocaleString" then
    Some (Normal (JString "[object Object]"))
  else if String.eqb name "valueOf" then Some (Normal JEasings)
  else if String.eqb name "__lookupGetter__"
          || String.eqb name "__lookupSetter__" then
    Some (Normal JUndefined)
  else if String.eqb name "__defineGetter__"
          || String.eqb name "__defineSetter__" then
    Some (Throw (TypeError "Expecting function"))
  else if String.eqb name "__proto__" then
    Some (Throw (TypeError "easings[easing] is not a function"))
  else None.

(** The pattern
    [/cubic-bezier\(([\d.]+),\s*([\d.]+),\s*([\d.]+),\s*([\d.]+)\)/]
    tried at the head of [s], then anywhere in [s]. *)
Definition bezier_here (s : string)
  : option (string * string * string * string) :=
  r ← Text.strip_prefix "cubic-bezier(" s;
  '(g1, r) ← Text.digits_group r;
  r ← Text.strip_prefix "," r;
  '(g2, r) ← Text.digits_group (Text.skip_spaces r);
  r ← Text.strip_prefix "," r;
  '(g3, r) ← Text.digits_group (Text.skip_spaces r);
  r ← Text.strip_prefix "," r;
  '(g4, r) ← Text.digits_group (Text.skip_spaces r);
  _ ← Text.strip_prefix ")" r;
  Some (g1, g2, g3, g4).

Fixpoint bezierMatch (s : string)
  : option (string * string * string * string) :=
  match bezier_here s with
  | Some m => Some m
  | None =>
      match s with
      | EmptyString => None
      | String _ r => bezierMatch r
      end
  end.

Definition applyEasing (t : float) (easing : string) : Completion JsValue :=
  match own_easing easing with
  | Some f => Normal (JNumber (f t))
  | None =>
      match inherited_easing easing t with
      | Some result => result
      | None =>
          match bezierMatch easing with
          | Some (g1, g2, g3, g4) =>
              Normal (JNumber (cubicBezier (parseFloat g1) (parseFloat g2)
                                           (parseFloat g3) (parseFloat g4) t))
          | None => Normal (JNumber t)
          end
      end
  end.

(** ** The engine and its world

    [Engine] holds the fields of [this] that the methods below use.  The
    [World] adds what lives outside the instance: the live documents, the
    installed listeners, the events dispatched so far, the animation
    frames requested and not yet run, and the clock behind
    [performance.now()], read one sample per call. *)

Record Engine := {
  options : Options.t;
  state : State.t;
  timeline : option (list Animation);
  svgContent : option NodeRef;
  variables : gmap string ExprValue;
  states : gmap string Element;
  triggers : list Trigger.t;
  targetCache : gmap string (list NodeRef);
  _animationFrame : option nat;
  _lastFrameTime : float;
  _startTime : float
}.

Definition set_options (v : Options.t) (e : Engine) : Engine :=
  {| options := v; state := state e; timeline := timeline e;
     svgContent := svgContent e; variables := variables e;
     states := states e; triggers := triggers e;
     targetCache := targetCache e; _animationFrame := _animationFrame e;
     _lastFrameTime := _lastFrameTime e; _startTime := _startTime e |}.
Definition set_state (v : State.t) (e : Engine) : Engine :=
  {| options := options e; state := v; timeline := timeline e;
     svgContent := svgContent e; variables := variables e;
     states := states e; triggers := triggers e;
     targetCache := targetCache e; _animationFrame := _animationFrame e;
     _lastFrameTime := _lastFrameTime e; _startTime := _startTime e |}.
Definition set_timeline (v : option (list Animation)) (e : Engine) : Engine :=
  {| options := options e; state := state e; timeline := v;
     svgContent := svgContent e; variables := variables e;
     states := states e; triggers := triggers e;
     targetCache := targetCache e; _animationFrame := _animationFrame e;
     _lastFrameTime := _lastFrameTime e; _startTime := _startTime e |}.
Definition set_svgContent (v : option NodeRef) (e : Engine) : Engine :=
  {| options := options e; state := state e; timeline := timeline e;
     svgContent := v; variables := variables e;
     states := states e; triggers := triggers e;
     targetCache := targetCache e; _animationFrame := _animationFrame e;
     _lastFrameTime := _lastFrameTime e; _startTime := _startTime e |}.
Definition set_variables (v : gmap string ExprValue) (e : Engine) : Engine :=
  {| options := options e; state := state e; timeline := timeline e;
     svgContent := svgContent e; variables := v;
     states := states e; triggers := triggers e;
     targetCache := targetCache e; _animationFrame := _animationFrame e;
     _lastFrameTime := _lastFrameTime e; _startTime := _startTime e |}.
Definition set_states (v : gmap string Element) (e : Engine) : Engine :=
  {| options := options e; state := state e; timeline := timeline e;
     svgContent := svgContent e; variables := variables e;
     states := v; triggers := triggers e;
     targetCache := targetCache e; _animationFrame := _animationFrame e;
     _lastFrameTime := _lastFrameTime e; _startTime := _startTime e |}.
Definition set_triggers (v : list Trigger.t) (e : Engine) : Engine :=
  {| options := options e; state := state e; timeline := timeline e;
     svgContent := svgContent e; variables := variables e;
     states := states e; triggers := v;
     targetCache := targetCache e; _animationFrame := _animationFrame e;
     _lastFrameTime := _lastFrameTime e; _startTime := _startTime e |}.
Definition set_targetCache (v : gmap string (list NodeRef)) (e : Engine)
  : Engine :=
  {| options := options e; state := state e; timeline := timeline e;
     svgContent := svgContent e; variables := variables e;
     states := states e; triggers := triggers e;
     targetCache := v; _animationFrame := _animationFrame e;
     _lastFrameTime := _lastFrameTime e; _startTime := _startTime e |}.
Definition set_animationFrame (v : option nat) (e : Engine) : Engine :=
  {| options := options e; state := state e; timeline := timeline e;
     svgContent := svgContent e; variables := variables e;
     states := states e; triggers := triggers e;
     targetCache := targetCache e; _animationFrame := v;
     _lastFrameTime := _lastFrameTime e; _startTime := _startTime e |}.
Definition set_lastFrameTime (v : float) (e : Engine) : Engine :=
  {| options := options e; state := state e; timeline := timeline e;
     svgContent := svgContent e; variables := variables e;
     states := states e; triggers := triggers e;
     targetCache := targetCache e; _animationFrame := _animationFrame e;
     _lastFrameTime := v; _startTime := _startTime e |}.
Definition set_startTime (v : float) (e : Engine) : Engine :=
  {| options := options e; state := state e; timeline := timeline e;
     svgContent := svgContent e; variables := variables e;
     states := states e; triggers := triggers e;
     targetCache := targetCache e; _animationFrame := _animationFrame e;
     _lastFrameTime := _lastFrameTime e; _startTime := v |}.

Record World := {
  this : Engine;
  documents : gmap nat Element;
  listeners : list Listener;
  dispatched : list Event;
  frames : list nat;
  last_frame : nat;
  clock : nat -> float;
  clock_reads : nat
}.

Definition set_this (v : Engine) (w : World) : World :=
  {| this := v; documents := documents w; listeners := listeners w;
     dispatched := dispatched w; frames := frames w;
     last_frame := last_frame w; clock := clock w;
     clock_reads := clock_reads w |}.
Definition set_documents (v : gmap nat Element) (w : World) : World :=
  {| this := this w; documents := v; listeners := listeners w;
     dispatched := dispatched w; frames := frames w;
     last_frame := last_frame w; clock := clock w;
     clock_reads := clock_reads w |}.
Definition set_listeners (v : list Listener) (w : World) : World :=
  {| this := this w; documents := documents w; listeners := v;
     dispatched := dispatched w; frames := frames w;
     last_frame := last_frame w; clock := clock w;
     clock_reads := clock_reads w |}.
Definition set_dispatched (v : list Event) (w : World) : World :=
  {| this := this w; documents := documents w; listeners := listeners w;
     dispatched := v; frames := frames w;
     last_frame := last_frame w; clock := clock w;
     clock_reads := clock_reads w |}.
Definition set_frames (v : list nat) (n : nat) (w : World) : World :=
  {| this := this w; documents := documents w; listeners := listeners w;
     dispatched := dispatched w; frames := v;
     last_frame := n; clock := clock w;
     clock_reads := clock_reads w |}.
Definition set_clock_reads (v : nat) (w : World) : World :=
  {| this := this w; documents := documents w; listeners := listeners w;
     dispatched := dispatched w; frames := frames w;
     last_frame := last_frame w; clock := clock w;
     clock_reads := v |}.

(** ** The monad of methods: a state transformer that completes normally
    or abruptly.  Mutations made before a [throw] stay. *)

Definition M (A : Type) : Type := World -> World * Completion A.

Definition ret {A} (a : A) : M A := fun w => (w, Normal a).
Definition throw {A} (e : Exception) : M A := fun w => (w, Throw e).
Definition bind {A B} (m : M A) (k : A -> M B) : M B :=
  fun w =>
    match m w with
    | (w', Normal a) => k a w'
    | (w', Throw e) => (w', Throw e)
    end.
Definition lift {A} (c : Completion A) : M A := fun w => (w, c).
Definition gets {A} (f : Engine -> A) : M A :=
  fun w => (w, Normal (f (this w))).
Definition modify (f : Engine -> Engine) : M unit :=
  fun w => (set_this (f (this w)) w, Normal tt).
Definition modify_state (f : State.t -> State.t) : M unit :=
  modify (fun e => set_state (f (state e)) e).

#[global] Instance M_ret : MRet M := @ret.
#[global] Instance M_bind : MBind M := fun A B k m => bind m k.

(** [list.forEach(f)] *)
Definition forEach {A} (f : A -> M unit) : list A -> M unit :=
  fix go (l : list A) : M unit :=
    match l with
    | [] => ret tt
    | x :: r => f x;; go r
    end.

(** [performance.now()] *)
Definition performance_now : M float :=
  fun w => (set_clock_reads (S (clock_reads w)) w,
            Normal (clock w (clock_reads w))).

(** [requestAnimationFrame(() => this.animate())]: the handle returned is
    a fresh non-zero number. *)
Definition requestAnimationFrame : M nat :=
  fun w =>
    let handle := S (last_frame w) in
    (set_frames (frames w ++ [handle]) handle w, Normal handle).

Definition cancelAnimationFrame (handle : nat) : M unit :=
  fun w =>
    (set_frames (filter (fun h => h <> handle) (frames w)) (last_frame w) w,
     Normal tt).

(** [this.emit(event, data)]: the event is recorded, in the order of
    dispatch.  The handlers that a caller registered with [on] are the
    caller's code and are not run here: what is proved of a method is
    proved of a run in which no handler calls back into the engine. *)
Definition emit (event : string) (data : Detail) : M unit :=
  fun w =>
    (set_dispatched
       (dispatched w ++ [{| event_type := event; detail := data |}]) w,
     Normal tt).

(** ** The live documents *)

Definition element_at (n : NodeRef) (w : World) : option Element :=
  root ← documents w !! document n; subtree (path n) root.

(** [node.getAttribute(name)] *)
Definition node_getAttribute (n : NodeRef) (name : string)
  : M (option string) :=
  fun w => (w, Normal (el ← element_at n w; getAttribute el name)).

(** [node.setAttribute(name, value)] *)
Definition node_setAttribute (n : NodeRef) (name value : string) : M unit :=
  fun w =>
    if valid_name name then
      (set_documents
         (alter (update_at (path n) (withAttribute name value)) (document n)
                (documents w)) w,
       Normal tt)
    else (w, Throw (DOMException "InvalidCharacterError")).

(** [root.querySelectorAll(selector)] *)
Definition node_querySelectorAll (root : NodeRef) (selector : string)
  : M (list NodeRef) :=
  fun w =>
    match element_at root w with
    | Some el =>
        match select el selector with
        | Normal places =>
            (w, Normal (map (fun p => {| document := document root;
                                         path := path root ++ p |}) places))
        | Throw e => (w, Throw e)
        end
    | None => (w, Normal [])
    end.

(** [root.querySelector(selector)] *)
Definition node_querySelector (root : NodeRef) (selector : string)
  : M (option NodeRef) :=
  found ← node_querySelectorAll root selector;
  ret (head found).

(** [element.cloneNode(true)]: the copy becomes a new live document. *)
Definition cloneNode (el : Element) : M NodeRef :=
  fun w =>
    let d := fresh (dom (documents w)) in
    (set_documents (<[d := el]> (documents w)) w,
     Normal {| document := d; path := [] |}).

(** ** Targets *)

Definition getTargets (selector : option string) : M (list NodeRef) :=
  content ← gets svgContent;
  match Text.truthy selector, content with
  | Some selector, Some root =>
      cache ← gets targetCache;
      match cache !! selector with
      | Some targets => ret targets
      | None =>
          targets ← node_querySelectorAll root selector;
          modify (fun e =>
            set_targetCache (<[selector := targets]> (targetCache e)) e);;
          ret targets
      end
  | _, _ => ret []
  end.

(** ** Interpolation *)

Definition null_read {A} (property : string) : Completion A :=
  Throw (TypeError
           ("Cannot read properties of null (reading '" ++ property ++ "')")).

Definition interpolateTransform (type from to : option string)
    (progress : JsValue) : Completion string :=
  match from with
  | None => null_read "split"
  | Some from =>
      let fromParts := map parseFloat (Text.split_spaces from) in
      match to with
      | None => null_read "split"
      | Some to =>
          let toParts := map parseFloat (Text.split_spaces to) in
          let interpolated :=
            imap (fun i val =>
                    val + (default nan (toParts !! i) - val)
                          * ToNumber progress)
                 fromParts in
          let joined := Text.join " " (map Number_toString interpolated) in
          let first :=
            match interpolated with
            | x :: _ => Number_toString x
            | [] => "undefined"%string
            end in
          let type := default ""%string type in
          Normal
            (if String.eqb type "translate" then "translate(" ++ joined ++ ")"
             else if String.eqb type "scale" then "scale(" ++ joined ++ ")"
             else if String.eqb type "rotate" then "rotate(" ++ joined ++ ")"
             else if String.eqb type "skewX" then "skewX(" ++ first ++ ")"
             else if String.eqb type "skewY" then "skewY(" ++ first ++ ")"
             else "")%string
      end
  end.

(** [parseInt(pair, 16)] on two hexadecimal digits *)
Definition parseHexPair (a b : ascii) : float :=
  Num.of_Z (16 * Text.hex_value a + Text.hex_value b).

(** The pattern [/^#([0-9a-f]{6})$/i] *)
Definition match_hex (color : string) : option (float * float * float) :=
  match color with
  | String "#" (String r1 (String r2 (String g1 (String g2
      (String b1 (String b2 EmptyString)))))) =>
      if Text.forallb Text.is_hex
           (String r1 (String r2 (String g1 (String g2
              (String b1 (String b2 ""))))))
      then Some (parseHexPair r1 r2, parseHexPair g1 g2, parseHexPair b1 b2)
      else None
  | _ => None
  end.

(** The pattern [/^rgb\((\d+),\s*(\d+),\s*(\d+)\)$/] *)
Definition match_rgb (color : string) : option (string * string * string) :=
  r ← Text.strip_prefix "rgb(" color;
  '(g1, r) ← Text.int_group r;
  r ← Text.strip_prefix "," r;
  '(g2, r) ← Text.int_group (Text.skip_spaces r);
  r ← Text.strip_prefix "," r;
  '(g3, r) ← Text.int_group (Text.skip_spaces r);
  if String.eqb r ")" then Some (g1, g2, g3) else None.

Definition parseColor (color : option string)
  : Completion (float * float * float) :=
  match color with
  | None => null_read "match"
  | Some color =>
      match match_hex color with
      | Some rgb => Normal rgb
      | None =>
          match match_rgb color with
          | Some (r, g, b) => Normal (parseInt r, parseInt g, parseInt b)
          | None => Normal (0, 0, 0)
          end
      end
  end.

Definition interpolateColor (from to : option string) (progress : JsValue)
    (colorSpace : option string) : Completion string :=
  match parseColor from with
  | Throw e => Throw e
  | Normal (fr, fg, fb) =>
      match parseColor to with
      | Throw e => Throw e
      | Normal (tr, tg, tb) =>
          let r := Num.Math_round (fr + (tr - fr) * ToNumber progress) in
          let g := Num.Math_round (fg + (tg - fg) * ToNumber progress) in
          let b := Num.Math_round (fb + (tb - fb) * ToNumber progress) in
          Normal ("rgb(" ++ Number_toString r ++ ", " ++ Number_toString g
                          ++ ", " ++ Number_toString b ++ ")")%string
      end
  end.

Record PathPoint := { point_x : float; point_y : float; point_angle : float }.

Definition getPointOnPath (pathData : option string) (progress : JsValue)
  : Completion PathPoint :=
  let d := Text.of_nullable pathData in
  match getTotalLength d with
  | Throw e => Throw e
  | Normal length =>
      match getPointAtLength d (length * ToNumber progress) with
      | Throw e => Throw e
      | Normal (x, y) =>
          match getPointAtLength d (length * ToNumber progress - 1) with
          | Throw e => Throw e
          | Normal (x1, y1) =>
              match getPointAtLength d (length * ToNumber progress + 1) with
              | Throw e => Throw e
              | Normal (x2, y2) =>
                  Normal
                    {| point_x := x; point_y := y;
                       point_angle :=
                         Math_atan2 (y2 - y1) (x2 - x1) * 180 / Num.Math_PI |}
              end
          end
      end
  end.

Definition interpolatePath (fromPath toPath : string) (progress : JsValue)
  : string :=
  if ToNumber progress <? 0.5 then fromPath else toPath.

(** ** Updating the leaves *)

(** The common head of the five [update...] methods: resolve the targets,
    stop when there are none, compute the progress, stop when it is one
    of the sentinels, ease it, and go on with [body]. *)
Definition with_progress (anim : Leaf) (time : float)
    (body : list NodeRef -> JsValue -> M unit) : M unit :=
  targets ← getTargets (target anim);
  match targets with
  | [] => ret tt
  | _ =>
      let progress := calculateProgress anim time in
      if (progress <? 0) || (1 <? progress) then ret tt
      else
        easedProgress ← lift (applyEasing progress (easing anim));
        body targets easedProgress
  end.

(** The [forEach] of [updateAnimate]. *)
Definition animate_targets (anim : Leaf) (targets : list NodeRef)
    (easedProgress : JsValue) : M unit :=
  forEach (fun target =>
    let name := Text.of_nullable (attribute anim) in
    fromText ← match Text.truthy (from anim) with
               | Some s => ret s
               | None =>
                   current ← node_getAttribute target name;
                   ret (default "0"%string (Text.truthy current))
               end;
    let from := parseFloat fromText in
    let to :=
      parseFloat (default (Number_toString from) (Text.truthy (to anim))) in
    let value := from + (to - from) * ToNumber easedProgress in
    node_setAttribute target name (Number_toString value)) targets.

Definition updateAnimate (anim : Leaf) (time : float) : M unit :=
  with_progress anim time (animate_targets anim).

Definition updateAnimateTransform (anim : Leaf) (time : float) : M unit :=
  with_progress anim time (fun targets easedProgress =>
    forEach (fun target =>
      transform ← lift (interpolateTransform (transformType anim) (from anim)
                                             (to anim) easedProgress);
      if String.eqb (default ""%string (additive anim)) "sum" then
        existing ← node_getAttribute target "transform";
        node_setAttribute target "transform"
          (default "" (Text.truthy existing) ++ " " ++ transform)%string
      else node_setAttribute target "transform" transform) targets).

Definition updateAnimatePath (anim : Leaf) (time : float) : M unit :=
  with_progress anim time (fun targets easedProgress =>
    path ← match path_ anim with
           | Some p => ret p
           | None => lift (null_read "startsWith")
           end;
    pathEl ← (if Text.startsWith path "#" then
                content ← gets svgContent;
                match content with
                | Some root => node_querySelector root path
                | None => lift (null_read "querySelector")
                end
              else ret None);
    pathData ← match pathEl with
               | Some el => node_getAttribute el "d"
               | None => ret (Some path)
               end;
    point ← lift (getPointOnPath pathData easedProgress);
    forEach (fun target =>
      let transform :=
        ("translate(" ++ Number_toString (point_x point) ++ ", "
                      ++ Number_toString (point_y point) ++ ")")%string in
      let rotate := default ""%string (rotate anim) in
      let transform :=
        if String.eqb rotate "auto" || String.eqb rotate "auto-reverse" then
          let angle :=
            point_angle point
            + (if String.eqb rotate "auto-reverse" then 180 else 0) in
          (transform ++ " rotate(" ++ Number_toString angle ++ ")")%string
        else transform in
      node_setAttribute target "transform" transform) targets).

Definition updateAnimateColor (anim : Leaf) (time : float) : M unit :=
  with_progress anim time (fun targets easedProgress =>
    color ← lift (interpolateColor (from anim) (to anim) easedProgress
                                   (colorSpace anim));
    forEach (fun target =>
      node_setAttribute target (Text.of_nullable (attribute anim)) color)
      targets).

Definition updateMorph (anim : Leaf) (time : float) : M unit :=
  with_progress anim time (fun targets easedProgress =>
    content ← gets svgContent;
    toEl ← match content with
           | Some root => node_querySelector root (Text.of_nullable (to anim))
           | None => lift (null_read "querySelector")
           end;
    match toEl with
    | None => ret tt
    | Some toEl =>
        forEach (fun target =>
          fromPath ← node_getAttribute target "d";
          toPath ← node_getAttribute toEl "d";
          match Text.truthy fromPath, Text.truthy toPath with
          | Some fromPath, Some toPath =>
              node_setAttribute target "d"
                (interpolatePath fromPath toPath easedProgress)
          | _, _ => ret tt
          end) targets
    end).

(** The leaf cases of the [switch (anim.type)] in [updateAnim]. *)
Definition update_leaf (anim : Leaf) (localTime : float) : M unit :=
  match type anim with
  | LeafType.animate => updateAnimate anim localTime
  | LeafType.animate_transform => updateAnimateTransform anim localTime
  | LeafType.animate_path => updateAnimatePath anim localTime
  | LeafType.animate_color => updateAnimateColor anim localTime
  | LeafType.morph => updateMorph anim localTime
  end.

(** [updateAnim(anim, parentTime)] inside [updateAnimations(time)] *)
Fixpoint updateAnim (time : float) (anim : Animation) (parentTime : float)
  {struct anim} : M unit :=
  let localTime := time - parentTime in
  match anim with
  | ALeaf l => update_leaf l localTime
  | AGroup _ kids =>
      forEach (fun child => updateAnim time child parentTime) kids
  end.

Definition updateAnimations (time : float) : M unit :=
  timeline ← gets timeline;
  content ← gets svgContent;
  match timeline, content with
  | Some timeline, Some _ =>
      forEach (fun anim => updateAnim time anim 0) timeline
  | _, _ => ret tt
  end.

(** ** Total duration *)

Definition calculateDuration (e : Engine) : float :=
  let maxEnd :=
    match timeline e with
    | Some timeline => timeline_maxEnd timeline 0
    | None => 0
    end in
  Num.or_else (Options.duration (options e)) maxEnd.

(** ** Playback control *)

Definition pause : M unit :=
  playing ← gets (fun e => State.playing (state e));
  if negb playing then ret tt
  else
    modify_state (State.set_playing false);;
    frame ← gets _animationFrame;
    match frame with
    | Some handle =>
        cancelAnimationFrame handle;;
        modify (set_animationFrame None)
    | None => ret tt
    end;;
    emit "pause" NoDetail.

(** The animation loop. *)
Definition animate : M unit :=
  playing ← gets (fun e => State.playing (state e));
  if negb playing then ret tt
  else
    now ← performance_now;
    startTime ← gets _startTime;
    playbackRate ← gets (fun e => State.playbackRate (state e));
    let elapsed := (now - startTime) / 1000 * playbackRate in
    modify_state (State.set_currentTime elapsed);;
    duration ← gets (fun e => State.duration (state e));
    loop ← gets (fun e => Options.loop (options e));
    finished ← (if duration <=? elapsed then
                  if (loop : bool) then
                    modify_state (State.set_currentTime 0);;
                    modify (set_startTime now);;
                    ret false
                  else
                    modify_state (State.set_currentTime duration);;
                    pause;;
                    emit "end" NoDetail;;
                    ret true
                else ret false) : M bool;
    if (finished : bool) then ret tt
    else
      currentTime ← gets (fun e => State.currentTime (state e));
      updateAnimations currentTime;;
      emit "update" (TimeDetail currentTime);;
      handle ← requestAnimationFrame;
      modify (set_animationFrame (Some handle)).

Definition play : M unit :=
  playing ← gets (fun e => State.playing (state e));
  if (playing : bool) then ret tt
  else
    modify_state (State.set_playing true);;
    now ← performance_now;
    currentTime ← gets (fun e => State.currentTime (state e));
    modify (set_startTime (now - currentTime * 1000));;
    now ← performance_now;
    modify (set_lastFrameTime now);;
    emit "play" NoDetail;;
    animate.

Definition stop : M unit :=
  pause;;
  modify_state (State.set_currentTime 0);;
  updateAnimations 0;;
  emit "stop" NoDetail.

Definition seek (time : float) : M unit :=
  duration ← gets (fun e => State.duration (state e));
  let currentTime := Num.Math_max 0 (Num.Math_min time duration) in
  modify_state (State.set_currentTime currentTime);;
  now ← performance_now;
  modify (set_startTime (now - currentTime * 1000));;
  updateAnimations currentTime;;
  emit "seek" (TimeDetail currentTime).

(** The callback that [requestAnimationFrame] was given, run by the host
    for a pending request. *)
Definition tick (handle : nat) : M unit :=
  fun w =>
    if bool_decide (handle ∈ frames w) then
      animate (set_frames (filter (fun h => h <> handle) (frames w))
                          (last_frame w) w)
    else (w, Normal tt).

(** The accessors. *)
Definition set_playbackRate (rate : float) : M unit :=
  modify_state (State.set_playbackRate rate).

Definition set_loop (value : bool) : M unit :=
  modify (fun e => set_options (Options.set_loop value (options e)) e).

Definition set_currentTime (time : float) : M unit := seek time.

Definition get_currentTime : M float :=
  gets (fun e => State.currentTime (state e)).

(** ** States and triggers *)

Definition setState (stateId : string) : M unit :=
  known ← gets states;
  match known !! stateId with
  | None => ret tt
  | Some stateEl =>
      modify_state (State.set_currentState (Some stateId));;
      modify (set_timeline (Some (parseTimeline stateEl)));;
      modify_state (State.set_currentTime 0);;
      now ← performance_now;
      modify (set_startTime now);;
      emit "statechange" (StateDetail stateId)
  end.

Definition addEventListener (l : Listener) : M unit :=
  fun w => (set_listeners (listeners w ++ [l]) w, Normal tt).

Definition setupTriggers : M unit :=
  content ← gets svgContent;
  match content with
  | None => ret tt
  | Some root =>
      triggers ← gets triggers;
      forEach (fun trigger =>
        targets ← node_querySelectorAll root
                    (default "*"%string (Text.truthy (Trigger.target trigger)));
        forEach (fun target =>
          addEventListener {| listener_target := target;
                              listener_event := Trigger.event trigger;
                              listener_state := Trigger.state trigger |})
          targets) triggers
  end.

(** The callback of an installed listener: [this.setState(trigger.state)]. *)
Definition fire (l : Listener) : M unit :=
  match listener_state l with
  | Some stateId => setState stateId
  | None => ret tt
  end.

(** ** Loading a document *)

(** [element.querySelectorAll(selector)] and [element.querySelector] on
    the source document. *)
Definition source_querySelectorAll (el : Element) (selector : string)
  : M (list Element) :=
  places ← lift (select el selector);
  ret (omap (fun p => subtree p el) places).

Definition source_querySelector (el : Element) (selector : string)
  : M (option Element) :=
  found ← source_querySelectorAll el selector;
  ret (head found).

Definition parseElement (element : Element) : M unit :=
  (* root attributes *)
  modify (set_options
    {| Options.width :=
         Num.or_else (parseInt (Text.of_nullable (getAttribute element "width"))) 800;
       Options.height :=
         Num.or_else (parseInt (Text.of_nullable (getAttribute element "height"))) 600;
       Options.duration := parseTime (attribute_or element "duration" "0s");
       Options.fps := parseInt (attribute_or element "fps" "60");
       Options.loop := attribute_is element "loop" "true";
       Options.autoplay := negb (attribute_is element "autoplay" "false") |});;
  (* variables *)
  variablesEl ← source_querySelector element "variables";
  match variablesEl with
  | Some variablesEl =>
      vars ← source_querySelectorAll variablesEl "var";
      forEach (fun varEl =>
        match Text.truthy (getAttribute varEl "name"),
              Text.truthy (getAttribute varEl "value") with
        | Some name, Some value =>
            modify (fun e =>
              set_variables
                (<[name := evaluateExpression (variables e) value]>
                   (variables e)) e)
        | _, _ => ret tt
        end) vars
  | None => ret tt
  end;;
  (* states *)
  statesEl ← source_querySelector element "states";
  match statesEl with
  | Some statesEl =>
      found ← source_querySelectorAll statesEl "state";
      forEach (fun stateEl =>
        match Text.truthy (getAttribute stateEl "id") with
        | Some id =>
            modify (fun e => set_states (<[id := stateEl]> (states e)) e)
        | None => ret tt
        end) found
  | None => ret tt
  end;;
  (* triggers *)
  triggersEl ← source_querySelector element "triggers";
  match triggersEl with
  | Some triggersEl =>
      found ← source_querySelectorAll triggersEl "trigger";
      forEach (fun triggerEl =>
        modify (fun e =>
          set_triggers
            (triggers e ++
               [{| Trigger.event := getAttribute triggerEl "event";
                   Trigger.target := getAttribute triggerEl "target";
                   Trigger.state := getAttribute triggerEl "state" |}]) e))
        found
  | None => ret tt
  end;;
  (* timeline *)
  timelineEl ← source_querySelector element "timeline";
  match timelineEl with
  | Some timelineEl => modify (set_timeline (Some (parseTimeline timelineEl)))
  | None => ret tt
  end;;
  (* SVG content *)
  svgEl ← source_querySelector element "svg";
  match svgEl with
  | Some svgEl =>
      copy ← cloneNode svgEl;
      modify (set_svgContent (Some copy));;
      node_setAttribute copy "xmlns" "http://www.w3.org/2000/svg"
  | None => ret tt
  end;;
  (* total duration *)
  modify (fun e =>
    set_state (State.set_duration (calculateDuration e) (state e)) e);;
  setupTriggers;;
  emit "ready" NoDetail;;
  autoplay ← gets (fun e => Options.autoplay (options e));
  if (autoplay : bool) then play else ret tt.

(** ** Cleanup *)

Definition destroy : M unit :=
  stop;;
  modify (set_targetCache ∅);;
  modify (set_variables ∅);;
  modify (set_states ∅);;
  modify (set_triggers []);;
  modify (set_timeline None);;
  modify (set_svgContent None).

(** ** Exporting a frame

    [exportFrame(time, format)] up to the point where it hands its
    callback to [render]: the engine is paused if it was playing and
    sought to [time].  [render] returns at once, and drops the callback,
    when there is no SVG content; otherwise the callback is kept for the
    moment the image has loaded.  The value is the [wasPlaying] that the
    callback will find, or [None] when the callback was dropped. *)
Definition exportFrame (time : float) : M (option bool) :=
  wasPlaying ← gets (fun e => State.playing (state e));
  (if (wasPlaying : bool) then pause else ret tt);;
  seek time;;
  content ← gets svgContent;
  ret (match content with
       | Some _ => Some wasPlaying
       | None => None
       end).

(** The callback of [exportFrame], run once the image has loaded and the
    blob is there: [if (wasPlaying) this.play()]. *)
Definition exportFrame_resume (wasPlaying : bool) : M unit :=
  if wasPlaying then play else ret tt.

(** ** Notions used to state the properties

    What a method preserves, what the specification claims (each claim
    that fails on the code has its reading as a predicate here), and the
    durations and the Newton iteration in the specification's words. *)

(** [preserves R m]: running [m] relates every world to the world it
    leaves, also when [m] completes abruptly. *)
Definition preserves (R : relation World) {A} (m : M A) : Prop :=
  forall w, R w (m w).1.

(** Every part of the world other than the live documents and the target
    cache. *)
Definition untouched_by_sampling (w : World) :=
  (options (this w), state (this w), timeline (this w), svgContent (this w),
   variables (this w), states (this w), triggers (this w),
   _animationFrame (this w), _lastFrameTime (this w), _startTime (this w),
   listeners w, dispatched w, frames w, last_frame w, clock w, clock_reads w).

(** A sample keeps [untouched_by_sampling] and only adds to the cache. *)
Definition sampled (w w' : World) : Prop :=
  untouched_by_sampling w' = untouched_by_sampling w
  /\ targetCache (this w) ⊆ targetCache (this w').

(** The documents are as they were: nothing was written. *)
Definition unwritten (w w' : World) : Prop := documents w' = documents w.

(** The value of an attribute of a live element. *)
Definition read_attribute (n : NodeRef) (name : string) (w : World)
  : option string :=
  el ← element_at n w; getAttribute el name.

(** What [seek] does before and after it samples: the world in which
    [updateAnimations] runs. *)
Definition seek_anchored (time : float) (w : World) : World :=
  let currentTime :=
    Num.Math_max 0 (Num.Math_min time (State.duration (state (this w)))) in
  set_this
    (set_startTime (clock w (clock_reads w) - currentTime * 1000)
       (set_state (State.set_currentTime currentTime (state (this w)))
                  (this w)))
    (set_clock_reads (S (clock_reads w)) w).


(** The elapsed time that a tick computes from the clock. *)
Definition tick_elapsed (w : World) : float :=
  (clock w (clock_reads w) - _startTime (this w)) / 1000
  * State.playbackRate (state (this w)).

(** The world in which a tick that goes on samples the timeline: the
    clock has been read and the current time set, wrapped to zero with a
    fresh origin when the loop option is on. *)
Definition tick_sampling (w : World) : World :=
  let e := this w in
  let w1 := set_clock_reads (S (clock_reads w)) w in
  if State.duration (state e) <=? tick_elapsed w then
    set_this (set_startTime (clock w (clock_reads w))
                (set_state (State.set_currentTime 0 (state e)) e)) w1
  else
    set_this (set_state (State.set_currentTime (tick_elapsed w) (state e)) e)
             w1.

(** The claim of the specification: a fault raised while a tick samples
    the timeline is caught, an [error] event reports it and playback is
    paused. *)
Definition fault_is_contained (w : World) : Prop :=
  forall w1 e,
    updateAnimations (State.currentTime (state (this (tick_sampling w))))
                     (tick_sampling w) = (w1, Throw e) ->
    (animate w).2 = Normal tt
    /\ State.playing (state (this (animate w).1)) = false
    /\ Exists (fun ev => event_type ev = "error"%string)
              (dispatched (animate w).1).

(** The leaf has reached its repeat count: the time is not before its
    start and the iteration index is at least [repeat]. *)
Definition finished (anim : Leaf) (time : float) : Prop :=
  (time - start anim <? 0) = false
  /\ (repeat_number (repeat anim)
      <=? Num.Math_floor ((time - start anim) / duration anim)) = true.

(** The leaf with another fill policy. *)
Definition with_fill (policy : option string) (l : Leaf) : Leaf :=
  {| type := type l; target := target l; attribute := attribute l;
     transformType := transformType l; path_ := path_ l; from := from l;
     to := to l; by_ := by_ l; start := start l; duration := duration l;
     easing := easing l; repeat := repeat l; reverse := reverse l;
     fill := policy; additive := additive l; rotate := rotate l;
     anchor := anchor l; colorSpace := colorSpace l;
     preserveCorners := preserveCorners l; id := id l |}.

(** The specification's reading of a finished or instantaneous leaf: the
    targets are written as by a sample whose progress is [progress]. *)
Definition sample_at (anim : Leaf) (progress : float) : M unit :=
  targets ← getTargets (target anim);
  match targets with
  | [] => ret tt
  | _ =>
      easedProgress ← lift (applyEasing progress (easing anim));
      animate_targets anim targets easedProgress
  end.

(** [0 if (reverse and (repeat - 1) is odd) else 1] *)
Definition final_progress (anim : Leaf) : float :=
  if reverse anim && (Num.rem (repeat_number (repeat anim) - 1) 2 =? 1) then 0
  else 1.

(** The claim of the specification for the fill policy [freeze]: a
    finished leaf leaves the documents as a sample at the final progress
    would. *)
Definition freeze_reemits (anim : Leaf) (time : float) (w : World) : Prop :=
  finished anim time ->
  fill anim = Some "freeze"%string ->
  documents (updateAnimate anim time w).1
  = documents (sample_at anim (final_progress anim) w).1.

(** The claim of the specification for a leaf of duration zero: it is
    active with progress 1, and written accordingly. *)
Definition instantaneous (anim : Leaf) (time : float) (w : World) : Prop :=
  calculateProgress anim time = 1
  /\ documents (updateAnimate anim time w).1
     = documents (sample_at anim 1 w).1.

(** The claim of the specification: a tick run at the instant of the
    change observes the same current time whether or not the rate was
    changed first. *)
Definition rate_change_keeps_time (rate : float) (w : World) : Prop :=
  State.currentTime (state (this (animate (set_playbackRate rate w).1).1))
  = State.currentTime (state (this (animate w).1)).

(** Every cached selector is still cached, with the same targets. *)
Definition cache_kept (w w' : World) : Prop :=
  targetCache (this w) ⊆ targetCache (this w').

(** The claim of the specification: after the document is rebuilt, a
    selector resolves to what it matches in the new document. *)
Definition rebuild_invalidates (element : Element) (selector : string)
    (w : World) : Prop :=
  let w' := (parseElement element w).1 in
  forall root,
    svgContent (this w') = Some root ->
    (getTargets (Some selector) w').2
    = (node_querySelectorAll root selector w').2.

(** The leaves of a node, in document order. *)
Fixpoint leaves (anim : Animation) : list Leaf :=
  match anim with
  | ALeaf l => [l]
  | AGroup _ kids => flat_map leaves kids
  end.

(** The whole number that a repeat count reads as, and one where it
    reads as 0 or as no number at all. *)
Definition whole_or_one (text : string) : float :=
  let count := parseInt text in
  if is_nan count || is_zero count then 1 else count.

(** The effective iteration count of the specification: one for an
    unbounded repeat, else the whole number that the repeat count reads
    as, and one where there is none.  A leaf without the property is
    read through the text of [undefined]. *)
Definition effective_iterations (r : Repeat) : float :=
  match r with
  | RepeatNumber n =>
      if n =? infinity then 1 else whole_or_one (Number_toString n)
  | RepeatString text =>
      if String.eqb text "infinite" then 1 else whole_or_one text
  | RepeatUndefined => whole_or_one "undefined"
  end.

(** [start + duration * effective iteration count] of a leaf *)
Definition leaf_end (l : Leaf) : float :=
  start l + duration l * effective_iterations (repeat l).

(** The duration of a node as the specification words it: declared
    duration times the effective iteration count for a leaf, the sum of
    the children in order for a sequence, their maximum for the other
    groups. *)
Fixpoint aggregate (anim : Animation) : float :=
  match anim with
  | ALeaf l => duration l * effective_iterations (repeat l)
  | AGroup g kids =>
      match group_type g with
      | sequence => fold_left add (map aggregate kids) 0
      | _ => fold_left Num.Math_max (map aggregate kids) 0
      end
  end.

(** The claim of the specification: the duration that a sequence was
    parsed with is the sum of the durations of its children, in order;
    and so for every sequence below it. *)
Fixpoint lasts_the_sum (anim : Animation) : Prop :=
  match anim with
  | ALeaf _ => True
  | AGroup g kids =>
      (group_type g = sequence ->
       group_duration g = fold_left add (map anim_duration kids) 0)
      /\ (fix below (kids : list Animation) : Prop :=
            match kids with
            | [] => True
            | kid :: rest => lasts_the_sum kid /\ below rest
            end) kids
  end.

Definition durations_add_up (timelineEl : Element) : Prop :=
  Forall lasts_the_sum (parseTimeline timelineEl).

(** [anim.animations] *)
Definition group_children (anim : Animation) : list Animation :=
  match anim with
  | ALeaf _ => []
  | AGroup _ kids => kids
  end.

(** The cubic [((a t + b) t + c) t] of either coordinate, and the
    derivative that [cubicBezier] uses for the first one. *)
Definition sampleCurve (a b c x : float) : float := ((a * x + b) * x + c) * x.
Definition curveSlope (a b c x : float) : float := (3 * a * x + 2 * b) * x + c.

(** One Newton-Raphson step towards [sampleCurve a b c x = t]. *)
Definition newton_step (a b c t x : float) : float :=
  x - (sampleCurve a b c x - t) / curveSlope a b c x.

(** The two tests that end the iteration at [x]. *)
Definition converged (a b c t x : float) : bool :=
  Num.Math_abs (sampleCurve a b c x - t) <? 0.001.
Definition flat (a b c x : float) : bool :=
  Num.Math_abs (curveSlope a b c x) <? 0.00001.

(** The claim of the specification: an easing that names no curve and is
    no cubic-bezier form is the identity. *)
Definition falls_back_to_identity (easing : string) : Prop :=
  own_easing easing = None ->
  bezierMatch easing = None ->
  forall t, applyEasing t easing = Normal (JNumber t).

(** ** Further notions

    Those in which the properties of the parsers, of the samplers and of
    the playback methods beyond the specification are stated. *)

(** The text is empty or begins with a character outside the class [p]:
    where a greedy group over [p] stops. *)
Definition starts_outside (p : ascii -> bool) (s : string) : bool :=
  match s with
  | EmptyString => true
  | String c _ => negb (p c)
  end.

(** The leaf with other values for the properties that the parsers store
    and no method reads: [by], [fill], [id], [anchor], [colorSpace] and
    [preserveCorners]. *)
Definition with_unread (by' fill' id' anchor' colorSpace' : option string)
    (preserveCorners' : bool) (l : Leaf) : Leaf :=
  {| type := type l; target := target l; attribute := attribute l;
     transformType := transformType l; path_ := path_ l; from := from l;
     to := to l; by_ := by'; start := start l; duration := duration l;
     easing := easing l; repeat := repeat l; reverse := reverse l;
     fill := fill'; additive := additive l; rotate := rotate l;
     anchor := anchor'; colorSpace := colorSpace';
     preserveCorners := preserveCorners'; id := id' |}.

(** The leaf is not started at [time]: [calculateProgress] answers -1. *)
Definition not_started (time : float) (l : Leaf) : Prop :=
  (time - start l <? 0) = true.

(** [anim.target] *)
Definition anim_target (a : Animation) : option string :=
  match a with
  | ALeaf l => target l
  | AGroup g _ => group_target g
  end.

(** The node [kept] is the node [parsed] but for its own target: the
    same leaf with another target, or a group of the same kind, repeat
    count, id and duration over the very same children. *)
Definition same_but_target (parsed kept : Animation) : Prop :=
  match parsed, kept with
  | ALeaf l, ALeaf l' => l' = with_target (target l') l
  | AGroup g kids, AGroup g' kids' =>
      kids' = kids
      /\ group_type g' = group_type g
      /\ group_repeat g' = group_repeat g
      /\ group_id g' = group_id g
      /\ group_duration g' = group_duration g
  | _, _ => False
  end.

(** What an engine has gathered from the documents loaded into it is
    still there: the triggers and the installed listeners, in order, and
    every state and every variable by name (its value may have been
    replaced). *)
Definition accumulated (w w' : World) : Prop :=
  triggers (this w) `prefix_of` triggers (this w')
  /\ dom (states (this w)) ⊆@{gset string} dom (states (this w'))
  /\ dom (variables (this w)) ⊆@{gset string} dom (variables (this w'))
  /\ listeners w `prefix_of` listeners w'.

(** The options are as they were. *)
Definition options_kept (w w' : World) : Prop :=
  options (this w') = options (this w).

(** The options that [parseElement] reads from the root element. *)
Definition root_options (element : Element) : Options.t :=
  {| Options.width :=
       Num.or_else (parseInt (Text.of_nullable (getAttribute element "width")))
                   800;
     Options.height :=
       Num.or_else (parseInt (Text.of_nullable (getAttribute element "height")))
                   600;
     Options.duration := parseTime (attribute_or element "duration" "0s");
     Options.fps := parseInt (attribute_or element "fps" "60");
     Options.loop := attribute_is element "loop" "true";
     Options.autoplay := negb (attribute_is element "autoplay" "false") |}.

(** What the engine holds of the documents loaded into it. *)
Definition holdings (w : World) :=
  (timeline (this w), svgContent (this w), states (this w),
   variables (this w), triggers (this w), listeners w).

(** The holdings are as they were, and every cached target is still
    cached. *)
Definition holdings_kept (w w' : World) : Prop :=
  holdings w' = holdings w /\ targetCache (this w) ⊆ targetCache (this w').

#[global] Instance NodeRef_eq_dec : EqDecision NodeRef.
Proof. solve_decision. Defined.

(** The double is a number and not infinite. *)
Definition finite (x : float) : bool :=
  match Prim2SF x with
  | S754_zero _ | S754_finite _ _ _ => true
  | _ => false
  end.

End Engine.

(** ** A small host for the worked examples

    Numbers are read and printed in plain decimal notation, selectors
    are [*], [#id] or an element name, and no path geometry or
    transcendental function is supplied.  Outside this fragment the
    fixture answers NaN (or the text [?]); the examples stay inside it. *)

Module Fixture.
Local Open Scope float_scope.
Local Open Scope string_scope.

Fixpoint digits_value (s : string) (acc : Z) : Z :=
  match s with
  | "" => acc
  | String c r => digits_value r (10 * acc + (Z.of_N (Text.code c) - 48))
  end.

(** [digits], [digits.digits], [.digits] *)
Definition read_float (s : string) : float :=
  let '(whole, rest) := Text.span Text.is_digit s in
  let fraction :=
    match rest with
    | String "." r => fst (Text.span Text.is_digit r)
    | _ => ""
    end in
  if String.eqb whole "" && String.eqb fraction "" then nan
  else
    Num.of_Z (digits_value (whole ++ fraction) 0)
    / Num.of_Z (10 ^ Z.of_nat (String.length fraction)).

(** [digits] or [-digits], whatever follows *)
Definition read_int (s : string) : float :=
  let '(negative, s) :=
    match s with
    | String "-" r => (true, r)
    | _ => (false, s)
    end in
  let whole := fst (Text.span Text.is_digit s) in
  if String.eqb whole "" then nan
  else if negative then - Num.of_Z (digits_value whole 0)
  else Num.of_Z (digits_value whole 0).

Fixpoint digits_of (fuel : nat) (n : Z) (acc : string) : string :=
  match fuel with
  | O => acc
  | S fuel' =>
      let acc := String (ascii_of_N (Z.to_N (48 + n mod 10))) acc in
      if (n <? 10)%Z then acc else digits_of fuel' (n / 10) acc
  end.

Definition print_number (x : float) : string :=
  match Prim2SF x with
  | S754_nan => "NaN"
  | S754_infinity s => if s then "-Infinity" else "Infinity"
  | S754_zero _ => "0"
  | S754_finite s m e =>
      if (0 <=? e)%Z && (e <=? 10)%Z then
        (if s then "-" else "") ++ digits_of 30 (Z.shiftl (Z.pos m) e) ""
      else if (e <? 0)%Z
           && (Z.shiftl (Z.shiftr (Z.pos m) (- e)) (- e) =? Z.pos m)%Z then
        (if s then "-" else "") ++ digits_of 30 (Z.shiftr (Z.pos m) (- e)) ""
      else "?"
  end.

Definition to_number (s : string) : float :=
  if String.eqb s "" then 0
  else if Text.forallb Text.is_digit s then Num.of_Z (digits_value s 0)
  else nan.

(** The local name of a qualified name. *)
Fixpoint localName (s : string) (acc : string) : string :=
  match s with
  | "" => acc
  | String ":" r => localName r ""
  | String c r => localName r (acc ++ String c "")
  end.

Definition is_name_char (c : ascii) : bool :=
  let n := Text.code c in
  ((65 <=? n)%N && (n <=? 90)%N) || ((97 <=? n)%N && (n <=? 122)%N)
  || (n =? 45)%N || (n =? 95)%N.

Definition matches (selector : string) (el : Element) : bool :=
  match selector with
  | "*" => true
  | String "#" name => bool_decide (getAttribute el "id" = Some name)
  | _ => String.eqb (localName (tagName el) "") selector
  end.

Definition well_formed (selector : string) : bool :=
  match selector with
  | "" => false
  | "*" => true
  | String "#" name =>
      negb (String.eqb name "") && Text.forallb is_name_char name
  | _ => Text.forallb is_name_char selector
  end.

(** The places of the matching descendants, in document order. *)
Fixpoint descendants (selector : string) (el : Element) : list (list nat) :=
  match el with
  | Node _ _ kids =>
      (fix go (i : nat) (kids : list Element) : list (list nat) :=
         match kids with
         | [] => []
         | kid :: rest =>
             ((if matches selector kid then [[i]] else [])
              ++ map (cons i) (descendants selector kid)
              ++ go (S i) rest)%list
         end) O kids
  end.

Definition query (el : Element) (selector : string)
  : Completion (list (list nat)) :=
  if well_formed selector then Normal (descendants selector el)
  else Throw (DOMException "SyntaxError").

Definition is_name (name : string) : bool :=
  negb (String.eqb name "") && Text.forallb is_name_char name.

#[export] Instance host : Host := {|
  parseFloat := read_float;
  parseInt := read_int;
  Number_toString := print_number;
  String_toNumber := to_number;
  Math_sin := fun _ => nan;
  Math_pow := fun _ _ => nan;
  Math_atan2 := fun _ _ => nan;
  select := query;
  valid_name := is_name;
  getTotalLength := fun _ => Normal 0;
  getPointAtLength := fun _ _ => Normal (0, 0);
  ExprValue := string;
  evaluateExpression := fun _ expr => expr
|}.
End Fixture.

(** ** The worlds of the worked examples *)

Local Open Scope string_scope.
Local Open Scope float_scope.

(** The leaf with another [repeat]. *)
Definition with_repeat (r : Repeat) (l : Leaf) : Leaf :=
  {| type := type l; target := target l; attribute := attribute l;
     transformType := transformType l; path_ := path_ l; from := from l;
     to := to l; by_ := by_ l; start := start l; duration := duration l;
     easing := easing l; repeat := r; reverse := reverse l;
     fill := fill l; additive := additive l; rotate := rotate l;
     anchor := anchor l; colorSpace := colorSpace l;
     preserveCorners := preserveCorners l; id := id l |}.

(** Children that last 1 s, 2 s and 3 s. *)
Definition three_children : list Element :=
  [ Node "animate" [("duration", "1s")] [];
    Node "animate" [("duration", "2s")] [];
    Node "animate" [("duration", "3s")] [] ].

(** A sequence of these children that follows a child of 2.3 s inside
    another sequence. *)
Definition staggered : Element :=
  Node "sequence" []
    [ Node "animate" [("duration", "2.3s")] [];
      Node "sequence" [] three_children ].

(** A leaf of 2 s that starts after 1 s, with the given [repeat]
    attribute. *)
Definition repeated (count : string) : Element :=
  Node "animate" [("start", "1s"); ("duration", "2s"); ("repeat", count)] [].

(** A document without autoplay, with the given attributes on its root
    and the one node [node] in its timeline. *)
Definition timed (attributes : list (string * string)) (node : Element)
  : Element :=
  Node "asvg" (("autoplay", "false") :: attributes)
    [ Node "timeline" [] [node];
      Node "svg" [] [Node "circle" [("id", "circle"); ("r", "20")] []] ].

(** An instance as the constructor leaves it, on a clock that advances by
    250 ms from one reading to the next. *)
Definition created : @World Fixture.host := {|
  this := {|
    (* width, height and duration are assigned by parseElement *)
    options := {| Options.autoplay := true; Options.loop := false;
                  Options.fps := 60; Options.width := nan;
                  Options.height := nan; Options.duration := nan |};
    state := {| State.playing := false; State.currentTime := 0;
                State.duration := 0; State.playbackRate := 1;
                State.currentState := None |};
    timeline := None;
    svgContent := None;
    variables := ∅;
    states := ∅;
    triggers := [];
    targetCache := ∅;
    _animationFrame := None;
    _lastFrameTime := 0;
    _startTime := 0
  |};
  documents := ∅;
  listeners := [];
  dispatched := [];
  frames := [];
  last_frame := 0;
  clock := fun n => Nat.iter n (fun t => t + 250) 0;
  clock_reads := 0
|}.

(** A document of ten seconds whose timeline is the one node [node] and
    whose drawing is a circle of radius 20. *)
Definition document_with (autoplay : string) (node : Element) : Element :=
  Node "asvg" [("duration", "10s"); ("autoplay", autoplay)]
    [ Node "timeline" [] [node];
      Node "svg" [] [Node "circle" [("id", "circle"); ("r", "20")] []] ].

(** The circle of the first document that is loaded. *)
Definition circle : NodeRef := {| document := 0; path := [0%nat] |}.

(** [<animate target="#circle" attribute="r" from="20" to="80" ...>] *)
Definition grow (more : list (string * string)) : Element :=
  Node "animate"
    ([("target", "#circle"); ("attribute", "r"); ("from", "20"); ("to", "80")]
       ++ more) [].

(** The same document, loaded without autoplay and loaded and playing. *)
Definition loaded (node : Element) : @World Fixture.host :=
  (parseElement (document_with "false" node) created).1.
Definition playing (node : Element) : @World Fixture.host :=
  (parseElement (document_with "true" node) created).1.

(** The total duration that an engine fresh from its constructor gives a
    document. *)
Definition total_of (doc : Element) : float :=
  State.duration (state (this (parseElement doc created).1)).

(** A leaf that runs once, from 0 s to 1 s, with the fill policy
    [freeze]. *)
Definition frozen : Leaf :=
  parseAnimate (host := Fixture.host) (grow [("duration", "1s"); ("fill", "freeze")]) 0.

(** No [duration] attribute: the duration is zero. *)
Definition instant : Leaf :=
  parseAnimate (host := Fixture.host) (grow []) 0.

(** The radius going up and down for ever, one second each way. *)
Definition pulsing : Element :=
  grow [("duration", "1s"); ("repeat", "infinite"); ("reverse", "true")].

(** A second document, in which the circle comes after a rectangle. *)
Definition second_document : Element :=
  Node "asvg" [("duration", "10s")]
    [ Node "timeline" [] [pulsing];
      Node "svg" []
        [ Node "rect" [] [];
          Node "circle" [("id", "circle"); ("r", "20")] [] ] ].

(** A translation that starts after one second and has no [from]. *)
Definition broken : Element :=
  Node "animate-transform"
    [("target", "#circle"); ("type", "translate"); ("to", "10");
     ("start", "1s"); ("duration", "1s")] [].

(** The TypeError of [from.split(...)] when [from] is [null]. *)
Definition split_of_null : Exception :=
  TypeError "Cannot read properties of null (reading 'split')".

(** The engine after its second tick, at the moment the host runs the
    callback of the third frame. *)
Definition before_fault : @World Fixture.host :=
  let w := (tick 1 (playing broken)).1 in
  set_frames (filter (fun h => h <> 2%nat) (frames w)) (last_frame w) w.

(** A radius animation that names no target. *)
Definition silent : Element :=
  Node "animate" [("attribute", "r"); ("from", "20"); ("to", "80");
                  ("duration", "1s")] [].
Definition untargeted : Leaf := parseAnimate (host := Fixture.host) silent 0.

(** The engine playing [pulsing] a hundred times faster, at the moment
    the host runs the callback of its pending frame: the tick is past the
    ten seconds of the document.  The same with the loop option on. *)
Definition ending : @World Fixture.host :=
  let w := (set_playbackRate 100 (playing pulsing)).1 in
  set_frames (filter (fun h => h <> 1%nat) (frames w)) (last_frame w) w.
Definition looping : @World Fixture.host := (set_loop true ending).1.

(** A translation by 10 in both directions over one second, added to the
    transform that is there. *)
Definition sliding : Leaf :=
  parseAnimateTransform (host := Fixture.host)
    (Node "animate-transform"
       [("target", "#circle"); ("type", "translate"); ("from", "0 0");
        ("to", "10 10"); ("duration", "1s"); ("additive", "sum")] []) 0.

(** The radius growing during the second second. *)
Definition late : Element := grow [("start", "1s"); ("duration", "1s")].

(** A leaf whose target is no selector. *)
Definition unresolvable : Leaf :=
  parseAnimate (host := Fixture.host)
    (Node "animate" [("target", "circle >"); ("attribute", "r");
                     ("from", "20"); ("to", "80"); ("duration", "1s")] []) 0.

(** * Properties *)

Section Properties.
Context `{host : Host}.

(** ** What a method leaves alone *)

Section Preserves.
Context (R : relation World) `{!PreOrder R}.

Lemma preserves_ret {A} (a : A) : preserves R (ret a).
Proof. intros w. reflexivity. Qed.

Lemma preserves_lift {A} (c : Completion A) : preserves R (lift c).
Proof. intros w. reflexivity. Qed.

Lemma preserves_gets {A} (f : Engine -> A) : preserves R (gets f).
Proof. intros w. reflexivity. Qed.

Lemma preserves_bind {A B} (m : M A) (k : A -> M B) :
  preserves R m -> (forall a, preserves R (k a)) -> preserves R (m ≫= k).
Proof.
  intros Hm Hk w. unfold mbind, M_bind, bind.
  specialize (Hm w). destruct (m w) as [w' [a|e]]; simpl in *.
  - etrans; [exact Hm | apply Hk].
  - exact Hm.
Qed.

Lemma preserves_forEach {A} (f : A -> M unit) (l : list A) :
  (forall x, preserves R (f x)) -> preserves R (forEach f l).
Proof.
  intros Hf. induction l as [|x l IH]; simpl.
  - apply preserves_ret.
  - apply preserves_bind; [apply Hf | intros _; exact IH].
Qed.

Lemma preserves_getAttribute (n : NodeRef) (name : string) :
  preserves R (node_getAttribute n name).
Proof. intros w. reflexivity. Qed.

Lemma preserves_querySelectorAll (root : NodeRef) (selector : string) :
  preserves R (node_querySelectorAll root selector).
Proof.
  intros w. unfold node_querySelectorAll.
  destruct (element_at root w); [destruct (select _ _)|]; reflexivity.
Qed.

Lemma preserves_querySelector (root : NodeRef) (selector : string) :
  preserves R (node_querySelector root selector).
Proof.
  apply preserves_bind; [apply preserves_querySelectorAll|].
  intros a. apply preserves_ret.
Qed.
End Preserves.

Lemma preserves_forEach_Forall (R : relation World) `{!PreOrder R} {A}
    (f : A -> M unit) (l : list A) :
  Forall (fun x => preserves R (f x)) l -> preserves R (forEach f l).
Proof.
  induction 1 as [|x l Hx _ IH]; simpl.
  - by apply preserves_ret.
  - apply preserves_bind; [done | done | intros _; exact IH].
Qed.

(** Induction on an animation tree, the children of a group included. *)
Lemma Animation_tree_ind (P : Animation -> Prop) :
  (forall l, P (ALeaf l)) ->
  (forall g kids, Forall P kids -> P (AGroup g kids)) ->
  forall a, P a.
Proof.
  intros Hleaf Hgroup. fix IH 1. intros [l|g kids].
  - apply Hleaf.
  - apply Hgroup. induction kids as [|k kids IHkids]; constructor.
    + apply IH.
    + exact IHkids.
Qed.

(** *** Sampling touches the documents and the target cache only *)

#[local] Instance sampled_preorder : PreOrder sampled.
Proof.
  split.
  - intros w. split; reflexivity.
  - intros a b c [E1 S1] [E2 S2]. split.
    + congruence.
    + etrans; eassumption.
Qed.

#[local] Instance unwritten_preorder : PreOrder unwritten.
Proof.
  split.
  - intros w. reflexivity.
  - intros a b c E1 E2. unfold unwritten in *. congruence.
Qed.

Lemma sampled_setAttribute (n : NodeRef) (name value : string) :
  preserves sampled (node_setAttribute n name value).
Proof.
  intros w. unfold node_setAttribute.
  destruct (valid_name name); split; reflexivity.
Qed.

Lemma sampled_cache_insert (selector : string) (targets : list NodeRef) w :
  targetCache (this w) !! selector = None ->
  sampled w
    (set_this (set_targetCache (<[selector := targets]> (targetCache (this w)))
                               (this w)) w).
Proof.
  intros Hmiss. split; [reflexivity|]. simpl. by apply insert_subseteq.
Qed.

Lemma sampled_getTargets (selector : option string) :
  preserves sampled (getTargets selector).
Proof.
  intros w. unfold getTargets, mbind, M_bind, bind, gets, ret, modify.
  destruct (Text.truthy selector) as [sel|]; [|reflexivity].
  destruct (svgContent (this w)) as [root|]; [|reflexivity].
  destruct (targetCache (this w) !! sel) as [hit|] eqn:Hcache; [reflexivity|].
  pose proof (preserves_querySelectorAll sampled root sel w) as Hq.
  destruct (node_querySelectorAll root sel w) as [w1 [targets|e]] eqn:Hrun;
    simpl in *; [|exact Hq].
  unfold node_querySelectorAll in Hrun.
  assert (w1 = w) as ->.
  { destruct (element_at root w); [destruct (select _ _)|]; congruence. }
  by apply sampled_cache_insert.
Qed.

Lemma unwritten_getTargets (selector : option string) :
  preserves unwritten (getTargets selector).
Proof.
  intros w. unfold getTargets, mbind, M_bind, bind, gets, ret, modify.
  destruct (Text.truthy selector) as [sel|]; [|reflexivity].
  destruct (svgContent (this w)) as [root|]; [|reflexivity].
  destruct (targetCache (this w) !! sel) as [hit|]; [reflexivity|].
  unfold node_querySelectorAll.
  destruct (element_at root w); [destruct (select _ _)|]; reflexivity.
Qed.

Ltac preserve R :=
  repeat (cbv zeta;
    lazymatch goal with
    | |- preserves _ (ret _) => apply (preserves_ret R)
    | |- preserves _ (lift _) => apply (preserves_lift R)
    | |- preserves _ (gets _) => apply (preserves_gets R)
    | |- preserves _ (node_getAttribute _ _) => apply (preserves_getAttribute R)
    | |- preserves _ (node_querySelector _ _) =>
        apply (preserves_querySelector R)
    | |- preserves _ (node_querySelectorAll _ _) =>
        apply (preserves_querySelectorAll R)
    | |- preserves _ (_ ≫= _) => apply (preserves_bind R); [|intros ?]
    | |- preserves _ (forEach _ _) => apply (preserves_forEach R); intros ?
    | |- preserves _ (match ?x with _ => _ end) => destruct x
    end).

Lemma sampled_with_progress (anim : Leaf) (time : float)
    (body : list NodeRef -> JsValue -> M unit) :
  (forall targets eased, preserves sampled (body targets eased)) ->
  preserves sampled (with_progress anim time body).
Proof.
  intros Hbody. unfold with_progress.
  apply (preserves_bind sampled); [apply sampled_getTargets|].
  intros [|target targets]; [apply (preserves_ret sampled)|].
  cbv zeta. destruct (_ || _); [apply (preserves_ret sampled)|].
  apply (preserves_bind sampled); [apply (preserves_lift sampled)|].
  intros eased. apply Hbody.
Qed.

Lemma sampled_update_leaf (l : Leaf) (time : float) :
  preserves sampled (update_leaf l time).
Proof.
  unfold update_leaf.
  destruct (type l); apply sampled_with_progress; intros targets eased;
    unfold animate_targets; preserve sampled; apply sampled_setAttribute.
Qed.

Lemma sampled_updateAnim (time : float) (anim : Animation)
    (parentTime : float) :
  preserves sampled (updateAnim time anim parentTime).
Proof.
  induction anim as [l|g kids IH] using Animation_tree_ind; simpl.
  - apply sampled_update_leaf.
  - by apply preserves_forEach_Forall; [apply _|].
Qed.

Lemma sampled_updateAnimations (time : float) :
  preserves sampled (updateAnimations time).
Proof.
  unfold updateAnimations.
  apply (preserves_bind sampled); [apply (preserves_gets sampled)|].
  intros timeline.
  apply (preserves_bind sampled); [apply (preserves_gets sampled)|].
  intros content. destruct timeline, content; preserve sampled.
  apply sampled_updateAnim.
Qed.

Lemma read_attribute_documents (n : NodeRef) (name : string) (w w' : World) :
  documents w = documents w' ->
  read_attribute n name w = read_attribute n name w'.
Proof. intros H. unfold read_attribute, element_at. by rewrite H. Qed.

(** ** Seeking *)

Lemma seek_unfold (time : float) (w : World) :
  let currentTime :=
    Num.Math_max 0 (Num.Math_min time (State.duration (state (this w)))) in
  seek time w =
  match updateAnimations currentTime (seek_anchored time w) with
  | (w2, Normal _) => emit "seek" (TimeDetail currentTime) w2
  | (w2, Throw e) => (w2, Throw e)
  end.
Proof. reflexivity. Qed.


(** ** Faults inside a tick *)

Lemma pause_completes (w : World) : (pause w).2 = Normal tt.
Proof.
  unfold pause, mbind, M_bind, bind, gets, modify_state, modify, emit,
    cancelAnimationFrame, ret.
  simpl. destruct (State.playing (state (this w))); simpl; [|reflexivity].
  destruct (_animationFrame (this w)); reflexivity.
Qed.

(** [animate] completes abruptly only where the sample does. *)
Lemma animate_throws (w w' : World) (e : Exception) :
  animate w = (w', Throw e) ->
  State.playing (state (this w)) = true
  /\ updateAnimations (State.currentTime (state (this (tick_sampling w))))
                       (tick_sampling w) = (w', Throw e).
Proof.
  unfold animate, tick_sampling, tick_elapsed,
    mbind, M_bind, bind, gets, modify_state, modify, performance_now, ret.
  simpl. destruct (State.playing (state (this w))); simpl; [|discriminate].
  destruct (State.duration (state (this w)) <=? _)%float; simpl.
  - destruct (Options.loop (options (this w))); simpl.
    + match goal with
      | |- context [updateAnimations ?t ?x] =>
          destruct (updateAnimations t x) as [w2 [[]|e2]] eqn:Hrun
      end; simpl; [discriminate|].
      intros [= <- <-]. split; [reflexivity | first [exact Hrun | reflexivity]].
    + match goal with
      | |- context [pause ?x] =>
          pose proof (pause_completes x) as Hp;
          destruct (pause x) as [w2 [[]|e2]]
      end; simpl in *; discriminate.
  - match goal with
    | |- context [updateAnimations ?t ?x] =>
        destruct (updateAnimations t x) as [w2 [[]|e2]] eqn:Hrun
    end; simpl; [discriminate|].
    intros [= <- <-]. split; [reflexivity | first [exact Hrun | reflexivity]].
Qed.

(** C5 (as amended).  A fault raised while a tick samples the timeline is
    not caught by [animate]: it propagates to whoever ran the tick,
    nothing is dispatched (no [error] event in particular), the playing
    flag stays set, and no further frame is requested. *)
Theorem tick_fault_propagates (w w' : World) (e : Exception) :
  animate w = (w', Throw e) ->
  State.playing (state (this w')) = true
  /\ dispatched w' = dispatched w
  /\ frames w' = frames w
  /\ _animationFrame (this w') = _animationFrame (this w).
Proof.
  intros Hrun. apply animate_throws in Hrun as [Hplaying Hsample].
  pose proof (sampled_updateAnimations
                (State.currentTime (state (this (tick_sampling w))))
                (tick_sampling w)) as [Hrest _].
  rewrite Hsample in Hrest. simpl in Hrest.
  unfold untouched_by_sampling in Hrest.
  injection Hrest as _ Es _ _ _ _ _ Ef _ _ _ Ed Efr _ _ _.
  rewrite Es, Ef, Ed, Efr. unfold tick_sampling.
  destruct (_ <=? _)%float; simpl; by rewrite ?Hplaying.
Qed.

(** ** Progress and writes *)

(** *** Facts about doubles, from their specification *)

Lemma positive_over_zero (x : float) : (0 <? x) = true -> x / 0 = infinity.
Proof.
  intros H. apply Prim2SF_inj. rewrite FloatAxioms.div_spec.
  rewrite FloatAxioms.ltb_spec in H.
  change (Prim2SF 0) with (S754_zero false) in *.
  change (Prim2SF infinity) with (S754_infinity false).
  destruct (Prim2SF x) as [s|s| |s m e]; try discriminate;
    destruct s; try discriminate; reflexivity.
Qed.

Lemma positive_not_negative (x : float) : (0 <? x) = true -> (x <? 0) = false.
Proof.
  rewrite !FloatAxioms.ltb_spec. change (Prim2SF 0) with (S754_zero false).
  destruct (Prim2SF x) as [s|s| |s m e]; try discriminate;
    destruct s; try discriminate; reflexivity.
Qed.

Lemma below_infinity (r : float) : is_nan r = false -> (r <=? infinity) = true.
Proof.
  unfold is_nan. rewrite FloatAxioms.eqb_spec, FloatAxioms.leb_spec.
  change (Prim2SF infinity) with (S754_infinity false).
  destruct (Prim2SF r) as [s|s| |s m e]; try discriminate;
    destruct s; reflexivity.
Qed.

(** *** The sentinels stop the update *)

(** When [calculateProgress] answers a value below 0 or above 1, the
    update stops after resolving the targets. *)
Lemma with_progress_sentinel (anim : Leaf) (time : float)
    (body : list NodeRef -> JsValue -> M unit) (w : World) :
  (calculateProgress anim time <? 0) || (1 <? calculateProgress anim time)
  = true ->
  (with_progress anim time body w).1 = (getTargets (target anim) w).1
  /\ documents (with_progress anim time body w).1 = documents w.
Proof.
  intros Hout. unfold with_progress, mbind, M_bind, bind.
  pose proof (unwritten_getTargets (target anim) w) as Hdocs.
  destruct (getTargets (target anim) w) as [w1 [[|t ts]|e]]; simpl in *;
    rewrite ?Hout; simpl; by split.
Qed.

Lemma update_leaf_sentinel (anim : Leaf) (time : float) (w : World) :
  (calculateProgress anim time <? 0) || (1 <? calculateProgress anim time)
  = true ->
  documents (update_leaf anim time w).1 = documents w.
Proof.
  intros Hout. unfold update_leaf.
  destruct (type anim); by apply with_progress_sentinel.
Qed.

Lemma finished_progress (anim : Leaf) (time : float) :
  finished anim time -> calculateProgress anim time = 2.
Proof.
  intros [Hstarted Hdone]. unfold calculateProgress.
  by rewrite Hstarted, Hdone.
Qed.

(** C1 (as amended).  Once the iteration index of a leaf has reached its
    repeat count, [calculateProgress] answers the sentinel 2 (no final
    progress is computed) and the update writes no attribute, under the
    fill policy [none], under [freeze] and under any other; this holds
    of [updateAnimate] and of the update of a leaf of any kind. *)
Theorem finished_leaf_is_not_written (anim : Leaf) (time : float) (w : World) :
  finished anim time ->
  calculateProgress anim time = 2
  /\ forall policy,
       documents (updateAnimate (with_fill policy anim) time w).1 = documents w
       /\ documents (update_leaf (with_fill policy anim) time w).1
          = documents w.
Proof.
  intros Hfinished. split; [by apply finished_progress|].
  intros policy.
  assert ((calculateProgress (with_fill policy anim) time <? 0)
          || (1 <? calculateProgress (with_fill policy anim) time) = true)
    as Hout.
  { change (calculateProgress (with_fill policy anim) time)
      with (calculateProgress anim time).
    by rewrite (finished_progress _ _ Hfinished). }
  split; [by apply with_progress_sentinel | by apply update_leaf_sentinel].
Qed.

(** C2 (as amended).  A leaf of duration zero, sampled after its start
    and with a repeat count that is a number, is finished at once: the
    division by zero yields an infinite iteration index, which is no
    fault, [calculateProgress] answers the sentinel 2 and no attribute is
    written, by [updateAnimate] or by the update of a leaf of any
    kind. *)
Theorem zero_duration_leaf_is_finished (anim : Leaf) (time : float)
    (w : World) :
  duration anim = 0 ->
  (0 <? time - start anim) = true ->
  is_nan (repeat_number (repeat anim)) = false ->
  calculateProgress anim time = 2
  /\ documents (updateAnimate anim time w).1 = documents w
  /\ documents (update_leaf anim time w).1 = documents w.
Proof.
  intros Hzero Hafter Hrepeat.
  assert (finished anim time) as Hfinished.
  { split; [by apply positive_not_negative|].
    rewrite Hzero, (positive_over_zero _ Hafter).
    change (Num.Math_floor infinity) with infinity.
    by apply below_infinity. }
  split; [by apply finished_progress|].
  split; [apply with_progress_sentinel | apply update_leaf_sentinel];
    by rewrite (finished_progress _ _ Hfinished).
Qed.

(** A leaf that has not started answers the sentinel -1 and writes
    nothing. *)
Lemma not_started_leaf_is_not_written (anim : Leaf) (time : float) (w : World) :
  (time - start anim <? 0) = true ->
  calculateProgress anim time = (-1)
  /\ documents (updateAnimate anim time w).1 = documents w
  /\ documents (update_leaf anim time w).1 = documents w.
Proof.
  intros Hbefore.
  assert (calculateProgress anim time = (-1)) as Hprogress.
  { unfold calculateProgress. by rewrite Hbefore. }
  split; [done|].
  split; [apply with_progress_sentinel | apply update_leaf_sentinel];
    by rewrite Hprogress.
Qed.

(** ** The playback rate *)

(** A tick of a playing engine that has not reached the end leaves the
    elapsed time it computed as the current time. *)
Lemma animate_continues (w : World) :
  State.playing (state (this w)) = true ->
  (State.duration (state (this w)) <=? tick_elapsed w) = false ->
  State.currentTime (state (this (animate w).1)) = tick_elapsed w.
Proof.
  intros Hplaying Hbefore.
  unfold animate, mbind, M_bind, bind, gets, modify_state, modify,
    performance_now, ret.
  simpl. rewrite Hplaying. simpl.
  fold (tick_elapsed w). rewrite Hbefore. simpl.
  match goal with
  | |- context [updateAnimations ?t ?x] =>
      pose proof (sampled_updateAnimations t x) as [Hrest _];
      destruct (updateAnimations t x) as [w2 [[]|e2]]
  end; simpl in *; unfold untouched_by_sampling in Hrest;
    injection Hrest as _ Es _ _ _ _ _ _ _ _ _ _ _ _ _ _; by rewrite Es.
Qed.

(** C3 (as amended).  Setting the playback rate stores the new rate and
    nothing else: the stored current time and the clock origin are kept
    as they are, so that the next tick of a playing engine computes the
    current time [(now - origin) / 1000 * rate] with the new rate applied
    to all of the elapsed time. *)
Theorem set_playbackRate_rescales (rate : float) (w : World) :
  State.playing (state (this w)) = true ->
  (State.duration (state (this w))
   <=? (clock w (clock_reads w) - _startTime (this w)) / 1000 * rate) = false ->
  let w' := (set_playbackRate rate w).1 in
  State.playbackRate (state (this w')) = rate
  /\ State.currentTime (state (this w')) = State.currentTime (state (this w))
  /\ _startTime (this w') = _startTime (this w)
  /\ State.currentTime (state (this (animate w').1))
     = (clock w (clock_reads w) - _startTime (this w)) / 1000 * rate.
Proof.
  intros Hplaying Hbefore w'. repeat split.
  by rewrite (animate_continues w').
Qed.

(** ** The target cache *)

#[local] Instance cache_kept_preorder : PreOrder cache_kept.
Proof.
  split.
  - intros w. unfold cache_kept. reflexivity.
  - intros a b c. unfold cache_kept. intros. etrans; eassumption.
Qed.

Lemma cache_kept_sampled (w w' : World) : sampled w w' -> cache_kept w w'.
Proof. by intros [_ H]. Qed.

Lemma cache_kept_updateAnimations (time : float) :
  preserves cache_kept (updateAnimations time).
Proof. intros w. apply cache_kept_sampled, sampled_updateAnimations. Qed.

Lemma cache_kept_modify (f : Engine -> Engine) :
  (forall e, targetCache (f e) = targetCache e) ->
  preserves cache_kept (modify f).
Proof. intros Hf w. unfold cache_kept. simpl. by rewrite Hf. Qed.

Lemma cache_kept_outside {A} (m : M A) :
  (forall w, this (m w).1 = this w) -> preserves cache_kept m.
Proof. intros Hm w. unfold cache_kept. by rewrite Hm. Qed.

Lemma cache_kept_setAttribute (n : NodeRef) (name value : string) :
  preserves cache_kept (node_setAttribute n name value).
Proof.
  intros w. unfold node_setAttribute, cache_kept.
  destruct (valid_name name); reflexivity.
Qed.

Ltac keep_cache :=
  repeat (cbv zeta;
    lazymatch goal with
    | |- preserves _ (modify _) =>
        apply cache_kept_modify; intros ?; reflexivity
    | |- preserves _ (updateAnimations _) => apply cache_kept_updateAnimations
    | |- preserves _ (node_setAttribute _ _ _) => apply cache_kept_setAttribute
    | |- preserves _ performance_now =>
        apply cache_kept_outside; intros ?; reflexivity
    | |- preserves _ (emit _ _) =>
        apply cache_kept_outside; intros ?; reflexivity
    | |- preserves _ requestAnimationFrame =>
        apply cache_kept_outside; intros ?; reflexivity
    | |- preserves _ (cancelAnimationFrame _) =>
        apply cache_kept_outside; intros ?; reflexivity
    | |- preserves _ (cloneNode _) =>
        apply cache_kept_outside; intros ?; reflexivity
    | |- preserves _ (addEventListener _) =>
        apply cache_kept_outside; intros ?; reflexivity
    | |- preserves _ (ret _) => apply (preserves_ret cache_kept)
    | |- preserves _ (lift _) => apply (preserves_lift cache_kept)
    | |- preserves _ (gets _) => apply (preserves_gets cache_kept)
    | |- preserves _ (node_querySelectorAll _ _) =>
        apply (preserves_querySelectorAll cache_kept)
    | |- preserves _ (_ ≫= _) =>
        apply (preserves_bind cache_kept); [|intros ?]
    | |- preserves _ (forEach _ _) =>
        apply (preserves_forEach cache_kept); intros ?
    | |- preserves _ (match ?x with _ => _ end) => destruct x
    end).

Lemma cache_kept_pause : preserves cache_kept pause.
Proof. unfold pause, modify_state. keep_cache. Qed.

Lemma cache_kept_animate : preserves cache_kept animate.
Proof.
  unfold animate, modify_state. keep_cache; apply cache_kept_pause.
Qed.

Lemma cache_kept_play : preserves cache_kept play.
Proof. unfold play, modify_state. keep_cache. apply cache_kept_animate. Qed.

Lemma cache_kept_stop : preserves cache_kept stop.
Proof. unfold stop, modify_state. keep_cache. apply cache_kept_pause. Qed.

Lemma cache_kept_seek (time : float) : preserves cache_kept (seek time).
Proof. unfold seek, modify_state. keep_cache. Qed.

Lemma cache_kept_setState (stateId : string) :
  preserves cache_kept (setState stateId).
Proof. unfold setState, modify_state. keep_cache. Qed.

Lemma cache_kept_setupTriggers : preserves cache_kept setupTriggers.
Proof. unfold setupTriggers. keep_cache. Qed.

Lemma cache_kept_parseElement (element : Element) :
  preserves cache_kept (parseElement element).
Proof.
  unfold parseElement, source_querySelector, source_querySelectorAll.
  keep_cache; first [apply cache_kept_setupTriggers | apply cache_kept_play].
Qed.

Lemma getTargets_hit (selector : option string) (sel : string) (w : World)
    (root : NodeRef) (targets : list NodeRef) :
  Text.truthy selector = Some sel ->
  svgContent (this w) = Some root ->
  targetCache (this w) !! sel = Some targets ->
  getTargets selector w = (w, Normal targets).
Proof.
  intros Hsel Hroot Hcache.
  unfold getTargets, mbind, M_bind, bind, gets, ret. simpl.
  by rewrite Hsel, Hroot, Hcache.
Qed.

Lemma getTargets_memoized (selector : option string) (w w1 : World)
    (targets : list NodeRef) :
  getTargets selector w = (w1, Normal targets) ->
  getTargets selector w1 = (w1, Normal targets).
Proof.
  intros Hfirst. generalize Hfirst.
  unfold getTargets at 1. unfold mbind, M_bind, bind, gets, ret, modify. simpl.
  destruct (Text.truthy selector) as [sel|] eqn:Hsel;
    [|by intros [= <- <-]].
  destruct (svgContent (this w)) as [root|] eqn:Hroot;
    [|by intros [= <- <-]].
  destruct (targetCache (this w) !! sel) as [hit|] eqn:Hcache.
  - by intros [= <- <-].
  - unfold node_querySelectorAll.
    destruct (element_at root w) as [el|]; [destruct (select el sel)|];
      intros [= <- <-];
      (apply (getTargets_hit _ sel _ root);
       [exact Hsel | exact Hroot | apply lookup_insert_eq]).
Qed.

(** What [getTargets] answers for a truthy selector on a loaded engine
    is what [targetCache] holds for it afterwards. *)
Lemma getTargets_stores (selector : option string) (sel : string)
    (w w1 : World) (targets : list NodeRef) :
  getTargets selector w = (w1, Normal targets) ->
  Text.truthy selector = Some sel ->
  is_Some (svgContent (this w)) ->
  targetCache (this w1) !! sel = Some targets.
Proof.
  intros Hfirst Hsel [root Hroot]. revert Hfirst.
  unfold getTargets, mbind, M_bind, bind, gets, ret, modify. simpl.
  rewrite Hsel, Hroot.
  destruct (targetCache (this w) !! sel) as [hit|] eqn:Hcache.
  - by intros [= <- <-].
  - unfold node_querySelectorAll.
    destruct (element_at root w) as [el|]; [destruct (select el sel)|];
      intros [= <- <-]; apply lookup_insert_eq.
Qed.

(** A falsy selector resolves to no target, and an engine without
    [svgContent] resolves every selector to none; neither enters the
    cache. *)
Lemma getTargets_nothing (selector : option string) (w : World) :
  Text.truthy selector = None \/ svgContent (this w) = None ->
  getTargets selector w = (w, Normal []).
Proof.
  intros H. unfold getTargets, mbind, M_bind, bind, gets, ret. simpl.
  destruct H as [-> | ->]; [reflexivity|].
  by destruct (Text.truthy selector).
Qed.

(** As long as the cache keeps its entries, a selector that was resolved
    on a loaded engine resolves to the very same list, whatever the
    documents have become. *)
Lemma getTargets_stale (selector : option string) (w w1 w2 : World)
    (targets : list NodeRef) :
  getTargets selector w = (w1, Normal targets) ->
  is_Some (svgContent (this w)) ->
  is_Some (svgContent (this w2)) ->
  cache_kept w1 w2 ->
  getTargets selector w2 = (w2, Normal targets).
Proof.
  intros Hfirst Hloaded [root2 Hroot2] Hkept.
  destruct (Text.truthy selector) as [sel|] eqn:Hsel.
  - apply (getTargets_hit _ sel _ root2); [exact Hsel | exact Hroot2 |].
    eapply lookup_weaken; [|exact Hkept].
    by apply (getTargets_stores selector sel w).
  - rewrite (getTargets_nothing selector w) in Hfirst by by left.
    injection Hfirst as _ <-. apply getTargets_nothing. by left.
Qed.

(** A selector that matches nothing ends the update, without an error. *)
Lemma with_progress_no_targets (anim : Leaf) (time : float)
    (body : list NodeRef -> JsValue -> M unit) (w w1 : World) :
  getTargets (target anim) w = (w1, Normal []) ->
  with_progress anim time body w = (w1, Normal tt).
Proof. intros H. unfold with_progress, mbind, M_bind, bind. by rewrite H. Qed.

Lemma destroy_clears (w : World) :
  (destroy w).2 = Normal tt -> targetCache (this (destroy w).1) = ∅.
Proof.
  unfold destroy, mbind, M_bind, bind, modify.
  destruct (stop w) as [w1 [[]|e]]; simpl; [reflexivity | discriminate].
Qed.

(** C4 (as amended).  The resolver memoizes by selector string: the list
    that a selector resolves to on a loaded engine is stored in
    [targetCache] under the selector, and once it is stored, resolving
    the selector returns that list and changes nothing, in every later
    world that still holds the entry and has an [svgContent], whatever
    the documents have become.  No entry of the cache is ever dropped on
    its own: switching the state, loading a document, seeking, a tick,
    [play], [pause] and [stop] keep every cached list, so that after a
    state switch or after another document is loaded into the same
    engine the selector still resolves to the nodes that were resolved
    first.  The cache is emptied wholesale by a [destroy] that
    completes, and by nothing else among these.  A selector that matches
    no target is not an error: the update of the leaf ends there. *)
Theorem target_cache_lifetime (selector : option string) (w w1 : World)
    (targets : list NodeRef) :
  getTargets selector w = (w1, Normal targets) ->
  getTargets selector w1 = (w1, Normal targets)
  /\ (forall sel,
        Text.truthy selector = Some sel ->
        is_Some (svgContent (this w)) ->
        targetCache (this w1) !! sel = Some targets)
  /\ (forall w2,
        is_Some (svgContent (this w)) ->
        is_Some (svgContent (this w2)) ->
        cache_kept w1 w2 ->
        getTargets selector w2 = (w2, Normal targets))
  /\ (forall stateId, cache_kept w1 (setState stateId w1).1)
  /\ (forall element, cache_kept w1 (parseElement element w1).1)
  /\ (forall time, cache_kept w1 (seek time w1).1)
  /\ cache_kept w1 (animate w1).1
  /\ cache_kept w1 (play w1).1
  /\ cache_kept w1 (pause w1).1
  /\ cache_kept w1 (stop w1).1
  /\ (forall element,
        let w2 := (parseElement element w1).1 in
        is_Some (svgContent (this w)) ->
        is_Some (svgContent (this w2)) ->
        getTargets selector w2 = (w2, Normal targets))
  /\ (forall stateId,
        let w2 := (setState stateId w1).1 in
        is_Some (svgContent (this w)) ->
        is_Some (svgContent (this w2)) ->
        getTargets selector w2 = (w2, Normal targets))
  /\ ((destroy w1).2 = Normal tt -> targetCache (this (destroy w1).1) = ∅)
  /\ (targets = [] ->
      forall anim time body,
        target anim = selector ->
        with_progress anim time body w = (w1, Normal tt)).
Proof.
  intros Hresolved. split_and!.
  - by apply (getTargets_memoized _ w).
  - intros sel. by apply (getTargets_stores selector sel w).
  - intros w2. by apply (getTargets_stale selector w).
  - intros stateId. exact (cache_kept_setState stateId w1).
  - intros element. exact (cache_kept_parseElement element w1).
  - intros time. exact (cache_kept_seek time w1).
  - exact (cache_kept_animate w1).
  - exact (cache_kept_play w1).
  - exact (cache_kept_pause w1).
  - exact (cache_kept_stop w1).
  - intros element w2 Hloaded Hstill.
    apply (getTargets_stale selector w w1); [done | done | done |].
    exact (cache_kept_parseElement element w1).
  - intros stateId w2 Hloaded Hstill.
    apply (getTargets_stale selector w w1); [done | done | done |].
    exact (cache_kept_setState stateId w1).
  - apply destroy_clears.
  - intros -> anim time body <-. by apply with_progress_no_targets.
Qed.

(** ** Durations *)

(** The iteration count of the code is the effective one. *)
Lemma iterations_of_effective (l : Leaf) :
  iterations_of l = effective_iterations (repeat l).
Proof.
  unfold iterations_of, effective_iterations, whole_or_one, Num.or_else,
    Num.truthy.
  destruct (repeat l) as [n|text|].
  - destruct (n =? infinity)%float; [reflexivity|].
    by destruct (is_nan _ || is_zero _).
  - destruct (String.eqb text "infinite"); [reflexivity|].
    by destruct (is_nan _ || is_zero _).
  - by destruct (is_nan _ || is_zero _).
Qed.

(** Taking 0 away changes no double. *)
Lemma sub_zero (x : float) : (x - 0 = x)%float.
Proof.
  apply Prim2SF_inj. rewrite FloatAxioms.sub_spec.
  change (Prim2SF 0) with (S754_zero false).
  destruct (Prim2SF x) as [[]|[]| |]; reflexivity.
Qed.

Lemma group_loop_spec (kind : GroupType) (kids : list Animation) :
  Forall (fun kid => forall maxEnd,
            calcAnimDuration kid maxEnd
            = (aggregate kid,
               fold_left Num.Math_max (map leaf_end (leaves kid)) maxEnd))
         kids ->
  forall seqDuration maxEnd,
    group_loop calcAnimDuration kind kids seqDuration maxEnd
    = (fold_left (match kind with
                  | sequence => add
                  | _ => Num.Math_max
                  end) (map aggregate kids) seqDuration,
       fold_left Num.Math_max (map leaf_end (flat_map leaves kids)) maxEnd).
Proof.
  induction 1 as [|kid kids Hkid _ IH]; intros seqDuration maxEnd; simpl.
  - reflexivity.
  - rewrite Hkid, IH, map_app, fold_left_app. by destruct kind.
Qed.

Lemma calcAnimDuration_spec (anim : Animation) (maxEnd : float) :
  calcAnimDuration anim maxEnd
  = (aggregate anim,
     fold_left Num.Math_max (map leaf_end (leaves anim)) maxEnd).
Proof.
  revert maxEnd.
  induction anim as [l|g kids IH] using Animation_tree_ind; intros maxEnd.
  - simpl. unfold leaf_end. by rewrite iterations_of_effective.
  - simpl. rewrite (group_loop_spec _ _ IH). by destruct (group_type g).
Qed.

Lemma timeline_maxEnd_spec (timeline : list Animation) (maxEnd : float) :
  timeline_maxEnd timeline maxEnd
  = fold_left Num.Math_max (map leaf_end (flat_map leaves timeline)) maxEnd.
Proof.
  revert maxEnd. induction timeline as [|anim rest IH]; intros maxEnd; simpl.
  - reflexivity.
  - by rewrite calcAnimDuration_spec, IH, map_app, fold_left_app.
Qed.

Lemma sequence_loop_spec (parse : Element -> float -> option Animation)
    (kids : list Element) (currentStart : float) :
  (sequence_loop parse kids currentStart).2
  = fold_left add (map anim_duration (sequence_loop parse kids currentStart).1)
              currentStart.
Proof.
  revert currentStart.
  induction kids as [|child rest IH]; intros currentStart; simpl.
  - reflexivity.
  - destruct (parse child currentStart) as [anim|]; [|apply IH].
    specialize (IH (currentStart + anim_duration anim)).
    destruct (sequence_loop parse rest _) as [animations final]. exact IH.
Qed.

Lemma parallel_loop_spec (parse : Element -> float -> option Animation)
    (parentStart : float) (target : option (option string))
    (kids : list Element) (maxDuration : float) :
  (parallel_loop parse parentStart target kids maxDuration).2
  = fold_left Num.Math_max
      (map anim_duration
           (parallel_loop parse parentStart target kids maxDuration).1)
      maxDuration.
Proof.
  revert maxDuration.
  induction kids as [|child rest IH]; intros maxDuration; simpl.
  - reflexivity.
  - destruct (parse child parentStart) as [anim|]; [|apply IH].
    match goal with
    | |- context [parallel_loop _ _ _ _ ?m] => specialize (IH m)
    end.
    destruct (parallel_loop parse parentStart target rest _)
      as [animations final]. exact IH.
Qed.

(** ** Easing *)

Lemma newton_iterates (fuel : nat) (a b c t x : float) :
  exists k : nat,
    (k <= fuel)%nat
    /\ newton fuel a b c t x = Nat.iter k (newton_step a b c t) x
    /\ (k = fuel
        \/ converged a b c t (Nat.iter k (newton_step a b c t) x) = true
        \/ flat a b c (Nat.iter k (newton_step a b c t) x) = true)
    /\ forall j : nat,
         (j < k)%nat ->
         converged a b c t (Nat.iter j (newton_step a b c t) x) = false
         /\ flat a b c (Nat.iter j (newton_step a b c t) x) = false.
Proof.
  revert x. induction fuel as [|fuel IH]; intros x.
  - exists O. split_and!; [lia | done | by left | intros j Hj; lia].
  - simpl. fold (sampleCurve a b c x) (curveSlope a b c x).
    fold (converged a b c t x) (flat a b c x).
    destruct (converged a b c t x) eqn:Hconv.
    { exists O. split_and!; [lia | done | by right; left | intros j Hj; lia]. }
    destruct (flat a b c x) eqn:Hflat.
    { exists O. split_and!; [lia | done | by right; right | intros j Hj; lia]. }
    fold (newton_step a b c t x).
    destruct (IH (newton_step a b c t x)) as (k & Hk & Hrun & Hstop & Hbefore).
    exists (S k). rewrite !Nat.iter_succ_r. split_and!.
    + lia.
    + exact Hrun.
    + destruct Hstop as [->|Hstop]; [by left | by right].
    + intros [|j] Hj; [by split|].
      rewrite Nat.iter_succ_r. apply Hbefore. lia.
Qed.

(** C7.  [cubicBezier] solves for the parameter whose X coordinate is the
    input fraction by Newton-Raphson iteration seeded at [t]: the
    parameter it uses is the [k]-th iterate for some [k] of at most 4, the
    iteration having stopped there because 4 steps were made, or because
    [|sampleCurveX(x) - t| < 0.001], or because the magnitude of the slope
    is below [0.00001], and at no earlier iterate did either test hold;
    the value returned is the Y cubic at that parameter.  For the control
    points (0.25, 0.1, 0.25, 1) the value at 0 is exactly 0 and the value
    at 1 is exactly 1. *)
Theorem cubicBezier_is_newton (x1 y1 x2 y2 t : float) :
  let cx := 3 * x1 in
  let bx := 3 * (x2 - x1) - cx in
  let ax := 1 - cx - bx in
  let cy := 3 * y1 in
  let b_y := 3 * (y2 - y1) - cy in
  let ay := 1 - cy - b_y in
  (exists k : nat,
     (k <= 4)%nat
     /\ let x := Nat.iter k (newton_step ax bx cx t) t in
        cubicBezier x1 y1 x2 y2 t = sampleCurve ay b_y cy x
        /\ (k = 4%nat
            \/ converged ax bx cx t x = true
            \/ flat ax bx cx x = true)
        /\ forall j : nat,
             (j < k)%nat ->
             converged ax bx cx t (Nat.iter j (newton_step ax bx cx t) t)
             = false
             /\ flat ax bx cx (Nat.iter j (newton_step ax bx cx t) t) = false)
  /\ cubicBezier 0.25 0.1 0.25 1 0 = 0
  /\ cubicBezier 0.25 0.1 0.25 1 1 = 1.
Proof.
  intros cx bx ax cy b_y ay. split; [|split; reflexivity].
  destruct (newton_iterates 4 ax bx cx t t)
    as (k & Hk & Hrun & Hstop & Hbefore).
  exists k. split; [exact Hk|]. cbv zeta. split_and!.
  - unfold cubicBezier. fold cx bx ax cy b_y ay. by rewrite Hrun.
  - exact Hstop.
  - exact Hbefore.
Qed.

(** An easing that is neither a property of [easings], own or inherited,
    nor a cubic-bezier form falls back to the identity. *)
Lemma applyEasing_fallback (t : float) (easing : string) :
  own_easing easing = None ->
  inherited_easing easing t = None ->
  bezierMatch easing = None ->
  applyEasing t easing = Normal (JNumber t).
Proof.
  intros Hown Hinherited Hbezier. unfold applyEasing.
  by rewrite Hown, Hinherited, Hbezier.
Qed.

(** C10, on the names that the [easings] object inherits.  [__proto__] is
    neither a named curve nor a cubic-bezier form, and easing with it
    throws a TypeError at every [t]; [toString] and [valueOf] are no
    curves either, and easing with them yields the text
    [[object Object]] and the [easings] object instead of [t]. *)
Theorem applyEasing_inherited_names (t : float) :
  (own_easing "__proto__" = None /\ bezierMatch "__proto__" = None
   /\ applyEasing t "__proto__"
      = Throw (TypeError "easings[easing] is not a function"))
  /\ (own_easing "toString" = None /\ bezierMatch "toString" = None
      /\ applyEasing t "toString" = Normal (JString "[object Object]"))
  /\ (own_easing "valueOf" = None /\ bezierMatch "valueOf" = None
      /\ applyEasing t "valueOf" = Normal JEasings)
  /\ ~ falls_back_to_identity "__proto__"
  /\ ~ falls_back_to_identity "toString".
Proof.
  split_and!; try reflexivity.
  - intros H. specialize (H eq_refl eq_refl t). discriminate H.
  - intros H. specialize (H eq_refl eq_refl t). discriminate H.
Qed.

(** ** A leaf of duration zero at its start *)

Lemma above_nan (r : float) : (r <=? nan) = false.
Proof.
  rewrite FloatAxioms.leb_spec. change (Prim2SF nan) with S754_nan.
  by destruct (Prim2SF r) as [s|s| |s m e].
Qed.

(** Sampled exactly at its start, a leaf of duration zero has the
    progress NaN, which is neither below 0 nor above 1. *)
Lemma zero_duration_at_start (anim : Leaf) (time : float) :
  duration anim = 0 ->
  time - start anim = 0 ->
  calculateProgress anim time = nan
  /\ (calculateProgress anim time <? 0) || (1 <? calculateProgress anim time)
     = false.
Proof.
  intros Hzero Hstart.
  assert (calculateProgress anim time = nan) as ->; [|by split].
  unfold calculateProgress. rewrite Hzero, Hstart.
  change (0 <? 0) with false. cbv iota.
  change (Num.Math_floor (0 / 0)) with nan. rewrite above_nan.
  by destruct (reverse anim).
Qed.

(** * Further properties of the code *)

(** ** Times *)

Lemma append_nil (s : string) : s ++ "" = s.
Proof.
  induction s as [|c s IH]; [reflexivity|].
  change (String c (s ++ "") = String c s). by rewrite IH.
Qed.

Lemma span_app (p : ascii -> bool) (a rest : string) :
  Text.forallb p a = true ->
  starts_outside p rest = true ->
  Text.span p (a ++ rest) = (a, rest).
Proof.
  intros Ha Hrest. induction a as [|c a IH]; simpl in *.
  - destruct rest as [|c r]; [reflexivity|]. revert Hrest. simpl.
    by destruct (p c).
  - apply andb_prop in Ha as [Hc Ha]. by rewrite Hc, (IH Ha).
Qed.

Lemma match_time_app (n u : string) :
  Text.forallb Text.is_digit_or_dot n = true ->
  starts_outside Text.is_digit_or_dot u = true ->
  match_time (n ++ u)
  = if String.eqb n "" then None
    else if String.eqb u "" then Some (n, None)
    else if String.eqb u "ms" || String.eqb u "s" || String.eqb u "m"
    then Some (n, Some u) else None.
Proof.
  intros Hn Hu. unfold match_time, Text.digits_group.
  rewrite (span_app _ _ _ Hn Hu). by destruct (String.eqb n "").
Qed.

(** X1.  [parseTime] on a number, that is a non-empty run of digits and
    dots, followed by a unit: seconds are the default, [ms] divides what
    [parseFloat] reads by 1000 and [m] multiplies it by 60. *)
Theorem parseTime_units (n : string) :
  n <> "" ->
  Text.forallb Text.is_digit_or_dot n = true ->
  parseTime n = parseFloat n
  /\ parseTime (n ++ "s") = parseFloat n
  /\ parseTime (n ++ "ms") = parseFloat n / 1000
  /\ parseTime (n ++ "m") = parseFloat n * 60.
Proof.
  intros Hne Hn.
  assert (String.eqb n "" = false) as Hn0 by by apply String.eqb_neq.
  assert (forall u, String.eqb (n ++ u) "" = false) as Hnu.
  { intros u. apply String.eqb_neq. destruct n; [done | discriminate]. }
  split_and!.
  - rewrite <- (append_nil n) at 1. unfold parseTime.
    by rewrite Hnu, (match_time_app n "" Hn eq_refl), Hn0.
  - unfold parseTime. by rewrite Hnu, (match_time_app n "s" Hn eq_refl), Hn0.
  - unfold parseTime. by rewrite Hnu, (match_time_app n "ms" Hn eq_refl), Hn0.
  - unfold parseTime. by rewrite Hnu, (match_time_app n "m" Hn eq_refl), Hn0.
Qed.

(** X2.  [parseTime] answers 0, and raises nothing, on every text that
    the pattern refuses.  The text is cut where its leading run [n] of
    digits and dots stops: it is refused when that run is empty (a sign,
    a blank or a letter comes first) and when what follows is neither
    nothing nor one of [ms], [s] and [m]. *)
Theorem parseTime_rejects (n u : string) :
  Text.forallb Text.is_digit_or_dot n = true ->
  starts_outside Text.is_digit_or_dot u = true ->
  n = "" \/ (u <> "" /\ u <> "ms" /\ u <> "s" /\ u <> "m") ->
  parseTime (n ++ u) = 0.
Proof.
  intros Hn Hu Hbad. unfold parseTime.
  destruct (String.eqb (n ++ u) ""); [reflexivity|].
  rewrite (match_time_app n u Hn Hu).
  destruct Hbad as [->|(H0 & Hms & Hs & Hm)]; [reflexivity|].
  apply String.eqb_neq in H0, Hms, Hs, Hm. rewrite H0, Hms, Hs, Hm.
  by destruct (String.eqb n "").
Qed.

(** ** Sampling a tree *)

Lemma bind_ext {A B} (m : M A) (k k' : A -> M B) (w : World) :
  (forall a w', k a w' = k' a w') -> (m ≫= k) w = (m ≫= k') w.
Proof.
  intros Hk. unfold mbind, M_bind, bind.
  destruct (m w) as [w' [a|e]]; [apply Hk | reflexivity].
Qed.

Lemma bind_run {A B} (m : M A) (k : A -> M B) (w : World) :
  (m ≫= k) w
  = match m w with
    | (w', Normal a) => k a w'
    | (w', Throw e) => (w', Throw e)
    end.
Proof. reflexivity. Qed.

Lemma lift_run {A} (c : Completion A) (w : World) : lift c w = (w, c).
Proof. reflexivity. Qed.

Lemma gets_run {A} (f : Engine -> A) (w : World) :
  gets f w = (w, Normal (f (this w))).
Proof. reflexivity. Qed.

Lemma forEach_cons {A} (f : A -> M unit) (x : A) (l : list A) :
  forEach f (x :: l) = (f x;; forEach f l).
Proof. reflexivity. Qed.

Lemma forEach_app {A} (f : A -> M unit) (l1 l2 : list A) (w : World) :
  forEach f (l1 ++ l2)%list w = (forEach f l1;; forEach f l2) w.
Proof.
  revert w. induction l1 as [|x l1 IH]; intros w; simpl.
  - reflexivity.
  - unfold mbind, M_bind, bind in *. destruct (f x w) as [w' [[]|e]]; [|done].
    apply IH.
Qed.

Lemma forEach_ext {A} (f g : A -> M unit) (l : list A) :
  Forall (fun x => forall w, f x w = g x w) l ->
  forall w, forEach f l w = forEach g l w.
Proof.
  induction 1 as [|x l Hx _ IH]; intros w; simpl; [reflexivity|].
  unfold mbind, M_bind, bind. rewrite Hx.
  destruct (g x w) as [w' [[]|e]]; [apply IH | reflexivity].
Qed.

Lemma forEach_flat_map {A B} (u : B -> M unit) (f : A -> list B)
    (l : list A) (w : World) :
  forEach (fun x => forEach u (f x)) l w = forEach u (flat_map f l) w.
Proof.
  revert w. induction l as [|x l IH]; intros w; simpl; [reflexivity|].
  rewrite forEach_app. apply bind_ext. intros _ w'. apply IH.
Qed.

Lemma updateAnim_leaves (time : float) (anim : Animation) (parentTime : float)
    (w : World) :
  updateAnim time anim parentTime w
  = forEach (fun l => update_leaf l (time - parentTime)) (leaves anim) w.
Proof.
  revert w. induction anim as [l|g kids IH] using Animation_tree_ind;
    intros w; simpl.
  - unfold mbind, M_bind, bind.
    by destruct (update_leaf l (time - parentTime) w) as [w' [[]|e]].
  - rewrite <- forEach_flat_map. by apply forEach_ext.
Qed.

Lemma updateAnimations_leaves (time : float) (w : World) :
  updateAnimations time w
  = match timeline (this w), svgContent (this w) with
    | Some timeline, Some _ =>
        forEach (fun l => update_leaf l (time - 0)) (flat_map leaves timeline) w
    | _, _ => (w, Normal tt)
    end.
Proof.
  unfold updateAnimations, mbind, M_bind, bind, gets. simpl.
  destruct (timeline (this w)) as [timeline|]; [|reflexivity].
  destruct (svgContent (this w)) as [root|]; [|reflexivity].
  rewrite <- forEach_flat_map. apply forEach_ext, Forall_forall.
  intros anim _ w'. apply updateAnim_leaves.
Qed.

(** X3.  Sampling flattens the tree.  [updateAnim] on a node does what
    the updates of its leaves do, taken in document order and all at the
    same time [time - parentTime]; the kind of a group, its [repeat], its
    [target] and its [duration] play no part.  [updateAnimations] does
    nothing unless both a timeline and an SVG content are there, and
    otherwise samples the leaves of the whole timeline at [time - 0]. *)
Theorem sampling_flattens_the_tree (time : float) (w : World) :
  (forall anim parentTime,
     updateAnim time anim parentTime w
     = forEach (fun l => update_leaf l (time - parentTime)) (leaves anim) w)
  /\ updateAnimations time w
     = match timeline (this w), svgContent (this w) with
       | Some timeline, Some _ =>
           forEach (fun l => update_leaf l (time - 0))
                   (flat_map leaves timeline) w
       | _, _ => (w, Normal tt)
       end.
Proof.
  split.
  - intros anim parentTime. apply updateAnim_leaves.
  - apply updateAnimations_leaves.
Qed.

Lemma update_leaf_untargeted (l : Leaf) (time : float) (w : World) :
  Text.truthy (target l) = None ->
  update_leaf l time w = (w, Normal tt).
Proof.
  intros Hnone. unfold update_leaf.
  destruct (type l);
    unfold updateAnimate, updateAnimateTransform, updateAnimatePath,
      updateAnimateColor, updateMorph, with_progress, getTargets,
      mbind, M_bind, bind, gets, ret;
    simpl; by rewrite Hnone.
Qed.

(** X4.  A leaf without a target, or with an empty one, is skipped by
    the update of every kind of leaf and by [updateAnimations]: nothing
    is resolved, cached, computed or written, and nothing is raised, not
    even for a leaf that lacks every other attribute. *)
Theorem untargeted_leaf_is_skipped (l : Leaf) (time : float) (w : World) :
  Text.truthy (target l) = None ->
  update_leaf l time w = (w, Normal tt)
  /\ forall root,
       timeline (this w) = Some [ALeaf l] ->
       svgContent (this w) = Some root ->
       updateAnimations time w = (w, Normal tt).
Proof.
  intros Hnone. split; [by apply update_leaf_untargeted|].
  intros root Htimeline Hcontent.
  rewrite updateAnimations_leaves, Htimeline, Hcontent. simpl.
  rewrite bind_run. by rewrite (update_leaf_untargeted l _ w Hnone).
Qed.

(** ** Sets *)

(** The children that the loop of a set keeps are the children that
    [parse] accepts, in order, each with the target of the set. *)
Lemma parallel_loop_children (parse : Element -> float -> option Animation)
    (parentStart : float) (t : option string) (kids : list Element)
    (maxDuration : float) :
  (parallel_loop parse parentStart (Some t) kids maxDuration).1
  = map (set_target t) (omap (fun child => parse child parentStart) kids).
Proof.
  revert maxDuration. induction kids as [|child rest IH]; intros maxDuration;
    simpl; [reflexivity|].
  destruct (parse child parentStart) as [anim|]; [|apply IH].
  match goal with
  | |- context [parallel_loop _ _ _ _ ?m] => specialize (IH m)
  end.
  destruct (parallel_loop parse parentStart (Some t) rest _)
    as [animations final]. simpl in *. by rewrite IH.
Qed.

(** X5.  [parseAnimateSet] overrides the target of each of its children
    with its own [target] attribute, [null] when the set has none,
    whatever the child declared.  Only the children themselves are
    touched: the children of the set are what [parseAnimation] makes of
    the child elements, in order, and each is as it was parsed but for
    its own target; below a child that is a group the nodes are those
    that were parsed, so the leaves there keep their targets.  A leaf
    that is a child of a set without a target is never written: its
    update does nothing. *)
Theorem animate_set_overrides_targets (el : Element) (parentStart : float) :
  Forall (fun a => anim_target a = getAttribute el "target")
         (group_children (parseAnimateSet el parentStart))
  /\ Forall2 same_but_target
       (omap (fun child => parseAnimation child parentStart) (children el))
       (group_children (parseAnimateSet el parentStart))
  /\ (forall child g kids,
        child ∈ children el ->
        parseAnimation child parentStart = Some (AGroup g kids) ->
        exists g',
          AGroup g' kids ∈ group_children (parseAnimateSet el parentStart))
  /\ (Text.truthy (getAttribute el "target") = None ->
      forall l time w,
        ALeaf l ∈ group_children (parseAnimateSet el parentStart) ->
        update_leaf l time w = (w, Normal tt)).
Proof.
  assert (group_children (parseAnimateSet el parentStart)
          = map (set_target (getAttribute el "target"))
              (omap (fun child => parseAnimation child parentStart)
                    (children el))) as Hkept.
  { unfold parseAnimateSet, animate_set_of.
    pose proof (parallel_loop_children parseAnimation parentStart
                  (getAttribute el "target") (children el) 0) as H.
    by destruct (parallel_loop parseAnimation parentStart _ (children el) _). }
  assert (Forall (fun a => anim_target a = getAttribute el "target")
                 (group_children (parseAnimateSet el parentStart))) as Hall.
  { rewrite Hkept. apply Forall_fmap, Forall_true. by intros []. }
  split_and!; [exact Hall | | |].
  - rewrite Hkept. apply Forall2_fmap_r, Forall_Forall2_diag, Forall_true.
    intros [l|g kids]; simpl; [reflexivity | by split_and!].
  - intros child g kids Hin Hparsed. eexists. rewrite Hkept.
    apply (list_elem_of_fmap_2 (set_target (getAttribute el "target")) _
             (AGroup g kids)).
    apply list_elem_of_omap. by exists child.
  - intros Hnone l time w Hin.
    rewrite Forall_forall in Hall. specialize (Hall _ Hin). simpl in Hall.
    apply update_leaf_untargeted. by rewrite Hall.
Qed.

(** ** Leaves that never finish *)

Lemma nan_not_below (r x : float) : is_nan r = true -> (r <=? x) = false.
Proof.
  unfold is_nan. rewrite FloatAxioms.eqb_spec, FloatAxioms.leb_spec.
  destruct (Prim2SF r) as [s|s| |s m e]; simpl.
  - discriminate.
  - by destruct s.
  - reflexivity.
  - unfold SFeqb, SFcompare.
    destruct s; rewrite Z.compare_refl, Pos.compare_cont_refl; discriminate.
Qed.

(** X6.  A leaf whose [repeat] is not a number never finishes: the test
    [iterations >= anim.repeat] fails at every time, so from its start on
    the progress is that of the running iteration, wrapping around every
    [duration] seconds for as long as the timeline is sampled.  This is
    so of every leaf parsed by [parseAnimatePath], [parseAnimateColor]
    and [parseMorph], which store no [repeat] at all. *)
Theorem leaf_without_repeat_count_never_finishes :
  (forall (l : Leaf) (time : float),
     is_nan (repeat_number (repeat l)) = true ->
     ~ finished l time
     /\ calculateProgress l time
        = if time - start l <? 0 then (-1)
          else
            let progress :=
              Num.rem (time - start l) (duration l) / duration l in
            if reverse l
               && (Num.rem (Num.Math_floor ((time - start l) / duration l)) 2
                   =? 1)
            then 1 - progress else progress)
  /\ forall (el : Element) (parentStart : float),
       is_nan (repeat_number (repeat (parseAnimatePath el parentStart))) = true
       /\ is_nan (repeat_number (repeat (parseAnimateColor el parentStart)))
          = true
       /\ is_nan (repeat_number (repeat (parseMorph el parentStart))) = true.
Proof.
  split; [|by intros el parentStart].
  intros l time Hnan. split.
  - intros [_ Hdone]. by rewrite (nan_not_below _ _ Hnan) in Hdone.
  - unfold calculateProgress. by rewrite (nan_not_below _ _ Hnan).
Qed.

(** ** Properties that are stored and never read *)

(** X7.  The properties [by], [fill], [id], [anchor], [colorSpace] and
    [preserveCorners] of a leaf are stored by the parsers and read by
    nothing: whatever they hold, the update of the leaf, its progress and
    its share in the total duration are the same. *)
Theorem unread_properties (by' fill' id' anchor' colorSpace' : option string)
    (preserveCorners' : bool) (l : Leaf) (time : float) (w : World) :
  let l' := with_unread by' fill' id' anchor' colorSpace' preserveCorners' l in
  update_leaf l' time w = update_leaf l time w
  /\ calculateProgress l' time = calculateProgress l time
  /\ forall maxEnd,
       calcAnimDuration (ALeaf l') maxEnd = calcAnimDuration (ALeaf l) maxEnd.
Proof. split_and!; reflexivity. Qed.

(** ** Relations that the methods preserve

    A method is taken apart into its steps; what is left to show of a
    relation [R] is that the steps which are not composed of others
    preserve it, which [step] settles. *)

Ltac keep_with R step :=
  repeat (cbv zeta;
    lazymatch goal with
    | |- preserves _ (ret _) => apply (preserves_ret R)
    | |- preserves _ (lift _) => apply (preserves_lift R)
    | |- preserves _ (gets _) => apply (preserves_gets R)
    | |- preserves _ (node_getAttribute _ _) => apply (preserves_getAttribute R)
    | |- preserves _ (node_querySelectorAll _ _) =>
        apply (preserves_querySelectorAll R)
    | |- preserves _ (node_querySelector _ _) =>
        apply (preserves_querySelector R)
    | |- preserves _ (_ ≫= _) => apply (preserves_bind R); [|intros ?]
    | |- preserves _ (forEach _ _) => apply (preserves_forEach R); intros ?
    | |- preserves _ (match ?x with _ => _ end) => destruct x
    | |- preserves _ (modify _) => step
    | |- preserves _ (emit _ _) => step
    | |- preserves _ performance_now => step
    | |- preserves _ (cloneNode _) => step
    | |- preserves _ (addEventListener _) => step
    | |- preserves _ (node_setAttribute _ _ _) => step
    | |- preserves _ requestAnimationFrame => step
    | |- preserves _ (cancelAnimationFrame _) => step
    end).

(** ** The end of the timeline *)

(** X9.  When a tick of a playing engine finds that the elapsed time has
    reached the duration and the loop option is off, playback ends: the
    current time is set to the duration exactly, the engine is paused
    (the [pause] event, then the [end] event), the call completes, and
    no frame is requested.  The timeline is not sampled at the end time:
    the documents and the target cache stay as the previous sample left
    them. *)
Theorem playback_ends_without_a_last_sample (w : World) :
  State.playing (state (this w)) = true ->
  (State.duration (state (this w)) <=? tick_elapsed w) = true ->
  Options.loop (options (this w)) = false ->
  let w' := (animate w).1 in
  (animate w).2 = Normal tt
  /\ State.currentTime (state (this w')) = State.duration (state (this w))
  /\ State.playing (state (this w')) = false
  /\ _animationFrame (this w') = None
  /\ frames w'
     = match _animationFrame (this w) with
       | Some handle => filter (fun h => h <> handle) (frames w)
       | None => frames w
       end
  /\ dispatched w'
     = (dispatched w ++ [{| event_type := "pause"; detail := NoDetail |};
                         {| event_type := "end"; detail := NoDetail |}])%list
  /\ documents w' = documents w
  /\ targetCache (this w') = targetCache (this w).
Proof.
  intros Hplaying Hend Hloop.
  unfold animate, pause, mbind, M_bind, bind, gets, modify_state, modify,
    performance_now, emit, cancelAnimationFrame, ret.
  simpl. rewrite Hplaying. simpl. fold (tick_elapsed w). rewrite Hend, Hloop.
  simpl. rewrite Hplaying. simpl.
  destruct (_animationFrame (this w)) eqn:Hframe; simpl;
    rewrite <- ?app_assoc, ?Hframe; by repeat split.
Qed.

(** A tick that goes on: what [animate] does around the sample. *)
Lemma animate_unfold (w : World) :
  State.playing (state (this w)) = true ->
  Options.loop (options (this w)) = true
  \/ (State.duration (state (this w)) <=? tick_elapsed w) = false ->
  animate w
  = match updateAnimations
            (State.currentTime (state (this (tick_sampling w))))
            (tick_sampling w) with
    | (w2, Normal _) =>
        (set_this
           (set_animationFrame (Some (S (last_frame w2))) (this w2))
           (set_frames (frames w2 ++ [S (last_frame w2)])%list
              (S (last_frame w2))
              (set_dispatched
                 (dispatched w2
                  ++ [{| event_type := "update";
                         detail :=
                           TimeDetail
                             (State.currentTime
                                (state (this (tick_sampling w)))) |}])%list
                 w2)),
         Normal tt)
    | (w2, Throw e) => (w2, Throw e)
    end.
Proof.
  intros Hplaying Hon.
  unfold animate, tick_sampling, mbind, M_bind, bind, gets, modify_state,
    modify, performance_now, emit, requestAnimationFrame, ret.
  simpl. rewrite Hplaying. simpl. fold (tick_elapsed w).
  destruct (State.duration (state (this w)) <=? tick_elapsed w) eqn:Hend;
    simpl.
  - destruct Hon as [->|?]; [reflexivity | discriminate].
  - reflexivity.
Qed.

(** X10.  When the elapsed time has reached the duration and the loop
    option is on, the tick starts over: the current time becomes 0,
    whatever the overshoot was, the clock origin becomes the instant of
    the tick, and the timeline is sampled at 0.  If that sample
    completes, an [update] event carrying the time 0 is dispatched, a new
    frame is requested and the engine goes on playing. *)
Theorem playback_loops_from_zero (w : World) :
  State.playing (state (this w)) = true ->
  (State.duration (state (this w)) <=? tick_elapsed w) = true ->
  Options.loop (options (this w)) = true ->
  let w' := (animate w).1 in
  State.currentTime (state (this w')) = 0
  /\ _startTime (this w') = clock w (clock_reads w)
  /\ State.playing (state (this w')) = true
  /\ documents w' = documents (updateAnimations 0 (tick_sampling w)).1
  /\ ((updateAnimations 0 (tick_sampling w)).2 = Normal tt ->
      (animate w).2 = Normal tt
      /\ dispatched w'
         = (dispatched w
            ++ [{| event_type := "update"; detail := TimeDetail 0 |}])%list
      /\ frames w' = (frames w ++ [S (last_frame w)])%list
      /\ _animationFrame (this w') = Some (S (last_frame w))).
Proof.
  intros Hplaying Hend Hloop. cbv zeta.
  rewrite (animate_unfold w Hplaying (or_introl Hloop)).
  assert (tick_sampling w
          = set_this (set_startTime (clock w (clock_reads w))
                        (set_state (State.set_currentTime 0 (state (this w)))
                                   (this w)))
                     (set_clock_reads (S (clock_reads w)) w)) as Hworld
    by (unfold tick_sampling; by rewrite Hend).
  assert (State.currentTime (state (this (tick_sampling w))) = 0) as ->
    by by rewrite Hworld.
  pose proof (sampled_updateAnimations 0 (tick_sampling w)) as [Hrest _].
  destruct (updateAnimations 0 (tick_sampling w)) as [w2 [[]|e2]];
    simpl in *; unfold untouched_by_sampling in Hrest; rewrite Hworld in Hrest;
    simpl in Hrest;
    injection Hrest as _ Es _ _ _ _ _ _ _ Est _ Ed Efr El _ _;
    rewrite ?Es, ?Est, ?Ed, ?Efr, ?El; simpl; rewrite ?Hplaying;
    by repeat split.
Qed.

(** ** Seeking *)

(** *** The order of doubles, from their specification *)

Lemma SFcompare_antisym (x y : spec_float) :
  SFcompare y x = option_map CompOpp (SFcompare x y).
Proof.
  destruct x as [s|s| |s m e], y as [s'|s'| |s' m' e']; simpl;
    try reflexivity; try (by destruct s); try (by destruct s');
    try (by destruct s, s').
  pose proof (Pos.compare_cont_antisym m m' Eq) as Hm. simpl in Hm.
  destruct s, s'; try reflexivity;
    rewrite (Z.compare_antisym e e'); destruct (e ?= e')%Z; simpl;
    try reflexivity; by rewrite <- Hm, ?CompOpp_involutive.
Qed.

Lemma SFcompare_refl (x : spec_float) :
  SFcompare x x = match x with S754_nan => None | _ => Some Eq end.
Proof.
  destruct x as [s|s| |s m e]; simpl; try reflexivity; [by destruct s|].
  by destruct s; rewrite Z.compare_refl, Pos.compare_cont_refl.
Qed.

Lemma is_nan_false (a : float) :
  is_nan a = false -> Prim2SF a <> S754_nan.
Proof.
  unfold is_nan. rewrite FloatAxioms.eqb_spec. intros H E.
  rewrite E in H. discriminate H.
Qed.

Lemma compare_numbers (a b : float) :
  is_nan a = false -> is_nan b = false ->
  exists c, SFcompare (Prim2SF a) (Prim2SF b) = Some c.
Proof.
  intros Ha%is_nan_false Hb%is_nan_false.
  destruct (Prim2SF a) as [s|s| |s m e], (Prim2SF b) as [s'|s'| |s' m' e'];
    try done; simpl; eauto.
Qed.

Lemma ltb_leb (a b : float) : (a <? b) = true -> (a <=? b) = true.
Proof.
  rewrite FloatAxioms.ltb_spec, FloatAxioms.leb_spec. unfold SFltb, SFleb.
  by destruct (SFcompare _ _) as [[]|].
Qed.

Lemma not_ltb_leb (a b : float) :
  is_nan a = false -> is_nan b = false ->
  (a <? b) = false -> (b <=? a) = true.
Proof.
  intros Ha Hb. destruct (compare_numbers a b Ha Hb) as [c Hc].
  rewrite FloatAxioms.ltb_spec, FloatAxioms.leb_spec. unfold SFltb, SFleb.
  rewrite (SFcompare_antisym (Prim2SF a)), Hc. by destruct c.
Qed.

Lemma leb_refl (a : float) : is_nan a = false -> (a <=? a) = true.
Proof.
  intros Ha%is_nan_false. rewrite FloatAxioms.leb_spec. unfold SFleb.
  rewrite SFcompare_refl. by destruct (Prim2SF a).
Qed.

Lemma Math_min_below (t d : float) :
  is_nan t = false -> is_nan d = false ->
  is_nan (Num.Math_min t d) = false /\ (Num.Math_min t d <=? d) = true.
Proof.
  intros Ht Hd. unfold Num.Math_min. rewrite Ht, Hd. simpl.
  destruct (t <? d) eqn:Htd; [by split; [|apply ltb_leb]|].
  destruct (d <? t) eqn:Hdt; [by split; [|apply leb_refl]|].
  destruct (get_sign t); (split; [done|]);
    [by apply not_ltb_leb | by apply leb_refl].
Qed.

Lemma Math_max_zero_between (m d : float) :
  is_nan m = false -> (m <=? d) = true -> (0 <=? d) = true ->
  (0 <=? Num.Math_max 0 m) = true /\ (Num.Math_max 0 m <=? d) = true.
Proof.
  intros Hm Hmd Hd. unfold Num.Math_max. rewrite Hm.
  change (is_nan 0) with false. change (get_sign 0) with false. simpl.
  destruct (0 <? m) eqn:H0m; [by split; [apply ltb_leb|]|].
  by destruct (m <? 0).
Qed.

Lemma Math_max_nan (m : float) :
  is_nan m = true -> is_nan (Num.Math_max 0 m) = true.
Proof. intros Hm. unfold Num.Math_max. by rewrite Hm. Qed.

Lemma Math_min_nan (t d : float) :
  is_nan t = true -> is_nan (Num.Math_min t d) = true.
Proof. intros Ht. unfold Num.Math_min. by rewrite Ht. Qed.

Lemma seek_currentTime (time : float) (w : World) :
  State.currentTime (state (this (seek time w).1))
  = Num.Math_max 0 (Num.Math_min time (State.duration (state (this w)))).
Proof.
  rewrite seek_unfold. cbv zeta. set (t := Num.Math_max 0 _).
  pose proof (sampled_updateAnimations t (seek_anchored time w)) as [Hrest _].
  unfold untouched_by_sampling in Hrest.
  destruct (updateAnimations t (seek_anchored time w)) as [w2 [[]|e]];
    simpl in *; injection Hrest as _ Es _ _ _ _ _ _ _ _ _ _ _ _ _ _;
    by rewrite Es.
Qed.

(** X11.  [seek] clamps.  When the duration is a number that is not
    negative, seeking to any time that is a number leaves a current time
    between 0 and the duration, both included, whether or not the sample
    completes; seeking to NaN leaves the current time NaN. *)
Theorem seek_clamps_the_time (time : float) (w : World) :
  is_nan (State.duration (state (this w))) = false ->
  (0 <=? State.duration (state (this w))) = true ->
  let t' := State.currentTime (state (this (seek time w).1)) in
  if is_nan time then is_nan t' = true
  else (0 <=? t') = true /\ (t' <=? State.duration (state (this w))) = true.
Proof.
  intros Hd Hpos. cbv zeta. rewrite seek_currentTime.
  destruct (is_nan time) eqn:Ht.
  - by apply Math_max_nan, Math_min_nan.
  - destruct (Math_min_below _ _ Ht Hd) as [Hm Hmd].
    by apply Math_max_zero_between.
Qed.

(** ** Loading a document *)

#[local] Instance accumulated_preorder : PreOrder accumulated.
Proof.
  split.
  - intros w. by repeat split.
  - intros a b c (T1 & S1 & V1 & L1) (T2 & S2 & V2 & L2).
    repeat split; etrans; eassumption.
Qed.

#[local] Instance options_kept_preorder : PreOrder options_kept.
Proof.
  split; [by intros w | intros a b c]. unfold options_kept. congruence.
Qed.

Lemma accumulated_sampled (w w' : World) : sampled w w' -> accumulated w w'.
Proof.
  intros [E _]. unfold untouched_by_sampling in E.
  injection E as _ _ _ _ Ev Es Et _ _ _ El _ _ _ _ _.
  unfold accumulated. by rewrite Ev, Es, Et, El.
Qed.

Lemma options_kept_sampled (w w' : World) : sampled w w' -> options_kept w w'.
Proof.
  intros [E _]. unfold untouched_by_sampling in E.
  by injection E as Eo _ _ _ _ _ _ _ _ _ _ _ _ _ _ _.
Qed.

Ltac settle_accumulated :=
  intros ?; unfold accumulated, node_setAttribute; simpl;
  try destruct (valid_name _); simpl;
  split_and!;
  first [ reflexivity
        | by apply prefix_app_r
        | apply subseteq_dom, insert_subseteq_r; reflexivity
        | rewrite dom_insert; set_solver ].

(** X12.  Loading a document adds to what the engine holds and resets
    nothing: after [parseElement], whether it completes or raises, the
    triggers gathered so far are still there, in order and before the new
    ones, every state and every variable known by name is still known,
    and every installed listener is still installed. *)
Theorem loading_accumulates (element : Element) (w : World) :
  let w' := (parseElement element w).1 in
  triggers (this w) `prefix_of` triggers (this w')
  /\ dom (states (this w)) ⊆@{gset string} dom (states (this w'))
  /\ dom (variables (this w)) ⊆@{gset string} dom (variables (this w'))
  /\ listeners w `prefix_of` listeners w'.
Proof.
  cbv zeta. revert w.
  change (preserves accumulated (parseElement element)).
  unfold parseElement, source_querySelector, source_querySelectorAll,
    setupTriggers, play, animate, pause, modify_state.
  keep_with accumulated settle_accumulated;
    intros w; apply accumulated_sampled, sampled_updateAnimations.
Qed.

Ltac settle_options :=
  intros ?; unfold options_kept, node_setAttribute; simpl;
  try destruct (valid_name _); reflexivity.

(** X13.  The options of an engine are those of the last document
    loaded.  [parseElement] replaces all six of them by what the root
    element says, whatever they were before, the options given to the
    constructor included: the width and the height fall back to 800 and
    600 when the attribute is missing, unreadable or zero, the loop
    option is on only for the text [true], and autoplay is on unless the
    attribute is the text [false].  Nothing later in the load changes
    them, whether it completes or raises. *)
Theorem loading_overrides_the_options (element : Element) (w : World) :
  options (this (parseElement element w).1) = root_options element.
Proof.
  unfold parseElement.
  lazymatch goal with
  | |- context [(modify ?f ≫= ?k) w] =>
      change ((modify f ≫= k) w) with (k tt (set_this (f (this w)) w));
      assert (preserves options_kept (k tt)) as Hrest
  end.
  { cbv beta. unfold source_querySelector, source_querySelectorAll,
      setupTriggers, play, animate, pause, modify_state.
    keep_with options_kept settle_options;
      intros w'; apply options_kept_sampled, sampled_updateAnimations. }
  exact (Hrest _).
Qed.

(** ** Cleanup *)

Lemma stop_completes_without_timeline (w : World) :
  timeline (this w) = None -> (stop w).2 = Normal tt.
Proof.
  intros Hnone.
  unfold stop, mbind, M_bind, bind, modify_state, modify, emit.
  pose proof (pause_completes w) as Hp.
  assert (timeline (this (pause w).1) = timeline (this w)) as Ht.
  { unfold pause, mbind, M_bind, bind, gets, modify_state, modify, emit,
      cancelAnimationFrame, ret. simpl.
    destruct (State.playing (state (this w))); simpl; [|reflexivity].
    by destruct (_animationFrame (this w)). }
  destruct (pause w) as [w1 [[]|e]]; [|discriminate]. simpl in *.
  rewrite updateAnimations_leaves. simpl. by rewrite Ht, Hnone.
Qed.

#[local] Instance holdings_kept_preorder : PreOrder holdings_kept.
Proof.
  split.
  - intros w. by split.
  - intros a b c [H1 C1] [H2 C2]. split; [congruence | by etrans].
Qed.

Lemma holdings_kept_sampled (w w' : World) :
  sampled w w' -> holdings_kept w w'.
Proof.
  intros [E C]. split; [|exact C]. unfold untouched_by_sampling in E.
  injection E as _ _ Et Ec Ev Es Etr _ _ _ El _ _ _ _ _.
  unfold holdings. by rewrite Et, Ec, Ev, Es, Etr, El.
Qed.

Ltac settle_holdings :=
  intros ?; unfold holdings_kept, holdings, node_setAttribute; simpl;
  try destruct (valid_name _); by split.

Lemma holdings_kept_stop : preserves holdings_kept stop.
Proof.
  unfold stop, pause, modify_state.
  keep_with holdings_kept settle_holdings.
  intros w. apply holdings_kept_sampled, sampled_updateAnimations.
Qed.

Lemma pause_clears_playing (w : World) :
  State.playing (state (this (pause w).1)) = false.
Proof.
  unfold pause, mbind, M_bind, bind, gets, modify_state, modify, emit,
    cancelAnimationFrame, ret.
  simpl. destruct (State.playing (state (this w))) eqn:Hplaying; simpl;
    [|exact Hplaying].
  by destruct (_animationFrame (this w)).
Qed.

Lemma stop_rewinds (w : World) :
  State.playing (state (this (stop w).1)) = false
  /\ ((stop w).2 = Normal tt -> State.currentTime (state (this (stop w).1)) = 0).
Proof.
  pose proof (pause_clears_playing w) as Hplaying.
  pose proof (pause_completes w) as Hp.
  unfold stop, mbind, M_bind, bind, modify_state, modify, emit.
  destruct (pause w) as [w1 [[]|e]]; [|discriminate]. simpl in *.
  match goal with
  | |- context [updateAnimations ?t ?x] =>
      pose proof (sampled_updateAnimations t x) as [Hrest _];
      destruct (updateAnimations t x) as [w2 [[]|e2]]
  end; simpl in *; unfold untouched_by_sampling in Hrest;
    injection Hrest as _ Es _ _ _ _ _ _ _ _ _ _ _ _ _ _;
    rewrite Es; simpl; by rewrite Hplaying.
Qed.

Lemma destroy_unfold (w : World) :
  destroy w
  = match stop w with
    | (w1, Normal _) =>
        (set_this
           (set_svgContent None
              (set_timeline None
                 (set_triggers []
                    (set_states ∅
                       (set_variables ∅ (set_targetCache ∅ (this w1)))))))
           w1,
         Normal tt)
    | (w1, Throw e) => (w1, Throw e)
    end.
Proof.
  unfold destroy, mbind, M_bind, bind, modify.
  by destruct (stop w) as [w1 [[]|e]].
Qed.

Lemma destroy_completes_without_timeline (w : World) :
  timeline (this w) = None -> (destroy w).2 = Normal tt.
Proof.
  intros Hnone%stop_completes_without_timeline.
  unfold destroy, mbind, M_bind, bind, modify.
  by destruct (stop w) as [w1 [[]|e]].
Qed.

(** X14.  [destroy] releases everything, or nothing.  When it
    completes, the engine is stopped at time 0 and holds no timeline, no
    SVG content, no state, no variable, no trigger and no cached target,
    and a second [destroy] completes as well.  When the sample taken by
    its [stop] raises, [destroy] raises too and has released nothing: the
    timeline, the SVG content, the states, the variables and the triggers
    are as before, and so is every cached target.  The listeners stay
    installed either way. *)
Theorem destroy_releases_all_or_nothing (w : World) :
  let w' := (destroy w).1 in
  listeners w' = listeners w
  /\ State.playing (state (this w')) = false
  /\ match (destroy w).2 with
     | Normal _ =>
         timeline (this w') = None
         /\ svgContent (this w') = None
         /\ states (this w') = ∅
         /\ variables (this w') = ∅
         /\ triggers (this w') = []
         /\ targetCache (this w') = ∅
         /\ State.currentTime (state (this w')) = 0
         /\ (destroy w').2 = Normal tt
     | Throw _ =>
         timeline (this w') = timeline (this w)
         /\ svgContent (this w') = svgContent (this w)
         /\ states (this w') = states (this w)
         /\ variables (this w') = variables (this w)
         /\ triggers (this w') = triggers (this w)
         /\ targetCache (this w) ⊆ targetCache (this w')
     end.
Proof.
  cbv zeta.
  pose proof (holdings_kept_stop w) as [Hheld Hcache].
  pose proof (stop_rewinds w) as [Hplaying Htime].
  assert (forall w1 : World,
            timeline (this w1) = None -> (destroy w1).2 = Normal tt) as Hagain
    by apply destroy_completes_without_timeline.
  unfold holdings in Hheld.
  injection Hheld as Et Ec Es Ev Etr El.
  rewrite (destroy_unfold w).
  destruct (stop w) as [w1 [[]|e]]; simpl in *.
  - split_and!; try done; [by apply Htime | by apply Hagain].
  - by split_and!.
Qed.

(** ** Written attributes *)

Lemma assoc_assoc_set (name value name' : string)
    (l : list (string * string)) :
  assoc name' (assoc_set name value l)
  = if String.eqb name name' then Some value else assoc name' l.
Proof.
  induction l as [|[k v] l IH]; simpl.
  - reflexivity.
  - destruct (String.eqb k name) eqn:Hk; simpl.
    + apply String.eqb_eq in Hk as ->. by destruct (String.eqb name name').
    + rewrite IH. destruct (String.eqb k name') eqn:Hk'; [|reflexivity].
      apply String.eqb_eq in Hk' as ->.
      by rewrite String.eqb_sym, Hk.
Qed.

(** The attributes of the element at [q] after the attribute [name] of
    the element at [p] has been set. *)
Lemma attributes_update_at (p q : list nat) (name value : string)
    (e : Element) :
  attributes <$> subtree q (update_at p (withAttribute name value) e)
  = (if decide (q = p) then assoc_set name value else fun a => a)
    <$> (attributes <$> subtree q e).
Proof.
  revert q e. induction p as [|i p IH]; intros q [t a k].
  - destruct q as [|j q]; [reflexivity|].
    change (subtree (j :: q) (update_at [] (withAttribute name value)
                                        (Node t a k)))
      with (subtree (j :: q) (Node t a k)).
    case_decide; [done|].
    by destruct (subtree (j :: q) (Node t a k)).
  - destruct q as [|j q]; [by case_decide|].
    change (attributes
              <$> (c ← alter (update_at p (withAttribute name value)) i k !! j;
                   subtree q c)
            = (if decide (j :: q = i :: p)
               then assoc_set name value else fun a => a)
              <$> (attributes <$> (c ← k !! j; subtree q c))).
    destruct (decide (j = i)) as [->|Hji].
    + rewrite list_lookup_alter_eq. destruct (k !! i) as [c|]; [|reflexivity].
      change (attributes <$> subtree q (update_at p (withAttribute name value) c)
              = (if decide (i :: q = i :: p)
                 then assoc_set name value else fun a => a)
                <$> (attributes <$> subtree q c)).
      rewrite IH. repeat case_decide; congruence.
    + rewrite list_lookup_alter_ne by done.
      case_decide; [congruence|].
      by destruct (k !! j) as [c|]; simpl; [destruct (subtree q c)|].
Qed.

Lemma attributes_setAttribute (n m : NodeRef) (name value : string)
    (w : World) :
  valid_name name = true ->
  attributes <$> element_at m (node_setAttribute n name value w).1
  = (if decide (document m = document n /\ path m = path n)
     then assoc_set name value else fun a => a)
    <$> (attributes <$> element_at m w).
Proof.
  intros Hvalid. unfold node_setAttribute, element_at. rewrite Hvalid. simpl.
  destruct (decide (document m = document n)) as [Hd|Hd].
  - rewrite Hd, lookup_alter_eq.
    destruct (documents w !! document n) as [root|]; simpl; [|reflexivity].
    rewrite attributes_update_at.
    destruct (decide (path m = path n)) as [Hp|Hp].
    + by rewrite decide_True.
    + by rewrite decide_False by (by intros []).
  - rewrite lookup_alter_ne by done.
    rewrite decide_False by (by intros []).
    by destruct (documents w !! document m) as [root|]; simpl;
      [destruct (subtree (path m) root)|].
Qed.

Lemma read_attribute_attributes (n : NodeRef) (name : string) (w : World) :
  read_attribute n name w = (attributes <$> element_at n w) ≫= assoc name.
Proof.
  unfold read_attribute, getAttribute.
  by destruct (element_at n w).
Qed.

Lemma same_node (n m : NodeRef) :
  document m = document n /\ path m = path n <-> m = n.
Proof.
  split; [|by intros ->]. destruct n, m. simpl. by intros [-> ->].
Qed.

(** What an attribute reads after [setAttribute]: the value set on the
    same attribute of the same element, and what it read before
    anywhere else. *)
Lemma read_after_setAttribute (n m : NodeRef) (name value name' : string)
    (w : World) :
  valid_name name = true ->
  read_attribute m name' (node_setAttribute n name value w).1
  = if decide (m = n /\ name' = name)
    then (_ ← element_at m w; Some value)
    else read_attribute m name' w.
Proof.
  intros Hvalid. rewrite !read_attribute_attributes.
  rewrite (attributes_setAttribute _ _ _ _ _ Hvalid).
  destruct (decide (document m = document n /\ path m = path n)) as [Hn|Hn].
  - apply same_node in Hn as ->.
    destruct (element_at n w) as [el|]; simpl.
    + rewrite assoc_assoc_set.
      destruct (String.eqb name name') eqn:Hname.
      * apply String.eqb_eq in Hname as ->. by rewrite decide_True.
      * apply String.eqb_neq in Hname.
        by rewrite decide_False by (intros [_ ->]; done).
    + by destruct (decide _).
  - rewrite decide_False by (intros [-> _]; by apply Hn).
    by destruct (element_at m w).
Qed.

Lemma exists_after_setAttribute (n m : NodeRef) (name value : string)
    (w : World) :
  is_Some (element_at m (node_setAttribute n name value w).1)
  <-> is_Some (element_at m w).
Proof.
  unfold node_setAttribute. destruct (valid_name name) eqn:Hvalid;
    [|reflexivity].
  pose proof (attributes_setAttribute n m name value w Hvalid) as H.
  unfold node_setAttribute in H. rewrite Hvalid in H.
  rewrite <- !(fmap_is_Some attributes). rewrite H.
  by rewrite fmap_is_Some.
Qed.

Lemma setAttribute_completes (n : NodeRef) (name value : string) (w : World) :
  valid_name name = true -> (node_setAttribute n name value w).2 = Normal tt.
Proof. intros H. unfold node_setAttribute. by rewrite H. Qed.

(** Setting one attribute to one value on every element of a list. *)
Lemma forEach_setAttribute (name value : string) (targets : list NodeRef)
    (w : World) :
  valid_name name = true ->
  let run := forEach (fun t => node_setAttribute t name value) targets w in
  run.2 = Normal tt
  /\ (forall m, is_Some (element_at m run.1) <-> is_Some (element_at m w))
  /\ (forall m, m ∈ targets -> is_Some (element_at m w) ->
                read_attribute m name run.1 = Some value)
  /\ (forall m name', m ∉ targets \/ name' <> name ->
                      read_attribute m name' run.1 = read_attribute m name' w).
Proof.
  intros Hvalid. revert w.
  induction targets as [|t targets IH]; intros w; cbv zeta.
  - split_and!; try done. intros m Hin. by apply elem_of_nil in Hin.
  - simpl. unfold mbind, M_bind, bind.
    pose proof (setAttribute_completes t name value w Hvalid) as Hdone.
    pose proof (fun m => exists_after_setAttribute t m name value w) as Hex.
    pose proof (fun m name' => read_after_setAttribute t m name value name' w Hvalid)
      as Hread.
    destruct (node_setAttribute t name value w) as [w1 [[]|e]];
      [|discriminate]. simpl in *.
    destruct (IH w1) as (Hrun & Hex' & Hin & Hout). split_and!.
    + exact Hrun.
    + intros m. by rewrite Hex', Hex.
    + intros m Hm Hsome.
      destruct (decide (m ∈ targets)) as [Hrest|Hrest].
      * apply Hin; [done | by apply Hex].
      * rewrite Hout by by left.
        apply elem_of_cons in Hm as [->|Hm]; [|done].
        rewrite Hread, decide_True by done. by destruct Hsome as [el ->].
    + intros m name' Hno.
      rewrite Hout by (destruct Hno as [Hno|Hno]; [left|by right];
                       intros Hm; apply Hno; by right).
      rewrite Hread, decide_False; [done|].
      intros [-> ->]. destruct Hno as [Hno|Hno]; [|done].
      apply Hno. by left.
Qed.

Lemma element_at_documents (n : NodeRef) (w w' : World) :
  documents w = documents w' -> element_at n w = element_at n w'.
Proof. intros H. unfold element_at. by rewrite H. Qed.

Lemma getTargets_documents (selector : option string) (w : World) :
  documents (getTargets selector w).1 = documents w.
Proof. exact (unwritten_getTargets selector w). Qed.

(** With a [from] that is not empty the value written does not depend
    on the target. *)
Lemma animate_targets_from (anim : Leaf) (targets : list NodeRef)
    (eased : JsValue) (fromText : string) (w : World) :
  Text.truthy (from anim) = Some fromText ->
  animate_targets anim targets eased w
  = forEach (fun t =>
      node_setAttribute t (Text.of_nullable (attribute anim))
        (Number_toString
           (parseFloat fromText
            + (parseFloat (default (Number_toString (parseFloat fromText))
                                   (Text.truthy (to anim)))
               - parseFloat fromText) * ToNumber eased))) targets w.
Proof.
  intros Hfrom. unfold animate_targets. apply forEach_ext, Forall_forall.
  intros t _ w'. by rewrite Hfrom.
Qed.

(** X15.  What [updateAnimate] writes.  For a leaf with a [from], sampled
    while it is active, the update completes and every target that is
    in the document reads, at the attribute the leaf names (the
    attribute called [null] when it names none),
    [from + (to - from) * easedProgress] printed as a number, where [to]
    falls back to [from]; every other attribute, and every attribute of
    an element that is no target, reads what it read before. *)
Theorem updateAnimate_writes_the_interpolation (anim : Leaf) (time : float)
    (w w1 : World) (targets : list NodeRef) (fromText : string)
    (eased : JsValue) :
  getTargets (target anim) w = (w1, Normal targets) ->
  (calculateProgress anim time <? 0) || (1 <? calculateProgress anim time)
  = false ->
  applyEasing (calculateProgress anim time) (easing anim) = Normal eased ->
  Text.truthy (from anim) = Some fromText ->
  valid_name (Text.of_nullable (attribute anim)) = true ->
  let name := Text.of_nullable (attribute anim) in
  let from := parseFloat fromText in
  let to :=
    parseFloat (default (Number_toString from) (Text.truthy (to anim))) in
  let value := Number_toString (from + (to - from) * ToNumber eased) in
  let w' := (updateAnimate anim time w).1 in
  (updateAnimate anim time w).2 = Normal tt
  /\ (forall n, n ∈ targets -> is_Some (element_at n w) ->
                read_attribute n name w' = Some value)
  /\ (forall n name', n ∉ targets \/ name' <> name ->
                      read_attribute n name' w' = read_attribute n name' w).
Proof.
  intros Hget Hrange Heased Hfrom Hvalid. cbv zeta.
  pose proof (getTargets_documents (target anim) w) as Hdocs.
  rewrite Hget in Hdocs. simpl in Hdocs.
  unfold updateAnimate, with_progress, mbind, M_bind, bind.
  rewrite Hget. destruct targets as [|t targets].
  - simpl. split_and!; [done | by intros n Hn%elem_of_nil |].
    intros n name' _. by apply read_attribute_documents.
  - rewrite Hrange. unfold lift. rewrite Heased.
    rewrite (animate_targets_from _ _ _ _ _ Hfrom).
    match goal with
    | |- context [forEach ?f ?l w1] =>
        destruct (forEach_setAttribute
                    (Text.of_nullable (attribute anim))
                    (Number_toString
                       (parseFloat fromText
                        + (parseFloat
                             (default (Number_toString (parseFloat fromText))
                                      (Text.truthy (to anim)))
                           - parseFloat fromText) * ToNumber eased))
                    l w1 Hvalid) as (Hrun & _ & Hin & Hout)
    end.
    split_and!.
    + exact Hrun.
    + intros n Hn Hsome. apply Hin; [done|].
      by rewrite (element_at_documents n w1 w).
    + intros n name' Hno. rewrite Hout by done.
      by apply read_attribute_documents.
Qed.

(** Rewriting one attribute of each element of a list from what it
    holds. *)
Lemma forEach_rewriteAttribute (name : string) (val : option string -> string)
    (targets : list NodeRef) (w : World) :
  valid_name name = true ->
  NoDup targets ->
  let run :=
    forEach (fun t => existing ← node_getAttribute t name;
                      node_setAttribute t name (val existing)) targets w in
  run.2 = Normal tt
  /\ (forall m, is_Some (element_at m run.1) <-> is_Some (element_at m w))
  /\ (forall m, m ∈ targets -> is_Some (element_at m w) ->
                read_attribute m name run.1
                = Some (val (read_attribute m name w)))
  /\ (forall m name', m ∉ targets \/ name' <> name ->
                      read_attribute m name' run.1 = read_attribute m name' w).
Proof.
  intros Hvalid Hnodup. revert w.
  induction Hnodup as [|t targets Hfresh _ IH]; intros w; cbv zeta.
  - split_and!; try done. intros m Hin. by apply elem_of_nil in Hin.
  - simpl. unfold mbind, M_bind, bind, node_getAttribute.
    fold (read_attribute t name w).
    set (value := val (read_attribute t name w)).
    pose proof (setAttribute_completes t name value w Hvalid) as Hdone.
    pose proof (fun m => exists_after_setAttribute t m name value w) as Hex.
    pose proof (fun m name' =>
                  read_after_setAttribute t m name value name' w Hvalid)
      as Hread.
    destruct (node_setAttribute t name value w) as [w1 [[]|e]];
      [|discriminate]. simpl in *.
    destruct (IH w1) as (Hrun & Hex' & Hin & Hout). split_and!.
    + exact Hrun.
    + intros m. by rewrite Hex', Hex.
    + intros m Hm Hsome. apply elem_of_cons in Hm as [->|Hm].
      * rewrite Hout by by left.
        rewrite Hread, decide_True by done. by destruct Hsome as [el ->].
      * rewrite Hin by (by try apply Hex).
        rewrite Hread, decide_False; [done|].
        intros [-> _]. by apply Hfresh.
    + intros m name' Hno.
      rewrite Hout by (destruct Hno as [Hno|Hno]; [left|by right];
                       intros Hm; apply Hno; by right).
      rewrite Hread, decide_False; [done|].
      intros [-> ->]. destruct Hno as [Hno|Hno]; [|done].
      apply Hno. by left.
Qed.

(** X16.  What [updateAnimateTransform] writes.  Sampled while it is
    active, on targets that are distinct, the update completes and every
    target that is in the document reads at [transform] the interpolated
    transform, in the mode [replace]; in the mode [sum] it reads what it
    read before (nothing, when the attribute was missing or empty), a
    blank, and the interpolated transform.  So in the mode [sum] every
    sample appends to the output of the samples before it.  Every other
    attribute, and every attribute of an element that is no target, reads
    what it read before. *)
Theorem additive_transforms_pile_up (anim : Leaf) (time : float)
    (w w1 : World) (targets : list NodeRef) (eased : JsValue)
    (transform : string) :
  getTargets (target anim) w = (w1, Normal targets) ->
  (calculateProgress anim time <? 0) || (1 <? calculateProgress anim time)
  = false ->
  applyEasing (calculateProgress anim time) (easing anim) = Normal eased ->
  interpolateTransform (transformType anim) (from anim) (to anim) eased
  = Normal transform ->
  valid_name "transform" = true ->
  NoDup targets ->
  let w' := (updateAnimateTransform anim time w).1 in
  (updateAnimateTransform anim time w).2 = Normal tt
  /\ (forall n, n ∈ targets -> is_Some (element_at n w) ->
        read_attribute n "transform" w'
        = Some (if String.eqb (default "" (additive anim)) "sum"
                then default "" (Text.truthy (read_attribute n "transform" w))
                     ++ " " ++ transform
                else transform))
  /\ (forall n name', n ∉ targets \/ name' <> "transform" ->
                      read_attribute n name' w' = read_attribute n name' w).
Proof.
  intros Hget Hrange Heased Htransform Hvalid Hnodup. cbv zeta.
  pose proof (getTargets_documents (target anim) w) as Hdocs.
  rewrite Hget in Hdocs. simpl in Hdocs.
  unfold updateAnimateTransform, with_progress, mbind, M_bind, bind.
  rewrite Hget. destruct targets as [|t targets].
  - simpl. split_and!; [done | by intros n Hn%elem_of_nil |].
    intros n name' _. by apply read_attribute_documents.
  - rewrite Hrange, Heased.
    change (lift (Normal eased) w1) with (w1, Normal eased). cbv beta iota.
    set (val := fun existing : option string =>
                  if String.eqb (default "" (additive anim)) "sum"
                  then default "" (Text.truthy existing) ++ " " ++ transform
                  else transform).
    match goal with
    | |- context [forEach ?f ?l w1] =>
        assert (forEach f l w1
                = forEach (fun t => existing ← node_getAttribute t "transform";
                                    node_setAttribute t "transform"
                                                      (val existing)) l w1)
          as ->
    end.
    { apply forEach_ext, Forall_forall. intros n _ w2.
      unfold mbind, M_bind, bind, lift, val. rewrite Htransform.
      by destruct (String.eqb _ "sum"). }
    destruct (forEach_rewriteAttribute "transform" val (t :: targets) w1
                Hvalid Hnodup) as (Hrun & _ & Hin & Hout).
    split_and!.
    + exact Hrun.
    + intros n Hn Hsome. rewrite Hin; [|done|].
      * by rewrite (read_attribute_documents n "transform" w1 w).
      * by rewrite (element_at_documents n w1 w).
    + intros n name' Hno. rewrite Hout by done.
      by apply read_attribute_documents.
Qed.

(** ** Missing endpoints *)

(** X17.  A transform or a colour leaf that lacks its [from] or its [to],
    and a path leaf that lacks its [path], raise a TypeError the first
    time they are sampled while active with a target in the document:
    the update reads [split], [match] or [startsWith] of [null].
    Nothing has been written when the exception leaves the update. *)
Theorem missing_endpoint_raises (anim : Leaf) (time : float) (w w1 : World)
    (first : NodeRef) (targets : list NodeRef) (eased : JsValue) :
  getTargets (target anim) w = (w1, Normal (first :: targets)) ->
  (calculateProgress anim time <? 0) || (1 <? calculateProgress anim time)
  = false ->
  applyEasing (calculateProgress anim time) (easing anim) = Normal eased ->
  (from anim = None \/ to anim = None ->
   updateAnimateTransform anim time w = (w1, null_read "split")
   /\ updateAnimateColor anim time w = (w1, null_read "match"))
  /\ (path_ anim = None ->
      updateAnimatePath anim time w = (w1, null_read "startsWith"))
  /\ documents w1 = documents w.
Proof.
  intros Hget Hrange Heased. split_and!.
  - intros Hmissing.
    unfold updateAnimateTransform, updateAnimateColor, with_progress,
      mbind, M_bind, bind.
    rewrite Hget, Hrange, Heased.
    change (lift (Normal eased) w1) with (w1, Normal eased). cbv beta iota.
    unfold interpolateTransform, interpolateColor, parseColor.
    destruct Hmissing as [->| ->]; simpl.
    + done.
    + destruct (from anim) as [color|]; [|done]. split; [done|].
      by destruct (match_hex color) as [[[??]?]|];
        [|destruct (match_rgb color) as [[[??]?]|]].
  - intros Hmissing.
    unfold updateAnimatePath, with_progress, mbind, M_bind, bind.
    by rewrite Hget, Hrange, Heased, Hmissing.
  - pose proof (getTargets_documents (target anim) w) as Hdocs.
    by rewrite Hget in Hdocs.
Qed.

(** ** Morphing *)

Lemma truthy_Some (s : option string) (x : string) :
  Text.truthy s = Some x -> s = Some x.
Proof.
  destruct s as [y|]; simpl; [|done]. by destruct (String.eqb y "").
Qed.

Lemma interpolatePath_copies (fromPath toPath : string) (progress : JsValue) :
  interpolatePath fromPath toPath progress = fromPath
  \/ interpolatePath fromPath toPath progress = toPath.
Proof. unfold interpolatePath. destruct (_ <? _); [by left | by right]. Qed.

(** The [forEach] of [updateMorph]. *)
Lemma morph_loop (toEl : NodeRef) (eased : JsValue) (targets : list NodeRef)
    (w : World) (m : NodeRef) :
  let run :=
    forEach (fun target =>
      fromPath ← node_getAttribute target "d";
      toPath ← node_getAttribute toEl "d";
      match Text.truthy fromPath, Text.truthy toPath with
      | Some fromPath, Some toPath =>
          node_setAttribute target "d"
            (interpolatePath fromPath toPath eased)
      | _, _ => ret tt
      end) targets w in
  (forall name', name' <> "d" ->
                 read_attribute m name' run.1 = read_attribute m name' w)
  /\ (read_attribute m "d" run.1 = read_attribute m "d" w
      \/ read_attribute m "d" run.1 = read_attribute toEl "d" w).
Proof.
  revert m w. induction targets as [|t targets IH]; intros m w; cbv zeta.
  - split; [done | by left].
  - rewrite forEach_cons, bind_run.
    set (step := node_getAttribute t "d" ≫= _).
    assert (forall n,
              (forall name', name' <> "d" ->
                 read_attribute n name' (step w).1 = read_attribute n name' w)
              /\ (read_attribute n "d" (step w).1 = read_attribute n "d" w
                  \/ read_attribute n "d" (step w).1
                     = read_attribute toEl "d" w)) as Hstep;
      [|destruct (step w) as [w1 [[]|e]]].
    + intros n. unfold step. clear step.
      unfold mbind, M_bind, bind, node_getAttribute, ret.
      fold (read_attribute t "d" w) (read_attribute toEl "d" w).
      destruct (Text.truthy (read_attribute t "d" w)) as [fromPath|] eqn:Hfrom;
        [|by split; [|left]].
      destruct (Text.truthy (read_attribute toEl "d" w)) as [toPath|] eqn:Hto;
        [|by split; [|left]].
      apply truthy_Some in Hfrom, Hto.
      destruct (valid_name "d") eqn:Hvalid;
        [|unfold node_setAttribute; rewrite Hvalid; by split; [|left]].
      split.
      * intros name' Hname. rewrite read_after_setAttribute by done.
        by rewrite decide_False by (by intros [_ ?]).
      * rewrite read_after_setAttribute by done.
        destruct (decide (n = t /\ "d" = "d")) as [[-> _]|_]; [|by left].
        assert (is_Some (element_at t w)) as [el ->].
        { unfold read_attribute in Hfrom. by destruct (element_at t w). }
        simpl. destruct (interpolatePath_copies fromPath toPath eased)
          as [-> | ->]; [left | right]; congruence.
    + simpl in Hstep. destruct (IH m w1) as [Hother Hd].
      destruct (Hstep m) as [Hother1 Hd1].
      destruct (Hstep toEl) as [_ HtoEl].
      assert (read_attribute toEl "d" w1 = read_attribute toEl "d" w) as Hsame
        by by destruct HtoEl.
      split.
      * intros name' Hname. by rewrite Hother, Hother1.
      * destruct Hd as [Hd|Hd]; rewrite Hd; [exact Hd1 | by right].
    + exact (Hstep m).
Qed.

Lemma querySelector_documents (root : NodeRef) (selector : string)
    (w w' : World) :
  documents w = documents w' ->
  (node_querySelector root selector w).2
  = (node_querySelector root selector w').2
  /\ (node_querySelector root selector w).1 = w.
Proof.
  intros Hdocs.
  unfold node_querySelector, node_querySelectorAll, mbind, M_bind, bind, ret.
  rewrite (element_at_documents root w w' Hdocs).
  by destruct (element_at root w') as [el|]; [destruct (select el selector)|].
Qed.

(** X18.  [updateMorph] copies paths and blends none.  After the update,
    whether it completed or raised, the [d] attribute of every element
    reads what it read before or what the [d] attribute of the element
    selected by [to] read before, and no other attribute has changed.
    So once the path of a target has been replaced by the path of the
    [to] element, no later sample brings the first path back. *)
Theorem morph_only_copies_paths (anim : Leaf) (time : float) (w : World)
    (m : NodeRef) :
  let w' := (updateMorph anim time w).1 in
  (forall name', name' <> "d" ->
                 read_attribute m name' w' = read_attribute m name' w)
  /\ (read_attribute m "d" w' = read_attribute m "d" w
      \/ exists root toEl,
           svgContent (this w) = Some root
           /\ (node_querySelector root (Text.of_nullable (to anim)) w).2
              = Normal (Some toEl)
           /\ read_attribute m "d" w' = read_attribute toEl "d" w).
Proof.
  cbv zeta.
  assert (forall w2 : World,
            documents w2 = documents w ->
            (forall name', name' <> "d" ->
               read_attribute m name' w2 = read_attribute m name' w)
            /\ (read_attribute m "d" w2 = read_attribute m "d" w
                \/ exists root toEl,
                     svgContent (this w) = Some root
                     /\ (node_querySelector root (Text.of_nullable (to anim))
                                            w).2 = Normal (Some toEl)
                     /\ read_attribute m "d" w2 = read_attribute toEl "d" w))
    as Hsame.
  { intros w2 Hdocs.
    split; [intros name' _|left]; by apply read_attribute_documents. }
  pose proof (getTargets_documents (target anim) w) as Hdocs.
  pose proof (sampled_getTargets (target anim) w) as [Hrest _].
  unfold updateMorph, with_progress. rewrite bind_run.
  destruct (getTargets (target anim) w) as [w1 [targets|e]];
    cbn [fst snd] in Hdocs, Hrest; [|by apply Hsame].
  destruct targets as [|t targets]; [by apply Hsame|].
  destruct (_ || _); [by apply Hsame|].
  rewrite bind_run, lift_run.
  destruct (applyEasing _ _) as [eased|e]; [|by apply Hsame].
  rewrite bind_run, gets_run.
  assert (svgContent (this w1) = svgContent (this w)) as Hcontent.
  { unfold untouched_by_sampling in Hrest.
    by injection Hrest as _ _ _ Ec _ _ _ _ _ _ _ _ _ _ _ _. }
  rewrite Hcontent.
  destruct (svgContent (this w)) as [root|] eqn:Hroot; rewrite bind_run;
    [|rewrite lift_run; by apply Hsame].
  destruct (querySelector_documents root (Text.of_nullable (to anim)) w1 w
              Hdocs) as [Hfound Hstill].
  destruct (node_querySelector root (Text.of_nullable (to anim)) w1)
    as [w2 [[toEl|]|e]]; cbn [fst snd] in Hfound, Hstill; subst w2;
    try by apply Hsame.
  destruct (morph_loop toEl eased (t :: targets) w1 m) as [Hother Hd].
  split.
  - intros name' Hname. rewrite Hother by done.
    by apply read_attribute_documents.
  - destruct Hd as [Hd|Hd]; rewrite Hd.
    + left. by apply read_attribute_documents.
    + right. exists root, toEl. split_and!; [done | done |].
      by apply read_attribute_documents.
Qed.

(** ** Rewinding *)

Lemma pause_documents (w : World) : documents (pause w).1 = documents w.
Proof.
  unfold pause, mbind, M_bind, bind, gets, modify_state, modify, emit,
    cancelAnimationFrame, ret.
  simpl. destruct (State.playing (state (this w))); simpl; [|reflexivity].
  by destruct (_animationFrame (this w)).
Qed.

Lemma pause_timeline (w : World) :
  timeline (this (pause w).1) = timeline (this w).
Proof.
  unfold pause, mbind, M_bind, bind, gets, modify_state, modify, emit,
    cancelAnimationFrame, ret.
  simpl. destruct (State.playing (state (this w))); simpl; [|reflexivity].
  by destruct (_animationFrame (this w)).
Qed.

Lemma stop_unfold (w : World) :
  stop w
  = match pause w with
    | (w1, Normal _) =>
        match updateAnimations 0
                (set_this
                   (set_state (State.set_currentTime 0 (state (this w1)))
                              (this w1)) w1) with
        | (w3, Normal _) => emit "stop" NoDetail w3
        | (w3, Throw e) => (w3, Throw e)
        end
    | (w1, Throw e) => (w1, Throw e)
    end.
Proof.
  unfold stop, mbind, M_bind, bind.
  by destruct (pause w) as [w1 [[]|e]].
Qed.

Lemma unwritten_not_started (time : float) (ls : list Leaf) :
  Forall (not_started time) ls ->
  preserves unwritten (forEach (fun l => update_leaf l time) ls).
Proof.
  intros Hls. apply preserves_forEach_Forall; [apply _|].
  eapply Forall_impl; [exact Hls|]. intros l Hl w.
  apply update_leaf_sentinel.
  assert (calculateProgress l time = (-1)) as ->; [|reflexivity].
  unfold calculateProgress. unfold not_started in Hl. by rewrite Hl.
Qed.

(** X19.  [stop] rewinds the clock and not the document.  When no leaf
    of the timeline has started at time 0, [stop] writes nothing: every
    attribute keeps the value that the last sample gave it, the initial
    values are not restored. *)
Theorem stop_does_not_restore (w : World) (nodes : list Animation) :
  timeline (this w) = Some nodes ->
  Forall (not_started 0) (flat_map leaves nodes) ->
  documents (stop w).1 = documents w
  /\ State.currentTime (state (this (stop w).1)) = 0
  /\ State.playing (state (this (stop w).1)) = false.
Proof.
  intros Htimeline Hlate.
  pose proof (pause_documents w) as Hdocs.
  pose proof (pause_timeline w) as Hsame.
  pose proof (pause_clears_playing w) as Hplaying.
  pose proof (pause_completes w) as Hp.
  rewrite stop_unfold.
  destruct (pause w) as [w1 [[]|e]]; [|discriminate].
  cbn [fst snd] in *.
  set (w2 := set_this _ w1).
  assert (documents (updateAnimations 0 w2).1 = documents w) as Hkept.
  { rewrite updateAnimations_leaves.
    assert (timeline (this w2) = Some nodes) as -> by by rewrite <- Htimeline.
    destruct (svgContent (this w2)); [|exact Hdocs].
    change (0 - 0) with 0.
    rewrite (unwritten_not_started 0 _ Hlate w2). exact Hdocs. }
  pose proof (sampled_updateAnimations 0 w2) as [Hrest _].
  unfold untouched_by_sampling in Hrest.
  injection Hrest as _ Es _ _ _ _ _ _ _ _ _ _ _ _ _ _.
  destruct (updateAnimations 0 w2) as [w3 [[]|e]]; cbn [fst snd] in *;
    simpl; rewrite ?Es; by split_and!.
Qed.

(** ** The children of a sequence *)

Lemma sequence_loop_starts (parse : Element -> float -> option Animation)
    (kids : list Element) (currentStart : float) (i : nat) (a : Animation) :
  (sequence_loop parse kids currentStart).1 !! i = Some a ->
  exists child,
    child ∈ kids
    /\ parse child
         (fold_left add
            (map anim_duration
                 (take i (sequence_loop parse kids currentStart).1))
            currentStart)
       = Some a.
Proof.
  revert currentStart i.
  induction kids as [|kid kids IH]; intros currentStart i; simpl; [done|].
  destruct (parse kid currentStart) as [anim|] eqn:Hkid.
  - specialize (IH (currentStart + anim_duration anim)).
    destruct (sequence_loop parse kids _) as [animations final]. simpl in *.
    destruct i as [|i]; simpl.
    + intros [= <-]. exists kid. split; [by left | done].
    + intros Ha. destruct (IH i Ha) as (child & Hin & Hchild).
      exists child. split; [by right | done].
  - intros Ha. destruct (IH currentStart i Ha) as (child & Hin & Hchild).
    exists child. split; [by right | done].
Qed.

Lemma parseAnimation_leaf_start (el : Element) (parentStart : float)
    (l : Leaf) :
  parseAnimation el parentStart = Some (ALeaf l) ->
  start l = parentStart + parseTime (attribute_or el "start" "0s").
Proof.
  destruct el as [tag attrs kids]. simpl.
  repeat (destruct (String.eqb _ _); [by intros [= <-]|]).
  unfold sequence_of, parallel_of, animate_set_of.
  repeat (destruct (String.eqb _ _);
          [by (destruct (sequence_loop _ _ _) || destruct (parallel_loop _ _ _ _ _))|]).
  done.
Qed.

(** X20.  The children of a sequence start in turn.  Each animation
    that [parseSequence] keeps was parsed from one of the children of
    the element with, as its parent start, the start of the sequence
    plus the durations of the animations kept before it, added in order;
    a child that is no animation takes no time.  The duration added for
    an animation is that of one iteration, whatever its [repeat], and
    the [start] attribute of a leaf counts from that instant. *)
Theorem sequence_children_start_in_turn (el : Element) (parentStart : float)
    (i : nat) (a : Animation) :
  group_children (parseSequence el parentStart) !! i = Some a ->
  let before := take i (group_children (parseSequence el parentStart)) in
  let turn := fold_left add (map anim_duration before) parentStart in
  exists child,
    child ∈ children el
    /\ parseAnimation child turn = Some a
    /\ forall l, a = ALeaf l ->
                 start l = turn + parseTime (attribute_or child "start" "0s").
Proof.
  unfold parseSequence, sequence_of.
  pose proof (sequence_loop_starts parseAnimation (children el) parentStart i a)
    as H.
  destruct (sequence_loop parseAnimation (children el) parentStart)
    as [animations final]. simpl in *.
  intros Ha. destruct (H Ha) as (child & Hin & Hchild).
  exists child. split_and!; [done | done |].
  intros l ->. by apply parseAnimation_leaf_start.
Qed.

(** ** Colours *)

Lemma digit_is_no_space (c : ascii) :
  Text.is_digit c = true -> Text.is_space c = false.
Proof.
  unfold Text.is_digit, Text.is_space. intros [H1 H2]%andb_prop.
  apply N.leb_le in H1, H2. cbv zeta.
  rewrite (proj2 (N.leb_gt (Text.code c) 13)) by lia.
  rewrite (proj2 (N.eqb_neq (Text.code c) 32)) by lia.
  rewrite (proj2 (N.eqb_neq (Text.code c) 160)) by lia.
  by rewrite andb_false_r.
Qed.

Lemma digits_start_outside_spaces (g rest : string) :
  g <> "" -> Text.forallb Text.is_digit g = true ->
  starts_outside Text.is_space (g ++ rest) = true.
Proof.
  destruct g as [|c g]; [done|]. intros _ [Hc _]%andb_prop.
  change (negb (Text.is_space c) = true). by rewrite (digit_is_no_space c Hc).
Qed.

Lemma int_group_app (g rest : string) :
  g <> "" -> Text.forallb Text.is_digit g = true ->
  starts_outside Text.is_digit rest = true ->
  Text.int_group (g ++ rest) = Some (g, rest).
Proof.
  intros Hne Hg Hrest. unfold Text.int_group.
  rewrite (span_app _ _ _ Hg Hrest).
  apply String.eqb_neq in Hne. by rewrite Hne.
Qed.

Lemma skip_one_space (g rest : string) :
  g <> "" -> Text.forallb Text.is_digit g = true ->
  Text.skip_spaces (" " ++ g ++ rest) = g ++ rest.
Proof.
  intros Hne Hg. unfold Text.skip_spaces.
  by rewrite (span_app Text.is_space " " (g ++ rest) eq_refl
                (digits_start_outside_spaces g rest Hne Hg)).
Qed.

(** X21.  [parseColor] reads the form that [interpolateColor] prints.
    For three non-empty runs of digits [r], [g] and [b], the text
    [rgb(r, g, b)] is read as the three numbers that [parseInt] gives,
    so a colour written by the engine can be the [from] or the [to] of a
    colour leaf. *)
Theorem parseColor_reads_the_printed_form (r g b : string) :
  r <> "" -> g <> "" -> b <> "" ->
  Text.forallb Text.is_digit r = true ->
  Text.forallb Text.is_digit g = true ->
  Text.forallb Text.is_digit b = true ->
  parseColor (Some ("rgb(" ++ r ++ ", " ++ g ++ ", " ++ b ++ ")"))
  = Normal (parseInt r, parseInt g, parseInt b).
Proof.
  intros Hr Hg Hb Dr Dg Db. unfold parseColor.
  change (match_hex ("rgb(" ++ r ++ ", " ++ g ++ ", " ++ b ++ ")")) with
    (@None (float * float * float)).
  assert (match_rgb ("rgb(" ++ r ++ ", " ++ g ++ ", " ++ b ++ ")")
          = Some (r, g, b)) as ->; [|reflexivity].
  unfold match_rgb.
  change (Text.strip_prefix "rgb(" ("rgb(" ++ r ++ ", " ++ g ++ ", " ++ b ++ ")"))
    with (Some (r ++ ", " ++ g ++ ", " ++ b ++ ")")).
  cbn [mbind option_bind].
  rewrite (int_group_app r (", " ++ g ++ ", " ++ b ++ ")") Hr Dr eq_refl).
  cbn [mbind option_bind].
  change (Text.strip_prefix "," (", " ++ g ++ ", " ++ b ++ ")"))
    with (Some (" " ++ g ++ ", " ++ b ++ ")")).
  cbn [mbind option_bind].
  rewrite (skip_one_space g (", " ++ b ++ ")") Hg Dg).
  rewrite (int_group_app g (", " ++ b ++ ")") Hg Dg eq_refl).
  cbn [mbind option_bind].
  change (Text.strip_prefix "," (", " ++ b ++ ")"))
    with (Some (" " ++ b ++ ")")).
  cbn [mbind option_bind].
  rewrite (skip_one_space b ")" Hb Db).
  rewrite (int_group_app b ")" Hb Db eq_refl).
  reflexivity.
Qed.

Lemma match_hex_shape (color : string) (rgb : float * float * float) :
  match_hex color = Some rgb ->
  Text.startsWith color "#" = true /\ String.length color = 7%nat.
Proof.
  unfold match_hex. repeat case_match; try discriminate.
  intros _. by subst.
Qed.

(** X22.  Every colour that [parseColor] does not recognise is black.
    A text that does not begin with [rgb(], and that is not a [#]
    followed by six characters, is read as red 0, green 0 and blue 0,
    and nothing is raised: so are the colour names, the short form
    [#rgb], [rgba(...)] and [hsl(...)]. *)
Theorem unrecognised_colours_are_black (color : string) :
  Text.startsWith color "rgb(" = false ->
  Text.startsWith color "#" = false \/ String.length color <> 7%nat ->
  parseColor (Some color) = Normal (0, 0, 0).
Proof.
  intros Hrgb Hhex. unfold parseColor.
  destruct (match_hex color) as [rgb|] eqn:Hmatch.
  { apply match_hex_shape in Hmatch as [Hsharp Hlength].
    destruct Hhex; congruence. }
  unfold match_rgb, Text.startsWith in *.
  by destruct (Text.strip_prefix "rgb(" color).
Qed.


(** ** Resuming *)

(** X23.  [play] on an engine that is not playing reads the clock three
    times: the first reading, less the current time in milliseconds, is
    the new clock origin, whatever the playback rate; the second is
    stored in [_lastFrameTime]; the third is the instant of the first
    tick, which [play] runs at once.  Unless that tick reaches the
    duration, the current time that [play] leaves is the time elapsed
    from the new origin to the third reading, in seconds, times the
    rate; the [play] event is dispatched before anything else, and the
    engine is playing. *)
Theorem play_resumes_from_the_current_time (w : World) :
  State.playing (state (this w)) = false ->
  let origin :=
    clock w (clock_reads w) - State.currentTime (state (this w)) * 1000 in
  let elapsed :=
    (clock w (S (S (clock_reads w))) - origin) / 1000
    * State.playbackRate (state (this w)) in
  (State.duration (state (this w)) <=? elapsed) = false ->
  let w' := (play w).1 in
  _startTime (this w') = origin
  /\ _lastFrameTime (this w') = clock w (S (clock_reads w))
  /\ State.currentTime (state (this w')) = elapsed
  /\ State.playing (state (this w')) = true
  /\ (dispatched w ++ [{| event_type := "play"; detail := NoDetail |}])%list
     `prefix_of` dispatched w'.
Proof.
  intros Hpaused origin elapsed Hbefore. cbv zeta.
  unfold play, mbind, M_bind, bind, gets, modify_state, modify,
    performance_now, emit, ret.
  cbn -[animate]. rewrite Hpaused. cbn -[animate].
  match goal with |- context [animate ?x] => set (wp := x) end.
  assert (tick_elapsed wp = elapsed) as Helapsed by reflexivity.
  assert ((State.duration (state (this wp)) <=? tick_elapsed wp) = false)
    as Hgoes by (by rewrite Helapsed).
  rewrite (animate_unfold wp eq_refl (or_intror Hgoes)).
  assert (tick_sampling wp
          = set_this (set_state (State.set_currentTime elapsed
                                   (state (this wp))) (this wp))
                     (set_clock_reads (S (clock_reads wp)) wp)) as Hworld.
  { unfold tick_sampling. by rewrite Hgoes, Helapsed. }
  match goal with
  | |- context [updateAnimations ?t ?x] =>
      pose proof (sampled_updateAnimations t x) as [Hrest _];
      destruct (updateAnimations t x) as [w2 [[]|e2]]
  end; cbn [fst snd] in *; unfold untouched_by_sampling in Hrest;
    rewrite Hworld in Hrest; simpl in Hrest;
    injection Hrest as _ Es _ _ _ _ _ _ El Est _ Ed _ _ _ _;
    simpl; rewrite ?Es, ?El, ?Est, ?Ed; split_and!; try done.
  by apply prefix_app_r.
Qed.

(** ** The start of a cubic-bezier curve *)

Lemma times_zero (x z : float) (s : bool) :
  finite x = true -> Prim2SF z = S754_zero s ->
  exists s', Prim2SF (x * z) = S754_zero s'.
Proof.
  unfold finite. intros Hx Hz. rewrite FloatAxioms.mul_spec, Hz.
  destruct (Prim2SF x) as [sx|sx| |sx m e]; try done; simpl; eauto.
Qed.

Lemma zero_plus (z b : float) (s : bool) :
  Prim2SF z = S754_zero s -> finite b = true -> finite (z + b) = true.
Proof.
  unfold finite. intros Hz Hb. rewrite FloatAxioms.add_spec, Hz.
  destruct (Prim2SF b) as [sb|sb| |sb m e]; try done; simpl.
  by destruct s, sb.
Qed.

(** The cubic [((a t + b) t + c) t] at 0 is a zero. *)
Lemma sampleCurve_at_zero (a b c : float) :
  finite a = true -> finite b = true -> finite c = true ->
  exists s, Prim2SF (((a * 0 + b) * 0 + c) * 0) = S754_zero s.
Proof.
  intros Ha Hb Hc.
  destruct (times_zero a 0 false Ha eq_refl) as [s1 H1].
  pose proof (zero_plus _ b _ H1 Hb) as H2.
  destruct (times_zero _ 0 false H2 eq_refl) as [s3 H3].
  pose proof (zero_plus _ c _ H3 Hc) as H4.
  exact (times_zero _ 0 false H4 eq_refl).
Qed.

Lemma newton_at_zero (fuel : nat) (a b c : float) :
  finite a = true -> finite b = true -> finite c = true ->
  newton fuel a b c 0 0 = 0.
Proof.
  intros Ha Hb Hc. destruct fuel as [|fuel]; [reflexivity|].
  destruct (sampleCurve_at_zero a b c Ha Hb Hc) as [s Hs].
  cbn [newton].
  assert ((Num.Math_abs (((a * 0 + b) * 0 + c) * 0 - 0) <? 0.001) = true)
    as ->;
    [|reflexivity].
  unfold Num.Math_abs.
  rewrite FloatAxioms.ltb_spec, FloatAxioms.abs_spec, FloatAxioms.sub_spec, Hs.
  by destruct s.
Qed.

(** X24.  Every cubic-bezier curve starts at zero.  When the six
    coefficients that [cubicBezier] computes from the control points are
    finite, the iteration stops at once for the input 0 and the value
    returned is a zero: an eased progress of 0 at the start of the
    curve. *)
Theorem cubicBezier_starts_at_zero (x1 y1 x2 y2 : float) :
  let cx := 3 * x1 in
  let bx := 3 * (x2 - x1) - cx in
  let ax := 1 - cx - bx in
  let cy := 3 * y1 in
  let b_y := 3 * (y2 - y1) - cy in
  let ay := 1 - cy - b_y in
  finite ax = true -> finite bx = true -> finite cx = true ->
  finite ay = true -> finite b_y = true -> finite cy = true ->
  is_zero (cubicBezier x1 y1 x2 y2 0) = true.
Proof.
  intros cx bx ax cy b_y ay Hax Hbx Hcx Hay Hby Hcy.
  unfold cubicBezier. fold cx bx ax cy b_y ay. cbv zeta.
  rewrite (newton_at_zero 4 ax bx cx Hax Hbx Hcx).
  destruct (sampleCurve_at_zero ay b_y cy Hay Hby Hcy) as [s Hs].
  unfold is_zero. rewrite FloatAxioms.eqb_spec, Hs. by destruct s.
Qed.

(** ** Exporting a frame *)

Lemma pause_playing (w : World) :
  State.playing (state (this w)) = true ->
  State.duration (state (this (pause w).1)) = State.duration (state (this w))
  /\ svgContent (this (pause w).1) = svgContent (this w)
  /\ timeline (this (pause w).1) = timeline (this w).
Proof.
  intros Hplaying.
  unfold pause, mbind, M_bind, bind, gets, modify_state, modify, emit,
    cancelAnimationFrame, ret.
  simpl. rewrite Hplaying. simpl.
  by destruct (_animationFrame (this w)).
Qed.

Lemma seek_keeps (time : float) (w : World) :
  State.playing (state (this (seek time w).1)) = State.playing (state (this w))
  /\ svgContent (this (seek time w).1) = svgContent (this w).
Proof.
  rewrite seek_unfold. cbv zeta. set (t := Num.Math_max 0 _).
  pose proof (sampled_updateAnimations t (seek_anchored time w)) as [Hrest _].
  unfold untouched_by_sampling in Hrest.
  destruct (updateAnimations t (seek_anchored time w)) as [w2 [[]|e]];
    simpl in *; injection Hrest as _ Es _ Ec _ _ _ _ _ _ _ _ _ _ _ _;
    by rewrite Es, Ec.
Qed.

Lemma seek_completes_without_content (time : float) (w : World) :
  svgContent (this w) = None -> (seek time w).2 = Normal tt.
Proof.
  intros Hnone. rewrite seek_unfold. cbv zeta.
  rewrite updateAnimations_leaves.
  assert (svgContent (this (seek_anchored time w)) = None) as -> by done.
  by destruct (timeline (this (seek_anchored time w))).
Qed.

(** X25.  [exportFrame] moves the playhead and may stop playback for
    good.  On a playing engine it pauses and seeks: whatever the sample
    does, the engine is left paused at the requested time, clamped to
    the duration, and it is only the callback handed to [render] that
    plays again, from that time and not from where playback stood.
    Without an SVG content [render] drops the callback: the export
    completes, and nothing ever resumes the engine. *)
Theorem exportFrame_moves_the_playhead (time : float) (w : World) :
  State.playing (state (this w)) = true ->
  let run := exportFrame time w in
  State.playing (state (this run.1)) = false
  /\ State.currentTime (state (this run.1))
     = Num.Math_max 0 (Num.Math_min time (State.duration (state (this w))))
  /\ match svgContent (this w) with
     | Some _ => run.2 = Normal (Some true) \/ exists e, run.2 = Throw e
     | None => run.2 = Normal None
     end
  /\ exportFrame_resume true run.1 = play run.1.
Proof.
  intros Hplaying. cbv zeta.
  destruct (pause_playing w Hplaying) as (Hduration & Hcontent & _).
  pose proof (pause_clears_playing w) as Hpaused.
  pose proof (pause_completes w) as Hp.
  unfold exportFrame. rewrite bind_run, gets_run, Hplaying. cbv beta iota.
  rewrite bind_run.
  destruct (pause w) as [w1 [[]|e]]; [|discriminate]. cbn [fst snd] in *.
  rewrite bind_run.
  pose proof (seek_currentTime time w1) as Htime.
  destruct (seek_keeps time w1) as [Hstill Hsame].
  pose proof (seek_completes_without_content time w1) as Hdone.
  rewrite Hduration in Htime. rewrite Hpaused in Hstill.
  rewrite Hcontent in Hsame, Hdone.
  destruct (seek time w1) as [w2 [[]|e]]; cbn [fst snd] in *.
  - rewrite bind_run, gets_run. cbv beta iota. unfold ret. cbn [fst snd].
    rewrite Hsame. split_and!; try done.
    destruct (svgContent (this w)); [by left | done].
  - split_and!; try done.
    destruct (svgContent (this w)); [right; by exists e|].
    by specialize (Hdone eq_refl).
Qed.

(** ** Switching the state *)

(** X26.  [setState] on an id that names no state does nothing at all,
    and dispatches nothing.  On a known id it completes: the timeline
    becomes what [parseTimeline] reads from the children of the state
    element, the current time becomes 0, the clock origin the instant of
    the call, and one [statechange] event is dispatched.  It samples
    nothing and recomputes nothing: the documents, the target cache, the
    playing flag, the pending frames and the total duration that the
    load computed are as before. *)
Theorem setState_swaps_the_timeline_only (stateId : string) (w : World) :
  let w' := (setState stateId w).1 in
  (setState stateId w).2 = Normal tt
  /\ match states (this w) !! stateId with
     | None => w' = w
     | Some stateEl =>
         timeline (this w') = Some (parseTimeline stateEl)
         /\ State.currentState (state (this w')) = Some stateId
         /\ State.currentTime (state (this w')) = 0
         /\ _startTime (this w') = clock w (clock_reads w)
         /\ dispatched w'
            = (dispatched w
               ++ [{| event_type := "statechange";
                      detail := StateDetail stateId |}])%list
         /\ State.duration (state (this w')) = State.duration (state (this w))
         /\ State.playing (state (this w')) = State.playing (state (this w))
         /\ documents w' = documents w
         /\ targetCache (this w') = targetCache (this w)
         /\ frames w' = frames w
     end.
Proof.
  cbv zeta.
  unfold setState, mbind, M_bind, bind, gets, modify_state, modify,
    performance_now, emit, ret.
  simpl. by destruct (states (this w) !! stateId).
Qed.

(** ** Telling the animations apart *)

Lemma lower_idempotent (c : ascii) : Text.lower (Text.lower c) = Text.lower c.
Proof. by destruct c as [[] [] [] [] [] [] [] []]. Qed.

Lemma toLowerCase_idempotent (s : string) :
  Text.toLowerCase (Text.toLowerCase s) = Text.toLowerCase s.
Proof.
  induction s as [|c s IH]; [reflexivity|].
  simpl. by rewrite lower_idempotent, IH.
Qed.

Lemma parseTimeline_loop_omap (kids : list Element) :
  parseTimeline_loop kids = omap (fun child => parseAnimation child 0) kids.
Proof.
  induction kids as [|kid kids IH]; [reflexivity|].
  simpl. rewrite IH. by destruct kid.
Qed.

(** X27.  The kind of an animation is read from the tag name without
    regard to case: an element parses as the element with its tag in
    lower case does.  [parseTimeline] keeps, in order, the children that
    [parseAnimation] accepts, each parsed with the parent start 0, and
    drops the others without an error. *)
Theorem animations_are_told_apart_by_tag (tag : string)
    (attrs : list (string * string)) (kids : list Element)
    (parentStart : float) :
  parseAnimation (Node tag attrs kids) parentStart
  = parseAnimation (Node (Text.toLowerCase tag) attrs kids) parentStart
  /\ parseTimeline (Node tag attrs kids)
     = omap (fun child => parseAnimation child 0) kids.
Proof.
  split; [|apply parseTimeline_loop_omap].
  simpl. by rewrite toLowerCase_idempotent.
Qed.

(** ** Selectors that cannot be resolved *)

(** X28.  A selector that [querySelectorAll] refuses is never cached.
    When [getTargets] raises, the engine is exactly as it was, so the
    next call on the same selector asks the document again and raises
    again. *)
Theorem unresolvable_selector_is_never_cached (selector : option string)
    (w w' : World) (e : Exception) :
  getTargets selector w = (w', Throw e) ->
  w' = w /\ getTargets selector w' = (w', Throw e).
Proof.
  intros Hfails. assert (w' = w) as ->; [|by split].
  revert Hfails.
  unfold getTargets, mbind, M_bind, bind, gets, ret, modify. simpl.
  destruct (Text.truthy selector) as [sel|]; [|discriminate].
  destruct (svgContent (this w)) as [root|]; [|discriminate].
  destruct (targetCache (this w) !! sel) as [hit|]; [discriminate|].
  unfold node_querySelectorAll.
  destruct (element_at root w) as [el|]; [|discriminate].
  destruct (select el sel); [discriminate|].
  by intros [= <- _].
Qed.

End Properties.

(** * Worked examples, on the fixture host *)

Import Fixture.

(** ** Durations *)

(** C6 (as amended).  The duration that the parser gives a sequence is
    what its children's durations, added in order onto the start of the
    sequence, come to, less that start: the sum of the children in order
    for a sequence that starts at 0, and a double that can differ from
    it in the last place for one that starts later.  The duration of a
    parallel group and of a set is the maximum of those of its children,
    from 0 on.  [calcAnimDuration] aggregates the same way over
    durations multiplied by the effective iteration count, and raises
    [maxEnd] to the maximum over all leaves of
    [start + duration * effective iteration count].  The total duration
    is the override when it is a number other than 0 and NaN (an
    override of 0 s is taken as none), else that maximum, taken from 0
    on, over the leaves of the timeline.  The effective iteration count
    is 1 for an infinite repeat, else the whole number that the repeat
    count reads as, and 1 where that is 0 or no number.  Sums and maxima
    are those of doubles, in the order of the children.  Children
    lasting 1, 2 and 3 seconds give 6 in a sequence that starts at 0,
    6.0000000000000009 in one that starts at 2.3 s, and 3 in parallel or
    in a set; a leaf of 2 s that starts at 1 s and repeats 3 times ends
    at 7 s. *)
Theorem durations_aggregate :
  (forall (host : Host) el parentStart,
     anim_duration (parseSequence el parentStart)
     = (fold_left add
          (map anim_duration (group_children (parseSequence el parentStart)))
          parentStart - parentStart)%float)
  /\ (forall (host : Host) el,
        anim_duration (parseSequence el 0)
        = fold_left add
            (map anim_duration (group_children (parseSequence el 0)))
            0%float)
  /\ (forall (host : Host) el parentStart,
        anim_duration (parseParallel el parentStart)
        = fold_left Num.Math_max
            (map anim_duration (group_children (parseParallel el parentStart)))
            0%float)
  /\ (forall (host : Host) el parentStart,
        anim_duration (parseAnimateSet el parentStart)
        = fold_left Num.Math_max
            (map anim_duration (group_children (parseAnimateSet el parentStart)))
            0%float)
  /\ (forall (host : Host) anim maxEnd,
        calcAnimDuration anim maxEnd
        = (aggregate anim,
           fold_left Num.Math_max (map leaf_end (leaves anim)) maxEnd))
  /\ (forall (host : Host) (e : Engine),
        calculateDuration e
        = if Num.truthy (Options.duration (options e))
          then Options.duration (options e)
          else fold_left Num.Math_max
                 (map leaf_end (flat_map leaves (default [] (timeline e))))
                 0%float)
  /\ (forall (host : Host) l,
        iterations_of l = effective_iterations (repeat l)
        /\ iterations_of (with_repeat (RepeatNumber infinity) l) = 1%float
        /\ iterations_of (with_repeat (RepeatString "infinite") l) = 1%float)
  /\ (anim_duration (parseSequence (Node "sequence" [] three_children) 0) = 6%float
      /\ aggregate (parseSequence (Node "sequence" [] three_children) 0) = 6%float
      /\ anim_duration (parseParallel (Node "parallel" [] three_children) 0) = 3%float
      /\ aggregate (parseParallel (Node "parallel" [] three_children) 0) = 3%float
      /\ anim_duration (parseAnimateSet (Node "animate-set" [] three_children) 0)
         = 3%float
      /\ aggregate (parseAnimateSet (Node "animate-set" [] three_children) 0)
         = 3%float)
  /\ (map anim_duration (group_children (parseSequence staggered 0))
      = [0x1.2666666666666p+1%float; 0x1.8000000000001p+2%float]
      /\ map aggregate (group_children (parseSequence staggered 0))
         = [0x1.2666666666666p+1%float; 6%float])
  /\ (iterations_of (parseAnimate (repeated "3") 0) = 3%float
      /\ iterations_of (parseAnimate (repeated "2.7") 0) = 2%float
      /\ iterations_of (parseAnimate (repeated "0") 0) = 1%float
      /\ iterations_of (parseAnimate (repeated "often") 0) = 1%float
      /\ iterations_of (parseAnimate (repeated "infinite") 0) = 1%float
      /\ iterations_of
           (parseAnimateTransform
              (Node "animate-transform" [("repeat", "3")] []) 0) = 3%float
      /\ iterations_of (parseMorph (Node "morph" [] []) 0) = 1%float)
  /\ (total_of (timed [] (repeated "3")) = 7%float
      /\ total_of (timed [] (repeated "infinite")) = 3%float
      /\ total_of (timed [("duration", "5s")] (repeated "3")) = 5%float
      /\ total_of (timed [("duration", "0s")] (repeated "3")) = 7%float
      /\ total_of (timed [] (Node "sequence" [] three_children)) = 6%float
      /\ total_of (timed [] (Node "parallel" [] three_children)) = 3%float).
Proof.
  assert (forall (host : Host) el parentStart,
     anim_duration (parseSequence el parentStart)
     = (fold_left add
          (map anim_duration (group_children (parseSequence el parentStart)))
          parentStart - parentStart)%float) as Hsequence.
  { intros host el parentStart. unfold parseSequence, sequence_of.
    pose proof (sequence_loop_spec parseAnimation (children el) parentStart)
      as H.
    destruct (sequence_loop parseAnimation (children el) parentStart)
      as [animations final]. simpl in *. by rewrite H. }
  split_and!; [ | | | | | | | vm_compute; reflexivity ..].
  - exact Hsequence.
  - intros host el. rewrite (Hsequence host el 0%float). apply sub_zero.
  - intros host el parentStart. unfold parseParallel, parallel_of.
    pose proof (parallel_loop_spec parseAnimation parentStart None
                  (children el) 0%float) as H.
    destruct (parallel_loop parseAnimation parentStart None (children el) _)
      as [animations final]. exact H.
  - intros host el parentStart. unfold parseAnimateSet, animate_set_of.
    pose proof (parallel_loop_spec parseAnimation parentStart
                  (Some (getAttribute el "target")) (children el) 0%float) as H.
    destruct (parallel_loop parseAnimation parentStart _ (children el) _)
      as [animations final]. exact H.
  - intros host anim maxEnd. apply calcAnimDuration_spec.
  - intros host e. unfold calculateDuration, Num.or_else.
    destruct (Num.truthy _); [reflexivity|].
    destruct (timeline e) as [timeline|];
      [apply timeline_maxEnd_spec | reflexivity].
  - intros host l. split; [apply iterations_of_effective|].
    split; reflexivity.
Qed.

(** Counterexample to C6 as stated: in the timeline whose one node is
    [staggered], the inner sequence follows a child of 2.3 s, so it is
    parsed at the start 2.3.  Its children last 1, 2 and 3 seconds and
    their sum is 6, but the duration it is given is
    [((2.3 + 1) + 2) + 3 - 2.3], which is 6.0000000000000009 in
    doubles. *)
Lemma nested_sequence_is_off_the_sum :
  ~ durations_add_up (Node "timeline" [] [staggered]).
Proof.
  unfold durations_add_up.
  replace (parseTimeline (Node "timeline" [] [staggered]))
    with [parseSequence staggered 0] by (vm_compute; reflexivity).
  intros Hclaim. apply Forall_inv in Hclaim.
  assert (exists g leaf g' kids,
            parseSequence staggered 0 = AGroup g [leaf; AGroup g' kids]
            /\ group_type g' = sequence
            /\ group_duration g' <> fold_left add (map anim_duration kids) 0)
    as (g & leaf & g' & kids & Hparsed & Hkind & Hoff).
  { do 4 eexists. split; [vm_compute; reflexivity|].
    split; [reflexivity|].
    intros Heq. apply (f_equal Prim2SF) in Heq. vm_compute in Heq.
    discriminate Heq. }
  rewrite Hparsed in Hclaim. simpl in Hclaim.
  destruct Hclaim as (_ & _ & (Hinner & _) & _).
  exact (Hoff (Hinner Hkind)).
Qed.

(** ** C1: a finished leaf under the fill policy [freeze] *)

(** Counterexample to C1 as stated: the leaf [frozen] runs from 0 s to 1 s
    once and has the fill policy [freeze]; sampled at 1.5 s it is
    finished, and the radius of the circle stays at 20 where a sample at
    the final progress would have written 80. *)
Lemma freeze_is_not_reemitted :
  ~ freeze_reemits frozen 1.5 (loaded (grow [])).
Proof.
  intros Hclaim.
  assert (finished frozen 1.5) as Hfinished
    by (split; vm_compute; reflexivity).
  assert (fill frozen = Some "freeze") as Hfill by (vm_compute; reflexivity).
  specialize (Hclaim Hfinished Hfill).
  apply (read_attribute_documents circle "r") in Hclaim.
  vm_compute in Hclaim. discriminate Hclaim.
Qed.

Lemma finished_leaf_is_not_written_witness :
  finished frozen 1.5
  /\ (calculateProgress frozen 1.5 = 2
      /\ forall policy,
           documents (updateAnimate (with_fill policy frozen) 1.5
                                    (loaded (grow []))).1
           = documents (loaded (grow []))
           /\ documents (update_leaf (with_fill policy frozen) 1.5
                                     (loaded (grow []))).1
              = documents (loaded (grow []))).
Proof.
  split; [split; vm_compute; reflexivity|].
  apply (finished_leaf_is_not_written frozen 1.5 (loaded (grow []))).
  split; vm_compute; reflexivity.
Defined.

(** ** C2: a leaf of duration zero *)

(** Counterexample to C2 as stated: sampled one second after its start,
    the leaf [instant] is not active with progress 1; the evaluator
    answers the sentinel 2. *)
Lemma zero_duration_is_not_active :
  ~ instantaneous instant 1 (loaded (grow [])).
Proof.
  intros [Hprogress _]. apply (f_equal Prim2SF) in Hprogress.
  vm_compute in Hprogress. discriminate Hprogress.
Qed.

Lemma zero_duration_leaf_is_finished_witness :
  duration instant = 0
  /\ (0 <? 1 - start instant) = true
  /\ is_nan (repeat_number (repeat instant)) = false
  /\ (calculateProgress instant 1 = 2
      /\ documents (updateAnimate instant 1 (loaded (grow []))).1
         = documents (loaded (grow []))
      /\ documents (update_leaf instant 1 (loaded (grow []))).1
         = documents (loaded (grow []))).
Proof.
  split; [vm_compute; reflexivity|]. split; [vm_compute; reflexivity|].
  split; [vm_compute; reflexivity|].
  apply (zero_duration_leaf_is_finished instant 1 (loaded (grow [])));
    vm_compute; reflexivity.
Defined.

(** ** C8: the progress that reaches the easing *)

(** C8, at a leaf of duration zero sampled at its start (what [stop()]
    and [seek(0)] do).  The relative time is 0, the iteration index is
    [0 / 0], and the progress is NaN: it passes the test
    [progress < 0 || progress > 1], is handed to the easing, and the
    attribute is written, with the text NaN. *)
Theorem nan_progress_reaches_easing :
  duration instant = 0
  /\ calculateProgress instant 0 = nan
  /\ (calculateProgress instant 0 <? 0) || (1 <? calculateProgress instant 0)
     = false
  /\ applyEasing (calculateProgress instant 0) (easing instant)
     = Normal (JNumber nan)
  /\ read_attribute circle "r" (loaded (grow [])) = Some "20"
  /\ read_attribute circle "r" (updateAnimate instant 0 (loaded (grow []))).1
     = Some "NaN"
  /\ read_attribute circle "r" (stop (loaded (grow []))).1 = Some "NaN".
Proof. split_and!; vm_compute; reflexivity. Qed.

(** The parts of C8 that hold: the progress of the reverse-parity example
    is 0.75. *)
Example reverse_parity :
  calculateProgress
    (parseAnimate (grow [("duration", "1s"); ("reverse", "true");
                         ("repeat", "infinite")]) 0) 1.25
  = 0.75.
Proof. vm_compute. reflexivity. Qed.

(** ** C3: changing the playback rate *)

(** Counterexample to C3 as stated: the engine plays at rate 1 with its
    origin at 0 ms and the clock about to read 750 ms.  A tick now sets
    the current time to 0.75 s; after the rate is set to 2, a tick at the
    same instant sets it to 1.5 s. *)
Lemma rate_change_rescales_elapsed_time :
  ~ rate_change_keeps_time 2 (playing pulsing).
Proof.
  unfold rate_change_keeps_time. intros Hclaim.
  apply (f_equal Prim2SF) in Hclaim. vm_compute in Hclaim.
  discriminate Hclaim.
Qed.

Lemma set_playbackRate_rescales_witness :
  State.playing (state (this (playing pulsing))) = true
  /\ (State.duration (state (this (playing pulsing)))
      <=? (clock (playing pulsing) (clock_reads (playing pulsing))
           - _startTime (this (playing pulsing))) / 1000 * 2) = false
  /\ (let w' := (set_playbackRate 2 (playing pulsing)).1 in
      State.playbackRate (state (this w')) = 2
      /\ State.currentTime (state (this w'))
         = State.currentTime (state (this (playing pulsing)))
      /\ _startTime (this w') = _startTime (this (playing pulsing))
      /\ State.currentTime (state (this (animate w').1))
         = (clock (playing pulsing) (clock_reads (playing pulsing))
            - _startTime (this (playing pulsing))) / 1000 * 2).
Proof.
  split; [vm_compute; reflexivity|]. split; [vm_compute; reflexivity|].
  apply (set_playbackRate_rescales 2 (playing pulsing));
    vm_compute; reflexivity.
Defined.

(** ** C4: the target cache across a rebuild *)

(** Counterexample to C4 as stated: the engine has played the first
    document, so [#circle] is cached; then the second document is loaded
    into the same instance.  [#circle] still resolves to the circle of
    the first document, not to the one of the new [svgContent]. *)
Lemma cache_survives_rebuild :
  ~ rebuild_invalidates second_document "#circle" (playing pulsing).
Proof.
  intros Hclaim.
  assert (svgContent (this (parseElement second_document (playing pulsing)).1)
          = Some {| document := 1; path := [] |}) as Hroot
    by (vm_compute; reflexivity).
  specialize (Hclaim _ Hroot).
  vm_compute in Hclaim. discriminate Hclaim.
Qed.

Lemma target_cache_lifetime_witness :
  let w := loaded pulsing in
  let w1 := (getTargets (Some "#circle") w).1 in
  getTargets (Some "#circle") w = (w1, Normal [circle])
  /\ (getTargets (Some "#circle") w1 = (w1, Normal [circle])
      /\ (forall sel,
            Text.truthy (Some "#circle") = Some sel ->
            is_Some (svgContent (this w)) ->
            targetCache (this w1) !! sel = Some [circle])
      /\ (forall w2,
            is_Some (svgContent (this w)) ->
            is_Some (svgContent (this w2)) ->
            cache_kept w1 w2 ->
            getTargets (Some "#circle") w2 = (w2, Normal [circle]))
      /\ (forall stateId, cache_kept w1 (setState stateId w1).1)
      /\ (forall element, cache_kept w1 (parseElement element w1).1)
      /\ (forall time, cache_kept w1 (seek time w1).1)
      /\ cache_kept w1 (animate w1).1
      /\ cache_kept w1 (play w1).1
      /\ cache_kept w1 (pause w1).1
      /\ cache_kept w1 (stop w1).1
      /\ (forall element,
            let w2 := (parseElement element w1).1 in
            is_Some (svgContent (this w)) ->
            is_Some (svgContent (this w2)) ->
            getTargets (Some "#circle") w2 = (w2, Normal [circle]))
      /\ (forall stateId,
            let w2 := (setState stateId w1).1 in
            is_Some (svgContent (this w)) ->
            is_Some (svgContent (this w2)) ->
            getTargets (Some "#circle") w2 = (w2, Normal [circle]))
      /\ ((destroy w1).2 = Normal tt -> targetCache (this (destroy w1).1) = ∅)
      /\ ([circle] = [] ->
          forall anim time body,
            target anim = Some "#circle" ->
            with_progress anim time body w = (w1, Normal tt))).
Proof.
  intros w w1.
  assert (getTargets (Some "#circle") w = (w1, Normal [circle])) as Hresolved.
  { replace (Normal [circle]) with (getTargets (Some "#circle") w).2
      by (vm_compute; reflexivity).
    apply surjective_pairing. }
  split; [exact Hresolved|].
  apply (target_cache_lifetime (Some "#circle") w w1 [circle]).
  exact Hresolved.
Defined.

(** ** C5: a fault inside a tick *)

(** Counterexample to C5 as stated: the third tick samples the
    translation at its start, [interpolateTransform] reads [from.split]
    of [null], and the TypeError leaves [animate] uncaught: no [error]
    event, and the engine still counts as playing. *)
Lemma tick_fault_is_not_contained : ~ fault_is_contained before_fault.
Proof.
  intros Hclaim.
  assert (updateAnimations
            (State.currentTime (state (this (tick_sampling before_fault))))
            (tick_sampling before_fault)
          = ((updateAnimations 1 (tick_sampling before_fault)).1,
             Throw split_of_null))
    as Hfault.
  { replace (Throw split_of_null)
      with (updateAnimations
              (State.currentTime (state (this (tick_sampling before_fault))))
              (tick_sampling before_fault)).2
      by (vm_compute; reflexivity).
    replace 1 with (State.currentTime (state (this (tick_sampling before_fault))))
      by (vm_compute; reflexivity).
    apply surjective_pairing. }
  destruct (Hclaim _ _ Hfault) as [Hnormal _].
  vm_compute in Hnormal. discriminate Hnormal.
Qed.

Lemma tick_fault_propagates_witness :
  animate before_fault
  = ((animate before_fault).1,
     Throw split_of_null)
  /\ (State.playing (state (this (animate before_fault).1)) = true
      /\ dispatched (animate before_fault).1 = dispatched before_fault
      /\ frames (animate before_fault).1 = frames before_fault
      /\ _animationFrame (this (animate before_fault).1)
         = _animationFrame (this before_fault)).
Proof.
  assert (animate before_fault
          = ((animate before_fault).1,
             Throw split_of_null))
    as Hfault.
  { replace (Throw split_of_null)
      with (animate before_fault).2 by (vm_compute; reflexivity).
    apply surjective_pairing. }
  split; [exact Hfault|].
  apply (tick_fault_propagates before_fault (animate before_fault).1
           split_of_null).
  exact Hfault.
Defined.

(** ** C9: what [seek] changes *)


(** * Further properties, on the fixture host *)

Lemma parseTime_units_witness :
  "1.5" <> ""
  /\ Text.forallb Text.is_digit_or_dot "1.5" = true
  /\ (parseTime "1.5" = parseFloat "1.5"
      /\ parseTime ("1.5" ++ "s") = parseFloat "1.5"
      /\ parseTime ("1.5" ++ "ms") = parseFloat "1.5" / 1000
      /\ parseTime ("1.5" ++ "m") = parseFloat "1.5" * 60).
Proof.
  split; [discriminate|]. split; [reflexivity|].
  apply (parseTime_units "1.5"); [discriminate | reflexivity].
Defined.

Lemma parseTime_rejects_witness :
  Text.forallb Text.is_digit_or_dot "2" = true
  /\ starts_outside Text.is_digit_or_dot "h" = true
  /\ ("2" = "" \/ ("h" <> "" /\ "h" <> "ms" /\ "h" <> "s" /\ "h" <> "m"))
  /\ parseTime ("2" ++ "h") = 0.
Proof.
  assert ("2" = "" \/ ("h" <> "" /\ "h" <> "ms" /\ "h" <> "s" /\ "h" <> "m"))
    as Hbad by (right; split_and!; discriminate).
  split; [reflexivity|]. split; [reflexivity|]. split; [exact Hbad|].
  apply (parseTime_rejects "2" "h"); [reflexivity | reflexivity | exact Hbad].
Defined.

Lemma untargeted_leaf_is_skipped_witness :
  Text.truthy (target untargeted) = None
  /\ (update_leaf untargeted 0.5 (loaded silent)
      = (loaded silent, Normal tt)
      /\ forall root,
           timeline (this (loaded silent)) = Some [ALeaf untargeted] ->
           svgContent (this (loaded silent)) = Some root ->
           updateAnimations 0.5 (loaded silent) = (loaded silent, Normal tt)).
Proof.
  split; [reflexivity|].
  apply (untargeted_leaf_is_skipped untargeted 0.5 (loaded silent)).
  reflexivity.
Defined.

Lemma playback_ends_without_a_last_sample_witness :
  State.playing (state (this ending)) = true
  /\ (State.duration (state (this ending)) <=? tick_elapsed ending) = true
  /\ Options.loop (options (this ending)) = false
  /\ (let w' := (animate ending).1 in
      (animate ending).2 = Normal tt
      /\ State.currentTime (state (this w')) = State.duration (state (this ending))
      /\ State.playing (state (this w')) = false
      /\ _animationFrame (this w') = None
      /\ frames w'
         = match _animationFrame (this ending) with
           | Some handle => filter (fun h => h <> handle) (frames ending)
           | None => frames ending
           end
      /\ dispatched w'
         = (dispatched ending
            ++ [{| event_type := "pause"; detail := NoDetail |};
                {| event_type := "end"; detail := NoDetail |}])%list
      /\ documents w' = documents ending
      /\ targetCache (this w') = targetCache (this ending)).
Proof.
  split; [vm_compute; reflexivity|]. split; [vm_compute; reflexivity|].
  split; [vm_compute; reflexivity|].
  apply (playback_ends_without_a_last_sample ending); vm_compute; reflexivity.
Defined.

Lemma playback_loops_from_zero_witness :
  State.playing (state (this looping)) = true
  /\ (State.duration (state (this looping)) <=? tick_elapsed looping) = true
  /\ Options.loop (options (this looping)) = true
  /\ (let w' := (animate looping).1 in
      State.currentTime (state (this w')) = 0
      /\ _startTime (this w') = clock looping (clock_reads looping)
      /\ State.playing (state (this w')) = true
      /\ documents w' = documents (updateAnimations 0 (tick_sampling looping)).1
      /\ ((updateAnimations 0 (tick_sampling looping)).2 = Normal tt ->
          (animate looping).2 = Normal tt
          /\ dispatched w'
             = (dispatched looping
                ++ [{| event_type := "update"; detail := TimeDetail 0 |}])%list
          /\ frames w' = (frames looping ++ [S (last_frame looping)])%list
          /\ _animationFrame (this w') = Some (S (last_frame looping)))).
Proof.
  split; [vm_compute; reflexivity|]. split; [vm_compute; reflexivity|].
  split; [vm_compute; reflexivity|].
  apply (playback_loops_from_zero looping); vm_compute; reflexivity.
Defined.

Lemma seek_clamps_the_time_witness :
  is_nan (State.duration (state (this (loaded pulsing)))) = false
  /\ (0 <=? State.duration (state (this (loaded pulsing)))) = true
  /\ (let t' := State.currentTime (state (this (seek 12 (loaded pulsing)).1)) in
      if is_nan 12 then is_nan t' = true
      else (0 <=? t') = true
           /\ (t' <=? State.duration (state (this (loaded pulsing)))) = true).
Proof.
  split; [vm_compute; reflexivity|]. split; [vm_compute; reflexivity|].
  apply (seek_clamps_the_time 12 (loaded pulsing)); vm_compute; reflexivity.
Defined.

Lemma updateAnimate_writes_the_interpolation_witness :
  let w := loaded (grow []) in
  let w1 := (getTargets (target frozen) w).1 in
  getTargets (target frozen) w = (w1, Normal [circle])
  /\ (calculateProgress frozen 0.5 <? 0) || (1 <? calculateProgress frozen 0.5)
     = false
  /\ applyEasing (calculateProgress frozen 0.5) (easing frozen)
     = Normal (JNumber 0.5)
  /\ Text.truthy (from frozen) = Some "20"
  /\ valid_name (Text.of_nullable (attribute frozen)) = true
  /\ (let name := Text.of_nullable (attribute frozen) in
      let from := parseFloat "20" in
      let to :=
        parseFloat (default (Number_toString from) (Text.truthy (to frozen))) in
      let value := Number_toString (from + (to - from) * ToNumber (JNumber 0.5)) in
      let w' := (updateAnimate frozen 0.5 w).1 in
      (updateAnimate frozen 0.5 w).2 = Normal tt
      /\ (forall n, n ∈ [circle] -> is_Some (element_at n w) ->
                    read_attribute n name w' = Some value)
      /\ (forall n name', n ∉ [circle] \/ name' <> name ->
                          read_attribute n name' w' = read_attribute n name' w)).
Proof.
  intros w w1.
  assert (getTargets (target frozen) w = (w1, Normal [circle])) as Hget.
  { replace (Normal [circle]) with (getTargets (target frozen) w).2
      by (vm_compute; reflexivity).
    apply surjective_pairing. }
  split; [exact Hget|]. split; [vm_compute; reflexivity|].
  split; [vm_compute; reflexivity|]. split; [reflexivity|].
  split; [reflexivity|].
  apply (updateAnimate_writes_the_interpolation frozen 0.5 w w1 [circle] "20"
           (JNumber 0.5));
    [exact Hget | vm_compute; reflexivity | vm_compute; reflexivity
    | reflexivity | reflexivity].
Defined.

Lemma additive_transforms_pile_up_witness :
  let w := loaded (grow []) in
  let w1 := (getTargets (target sliding) w).1 in
  getTargets (target sliding) w = (w1, Normal [circle])
  /\ (calculateProgress sliding 0.5 <? 0) || (1 <? calculateProgress sliding 0.5)
     = false
  /\ applyEasing (calculateProgress sliding 0.5) (easing sliding)
     = Normal (JNumber 0.5)
  /\ interpolateTransform (transformType sliding) (from sliding) (to sliding)
                          (JNumber 0.5)
     = Normal "translate(5 5)"
  /\ valid_name "transform" = true
  /\ NoDup [circle]
  /\ (let w' := (updateAnimateTransform sliding 0.5 w).1 in
      (updateAnimateTransform sliding 0.5 w).2 = Normal tt
      /\ (forall n, n ∈ [circle] -> is_Some (element_at n w) ->
            read_attribute n "transform" w'
            = Some (if String.eqb (default "" (additive sliding)) "sum"
                    then default ""
                           (Text.truthy (read_attribute n "transform" w))
                         ++ " " ++ "translate(5 5)"
                    else "translate(5 5)"))
      /\ (forall n name', n ∉ [circle] \/ name' <> "transform" ->
                          read_attribute n name' w' = read_attribute n name' w)).
Proof.
  intros w w1.
  assert (getTargets (target sliding) w = (w1, Normal [circle])) as Hget.
  { replace (Normal [circle]) with (getTargets (target sliding) w).2
      by (vm_compute; reflexivity).
    apply surjective_pairing. }
  assert (NoDup [circle]) as Hnodup
    by (apply NoDup_singleton).
  split; [exact Hget|]. split; [vm_compute; reflexivity|].
  split; [vm_compute; reflexivity|]. split; [vm_compute; reflexivity|].
  split; [reflexivity|]. split; [exact Hnodup|].
  apply (additive_transforms_pile_up sliding 0.5 w w1 [circle] (JNumber 0.5)
           "translate(5 5)");
    [exact Hget | vm_compute; reflexivity | vm_compute; reflexivity
    | vm_compute; reflexivity | reflexivity | exact Hnodup].
Defined.

Lemma missing_endpoint_raises_witness :
  let anim := parseAnimateTransform broken 0 in
  let w := loaded broken in
  let w1 := (getTargets (target anim) w).1 in
  getTargets (target anim) w = (w1, Normal [circle])
  /\ (calculateProgress anim 1.5 <? 0) || (1 <? calculateProgress anim 1.5)
     = false
  /\ applyEasing (calculateProgress anim 1.5) (easing anim)
     = Normal (JNumber 0.5)
  /\ ((from anim = None \/ to anim = None ->
       updateAnimateTransform anim 1.5 w = (w1, null_read "split")
       /\ updateAnimateColor anim 1.5 w = (w1, null_read "match"))
      /\ (path_ anim = None ->
          updateAnimatePath anim 1.5 w = (w1, null_read "startsWith"))
      /\ documents w1 = documents w).
Proof.
  intros anim w w1.
  assert (getTargets (target anim) w = (w1, Normal [circle])) as Hget.
  { replace (Normal [circle]) with (getTargets (target anim) w).2
      by (vm_compute; reflexivity).
    apply surjective_pairing. }
  split; [exact Hget|]. split; [vm_compute; reflexivity|].
  split; [vm_compute; reflexivity|].
  apply (missing_endpoint_raises anim 1.5 w w1 circle [] (JNumber 0.5));
    [exact Hget | vm_compute; reflexivity | vm_compute; reflexivity].
Defined.

Lemma stop_does_not_restore_witness :
  let w := (seek 1.5 (loaded late)).1 in
  timeline (this w) = Some [ALeaf (parseAnimate late 0)]
  /\ Forall (not_started 0) (flat_map leaves [ALeaf (parseAnimate late 0)])
  /\ (documents (stop w).1 = documents w
      /\ State.currentTime (state (this (stop w).1)) = 0
      /\ State.playing (state (this (stop w).1)) = false).
Proof.
  intros w.
  assert (timeline (this w) = Some [ALeaf (parseAnimate late 0)]) as Htimeline
    by (vm_compute; reflexivity).
  assert (Forall (not_started 0)
                 (flat_map leaves [ALeaf (parseAnimate late 0)])) as Hlate
    by (repeat constructor; vm_compute; reflexivity).
  split; [exact Htimeline|]. split; [exact Hlate|].
  apply (stop_does_not_restore w [ALeaf (parseAnimate late 0)]);
    [exact Htimeline | exact Hlate].
Defined.

Lemma sequence_children_start_in_turn_witness :
  let el := Node "sequence" [] three_children in
  let a := ALeaf (parseAnimate (Node "animate" [("duration", "2s")] []) 1) in
  group_children (parseSequence el 0) !! 1%nat = Some a
  /\ (let before := take 1 (group_children (parseSequence el 0)) in
      let turn := fold_left add (map anim_duration before) 0 in
      exists child,
        child ∈ children el
        /\ parseAnimation child turn = Some a
        /\ forall l, a = ALeaf l ->
                     start l
                     = turn + parseTime (attribute_or child "start" "0s")).
Proof.
  intros el a.
  assert (group_children (parseSequence el 0) !! 1%nat = Some a) as Hchild
    by (vm_compute; reflexivity).
  split; [exact Hchild|].
  apply (sequence_children_start_in_turn el 0 1 a). exact Hchild.
Defined.

Lemma parseColor_reads_the_printed_form_witness :
  "255" <> "" /\ "0" <> "" /\ "64" <> ""
  /\ Text.forallb Text.is_digit "255" = true
  /\ Text.forallb Text.is_digit "0" = true
  /\ Text.forallb Text.is_digit "64" = true
  /\ parseColor (Some ("rgb(" ++ "255" ++ ", " ++ "0" ++ ", " ++ "64" ++ ")"))
     = Normal (parseInt "255", parseInt "0", parseInt "64").
Proof.
  split; [discriminate|]. split; [discriminate|]. split; [discriminate|].
  split; [reflexivity|]. split; [reflexivity|]. split; [reflexivity|].
  apply (parseColor_reads_the_printed_form "255" "0" "64");
    first [discriminate | reflexivity].
Defined.

Lemma unrecognised_colours_are_black_witness :
  Text.startsWith "red" "rgb(" = false
  /\ (Text.startsWith "red" "#" = false \/ String.length "red" <> 7%nat)
  /\ parseColor (Some "red") = Normal (0, 0, 0).
Proof.
  split; [reflexivity|]. split; [by left|].
  apply (unrecognised_colours_are_black "red"); [reflexivity | by left].
Defined.

Lemma play_resumes_from_the_current_time_witness :
  let w := loaded pulsing in
  State.playing (state (this w)) = false
  /\ (let origin :=
        clock w (clock_reads w) - State.currentTime (state (this w)) * 1000 in
      let elapsed :=
        (clock w (S (S (clock_reads w))) - origin) / 1000
        * State.playbackRate (state (this w)) in
      (State.duration (state (this w)) <=? elapsed) = false
      /\ (let w' := (play w).1 in
          _startTime (this w') = origin
          /\ _lastFrameTime (this w') = clock w (S (clock_reads w))
          /\ State.currentTime (state (this w')) = elapsed
          /\ State.playing (state (this w')) = true
          /\ (dispatched w
              ++ [{| event_type := "play"; detail := NoDetail |}])%list
             `prefix_of` dispatched w')).
Proof.
  intros w. split; [vm_compute; reflexivity|].
  intros origin elapsed. split; [vm_compute; reflexivity|].
  apply (play_resumes_from_the_current_time w); vm_compute; reflexivity.
Defined.

Lemma cubicBezier_starts_at_zero_witness :
  let cx := 3 * 0.25 in
  let bx := 3 * (0.25 - 0.25) - cx in
  let ax := 1 - cx - bx in
  let cy := 3 * 0.1 in
  let b_y := 3 * (1 - 0.1) - cy in
  let ay := 1 - cy - b_y in
  finite ax = true /\ finite bx = true /\ finite cx = true
  /\ finite ay = true /\ finite b_y = true /\ finite cy = true
  /\ is_zero (cubicBezier 0.25 0.1 0.25 1 0) = true.
Proof.
  intros cx bx ax cy b_y ay.
  split; [vm_compute; reflexivity|]. split; [vm_compute; reflexivity|].
  split; [vm_compute; reflexivity|]. split; [vm_compute; reflexivity|].
  split; [vm_compute; reflexivity|]. split; [vm_compute; reflexivity|].
  apply (cubicBezier_starts_at_zero 0.25 0.1 0.25 1); vm_compute; reflexivity.
Defined.

Lemma exportFrame_moves_the_playhead_witness :
  State.playing (state (this (playing pulsing))) = true
  /\ (let run := exportFrame 12 (playing pulsing) in
      State.playing (state (this run.1)) = false
      /\ State.currentTime (state (this run.1))
         = Num.Math_max 0
             (Num.Math_min 12 (State.duration (state (this (playing pulsing)))))
      /\ match svgContent (this (playing pulsing)) with
         | Some _ => run.2 = Normal (Some true) \/ exists e, run.2 = Throw e
         | None => run.2 = Normal None
         end
      /\ exportFrame_resume true run.1 = play run.1).
Proof.
  split; [vm_compute; reflexivity|].
  apply (exportFrame_moves_the_playhead 12 (playing pulsing)).
  vm_compute; reflexivity.
Defined.

Lemma unresolvable_selector_is_never_cached_witness :
  let w := loaded (grow []) in
  let w1 := (getTargets (target unresolvable) w).1 in
  getTargets (target unresolvable) w = (w1, Throw (DOMException "SyntaxError"))
  /\ (w1 = w
      /\ getTargets (target unresolvable) w1
         = (w1, Throw (DOMException "SyntaxError"))).
Proof.
  intros w w1.
  assert (getTargets (target unresolvable) w
          = (w1, Throw (DOMException "SyntaxError"))) as Hfails.
  { replace (Throw (DOMException "SyntaxError"))
      with (getTargets (target unresolvable) w).2 by (vm_compute; reflexivity).
    apply surjective_pairing. }
  split; [exact Hfails|].
  apply (unresolvable_selector_is_never_cached (target unresolvable) w w1
           (DOMException "SyntaxError")).
  exact Hfails.
Defined.
